(** * Task tree of the todo application: model and verified properties

    Shallow embedding of [src/components/todo-app.tsx] (the task tree, its
    mutation operations, the persistence effects and the derived view) and of
    the overdue test of [src/components/task-item.tsx].

    Conventions of the embedding:
    - a JS [string] is a [String.string] (a sequence of bytes; the case
      mapping below is exact on ASCII);
    - a JS number that the code handles is an integer, a [Z], or [NaN];
    - a [Date] object is its time value in milliseconds, or the Invalid Date;
    - React state updaters [setTasks (prev => ...)] are functions from the
      previous tree to the next one;
    - the clock ([Date.now()], [new Date()]) is an explicit argument [now];
      one evaluation of the view reads it once;
    - the text in [localStorage] is taken as the document that [JSON.parse]
      makes of it (or as a text that [JSON.parse] rejects), and what
      [JSON.stringify] writes as the document it denotes; dates are text
      inside the document, and [toISOString] and [Date.parse] are modelled
      character by character. *)

From Stdlib Require Import ZArith List String Ascii Bool Lia Arith.
From Stdlib Require Import Permutation Sorted.
Import ListNotations.

Local Open Scope string_scope.
Local Open Scope list_scope.
Local Open Scope Z_scope.

(** ** Data model *)

(** [Date]: the [[DateValue]] slot of a JS Date object. *)
Inductive Date : Type :=
| TimeValue (ms : Z)
| InvalidDate.

(** [interface Task] (todo-app.tsx, lines 12-21). The optional members
    [reminder?] and [parentId?] are [None] when they read [undefined]. *)
#[warnings="-register-all"]
Inductive Task : Type := mkTask {
  id : string;
  title : string;
  completed : bool;
  color : string;
  tags : list string;
  reminder : option Date;
  subtasks : list Task;
  parentId : option string
}.

(** [interface FilterState] (lines 23-28). *)
Inductive Status : Type := StatusAll | StatusCompleted | StatusPending | StatusOverdue.
Inductive SortBy : Type := SortCreated | SortTitle | SortReminder.

Record FilterState : Type := mkFilterState {
  search : string;
  tag : string;
  status : Status;
  sortBy : SortBy
}.

(** [Omit<Task, "id" | "completed" | "subtasks">], the argument of [addTask]. *)
Record TaskData : Type := mkTaskData {
  d_title : string;
  d_color : string;
  d_tags : list string;
  d_reminder : option Date;
  d_parentId : option string
}.

(** [Partial<Task>], the argument of [updateTask]: [None] is a member that
    the object literal does not name. An optional member that is named may
    carry [undefined] (the edit dialog passes [reminder: undefined] to clear
    a reminder), hence the nested option. *)
Record TaskUpdates : Type := mkTaskUpdates {
  u_id : option string;
  u_title : option string;
  u_completed : option bool;
  u_color : option string;
  u_tags : option (list string);
  u_reminder : option (option Date);
  u_subtasks : option (list Task);
  u_parentId : option (option string)
}.

(** The value an option names, or else a default. *)
Definition pick {A : Type} (named : option A) (old : A) : A :=
  match named with Some v => v | None => old end.

(** ** Walking the tree *)

(** All tasks of a forest in document order (a task, then its subtasks). *)
Fixpoint flattenTask (t : Task) : list Task :=
  t :: flat_map flattenTask (subtasks t).

Definition flatten (ts : list Task) : list Task := flat_map flattenTask ts.

Definition allIds (ts : list Task) : list string := map id (flatten ts).

(** Number of tasks of the forest that bear the id [x]. *)
Definition countId (x : string) (ts : list Task) : nat :=
  count_occ string_dec (allIds ts) x.

(** Nesting is one level deep: no subtask has subtasks of its own. *)
Definition singleLevel (ts : list Task) : Prop :=
  Forall (fun t => Forall (fun s => subtasks s = []) (subtasks t)) ts.

(** Replacing the [subtasks] member, as [{ ...task, subtasks: s }] does. *)
Definition withSubtasks (t : Task) (s : list Task) : Task :=
  mkTask (id t) (title t) (completed t) (color t) (tags t) (reminder t) s (parentId t).

(** ** Mutation operations (todo-app.tsx, lines 65-111) *)

(** A JS string used as a condition: [""] is falsy. *)
Definition truthyString (s : string) : bool := negb (String.eqb s "").

(** The character of a decimal digit. *)
Definition digitChar (d : Z) : ascii := ascii_of_nat (48 + Z.to_nat d).

(** The decimal digits of a non-negative number, most significant first,
    put in front of [acc]; the fuel bounds the number of digits. *)
Fixpoint digitsFuel (fuel : nat) (n : Z) (acc : string) : string :=
  match fuel with
  | O => acc
  | S fuel' =>
      let acc' := String (digitChar (n mod 10)) acc in
      if n <? 10 then acc' else digitsFuel fuel' (n / 10) acc'
  end.

(** [Number.prototype.toString] on an integer (below 1e21, where JS still
    prints plain decimal digits): [Date.now().toString()]. *)
Definition Number_toString (n : Z) : string :=
  if n <? 0 then String "-" (digitsFuel (S (Z.to_nat (Z.log2 (- n)))) (- n) "")
  else digitsFuel (S (Z.to_nat (Z.log2 n))) n "".

(** The object literal of [addTask]:
    [{ ...taskData, id: Date.now().toString(), completed: false,
       subtasks: [], parentId }]. The [parentId] argument overrides the one
    of [taskData], also when it is [undefined]. *)
Definition newTask (now : Z) (taskData : TaskData) (parent : option string) : Task :=
  mkTask (Number_toString now) (d_title taskData) false (d_color taskData)
         (d_tags taskData) (d_reminder taskData) [] parent.

(** [addTask] (lines 65-83). [if (parentId)] is false for [undefined] and
    for the empty string. *)
Definition addTask (now : Z) (taskData : TaskData) (parent : option string)
    (prev : list Task) : list Task :=
  let nt := newTask now taskData parent in
  match parent with
  | Some p =>
      if truthyString p then
        map (fun task =>
               if String.eqb (id task) p
               then withSubtasks task (subtasks task ++ [nt])
               else task) prev
      else prev ++ [nt]
  | None => prev ++ [nt]
  end.

(** The spread [{ ...task, ...updates }]: every member that [updates] names
    replaces the one of [task]. *)
Definition merge (task : Task) (updates : TaskUpdates) : Task :=
  mkTask
    (match u_id updates with Some v => v | None => id task end)
    (match u_title updates with Some v => v | None => title task end)
    (match u_completed updates with Some v => v | None => completed task end)
    (match u_color updates with Some v => v | None => color task end)
    (match u_tags updates with Some v => v | None => tags task end)
    (match u_reminder updates with Some v => v | None => reminder task end)
    (match u_subtasks updates with Some v => v | None => subtasks task end)
    (match u_parentId updates with Some v => v | None => parentId task end).

(** [updateTaskRecursive] (lines 86-96), one task of the [map]. *)
Fixpoint updateTaskNode (taskId : string) (updates : TaskUpdates) (task : Task) : Task :=
  if String.eqb (id task) taskId then merge task updates
  else
    match subtasks task with
    | [] => task
    | _ :: _ => withSubtasks task (map (updateTaskNode taskId updates) (subtasks task))
    end.

Definition updateTaskRecursive (taskId : string) (updates : TaskUpdates)
    (tasks : list Task) : list Task :=
  map (updateTaskNode taskId updates) tasks.

(** [updateTask] (lines 85-98). *)
Definition updateTask (taskId : string) (updates : TaskUpdates)
    (prev : list Task) : list Task :=
  updateTaskRecursive taskId updates prev.

(** [deleteTaskRecursive] (lines 101-109). The callback of [filter] drops a
    task that bears the id and otherwise assigns the pruned subtasks to the
    task it keeps; the pruned task is what the resulting array holds. *)
Fixpoint deleteTaskNode (taskId : string) (task : Task) : option Task :=
  if String.eqb (id task) taskId then None
  else
    match subtasks task with
    | [] => Some task
    | _ :: _ =>
        Some (withSubtasks task
                (flat_map (fun s => match deleteTaskNode taskId s with
                                    | Some s' => [s']
                                    | None => []
                                    end) (subtasks task)))
    end.

Definition deleteTaskRecursive (taskId : string) (tasks : list Task) : list Task :=
  flat_map (fun t => match deleteTaskNode taskId t with
                     | Some t' => [t']
                     | None => []
                     end) tasks.

(** [deleteTask] (lines 100-111). *)
Definition deleteTask (taskId : string) (prev : list Task) : list Task :=
  deleteTaskRecursive taskId prev.

(** ** One-hole contexts

    "Identical to [t] except for the task with id [x]" is stated with a
    context: a forest with one hole in the place of a task. The siblings
    before and after the hole, and every ancestor apart from its [subtasks]
    member, are those of the context. *)
Inductive Ctx : Type :=
| Here (before after : list Task)
| Inside (before : list Task) (parent : Task) (inner : Ctx) (after : list Task).

(** The forest obtained by putting [t] in the hole. *)
Fixpoint plug (c : Ctx) (t : Task) : list Task :=
  match c with
  | Here before after => before ++ t :: after
  | Inside before parent inner after =>
      before ++ withSubtasks parent (plug inner t) :: after
  end.

(** The forest obtained by closing the hole. *)
Fixpoint unplug (c : Ctx) : list Task :=
  match c with
  | Here before after => before ++ after
  | Inside before parent inner after =>
      before ++ withSubtasks parent (unplug inner) :: after
  end.

(** [task'] is [task] with exactly the members that [p] names replaced. *)
Definition mergedFrom (task : Task) (p : TaskUpdates) (task' : Task) : Prop :=
  id task' = pick (u_id p) (id task) /\
  title task' = pick (u_title p) (title task) /\
  completed task' = pick (u_completed p) (completed task) /\
  color task' = pick (u_color p) (color task) /\
  tags task' = pick (u_tags p) (tags task) /\
  reminder task' = pick (u_reminder p) (reminder task) /\
  subtasks task' = pick (u_subtasks p) (subtasks task) /\
  parentId task' = pick (u_parentId p) (parentId task).

(** ** JS numbers and strings used by the view *)

(** A JS number as far as the code computes with it: an integer or [NaN]. *)
Inductive JSNum : Type :=
| Num (z : Z)
| NaN.

(** [a - b] on numbers. *)
Definition JSNum_sub (a b : JSNum) : JSNum :=
  match a, b with
  | Num x, Num y => Num (x - y)
  | _, _ => NaN
  end.

(** [Date.prototype.getTime]. *)
Definition getTime (d : Date) : JSNum :=
  match d with
  | TimeValue ms => Num ms
  | InvalidDate => NaN
  end.

(** White space that [parseInt] skips (the ASCII part of it). *)
Definition isWhiteSpace (c : ascii) : bool :=
  let n := nat_of_ascii c in
  ((9 <=? n) && (n <=? 13))%nat || (n =? 32)%nat.

Fixpoint skipWhiteSpace (s : string) : string :=
  match s with
  | String c s' => if isWhiteSpace c then skipWhiteSpace s' else s
  | EmptyString => s
  end.

(** The value of a digit in the given radix, if it is one. *)
Definition digitValue (radix : Z) (c : ascii) : option Z :=
  let n := Z.of_nat (nat_of_ascii c) in
  let v := if (48 <=? n) && (n <=? 57) then Some (n - 48)
           else if (97 <=? n) && (n <=? 122) then Some (n - 87)
           else if (65 <=? n) && (n <=? 90) then Some (n - 55)
           else None in
  match v with
  | Some d => if d <? radix then Some d else None
  | None => None
  end.

(** The longest prefix of digits, read in the radix; [acc] is [None] until
    a digit has been read. *)
Fixpoint readDigits (radix : Z) (s : string) (acc : option Z) : option Z :=
  match s with
  | String c s' =>
      match digitValue radix c with
      | Some d => readDigits radix s' (Some (radix * pick acc 0 + d))
      | None => acc
      end
  | EmptyString => acc
  end.

(** [Number.parseInt(s)] without a radix argument: leading white space, an
    optional sign, an optional [0x] prefix, then the longest run of digits;
    [NaN] when there is no digit. *)
Definition parseInt (s : string) : JSNum :=
  let s1 := skipWhiteSpace s in
  let '(sign, s2) :=
    match s1 with
    | String "-" r => (-1, r)
    | String "+" r => (1, r)
    | _ => (1, s1)
    end in
  let '(radix, s3) :=
    match s2 with
    | String "0" (String "x" r) => (16, r)
    | String "0" (String "X" r) => (16, r)
    | _ => (10, s2)
    end in
  match readDigits radix s3 None with
  | Some v => Num (sign * v)
  | None => NaN
  end.

(** [String.prototype.toLowerCase], exact on ASCII letters; other bytes are
    left as they are. *)
Definition lowerChar (c : ascii) : ascii :=
  let n := nat_of_ascii c in
  if ((65 <=? n) && (n <=? 90))%nat then ascii_of_nat (n + 32) else c.

Fixpoint toLowerCase (s : string) : string :=
  match s with
  | String c s' => String (lowerChar c) (toLowerCase s')
  | EmptyString => EmptyString
  end.

(** [String.prototype.includes]: [sub] occurs in [s]. *)
Fixpoint includes (s sub : string) : bool :=
  if String.prefix sub s then true
  else match s with
       | String _ s' => includes s' sub
       | EmptyString => false
       end.

(** [Array.prototype.includes] on an array of strings. *)
Definition Array_includes (l : list string) (x : string) : bool :=
  existsb (String.eqb x) l.

(** ** Overdue test (task-item.tsx, line 44; todo-app.tsx, lines 147-150) *)

(** [d < new Date()]: both sides are compared as time values, and the
    comparison with an Invalid Date is false. *)
Definition Date_before (d : Date) (now : Z) : bool :=
  match d with
  | TimeValue ms => ms <? now
  | InvalidDate => false
  end.

(** [task.reminder && task.reminder < new Date() && !task.completed]. *)
Definition isOverdue (now : Z) (task : Task) : bool :=
  match reminder task with
  | Some d => Date_before d now && negb (completed task)
  | None => false
  end.

(** [task.subtasks.some(subtask => ...)] with the same test. *)
Definition hasOverdueSubtasks (now : Z) (task : Task) : bool :=
  existsb (isOverdue now) (subtasks task).

(** ** The derived view [filteredTasks] (todo-app.tsx, lines 125-180) *)

(** [Array.prototype.sort(cmp)] is stable; with a comparator that orders
    its arguments consistently the result is the one stable arrangement,
    which insertion from the right computes: [x], which stood before all of
    [l], moves behind [y] only if [cmp x y > 0]. A result that is [NaN]
    counts as [0]. *)
Definition sortsAfter (v : JSNum) : bool :=
  match v with
  | Num z => 0 <? z
  | NaN => false
  end.

Fixpoint insertSorted {A : Type} (cmp : A -> A -> JSNum) (x : A) (l : list A) : list A :=
  match l with
  | [] => [x]
  | y :: l' => if sortsAfter (cmp x y) then y :: insertSorted cmp x l' else x :: l
  end.

Definition Array_sort {A : Type} (cmp : A -> A -> JSNum) (l : list A) : list A :=
  fold_right (insertSorted cmp) [] l.

Section View.

(** [String.prototype.localeCompare] depends on the locale of the
    runtime; it is a parameter of the view. *)
Variable localeCompare : string -> string -> Z.

(** The callback of [filter] (lines 126-166). *)
Definition keepTask (now : Z) (filters : FilterState) (task : Task) : bool :=
  let needle := toLowerCase (search filters) in
  if truthyString (search filters)
     && negb (includes (toLowerCase (title task)) needle)
     && negb (existsb (fun subtask => includes (toLowerCase (title subtask)) needle)
                      (subtasks task))
  then false
  else if negb (String.eqb (tag filters) "all")
          && negb (Array_includes (tags task) (tag filters))
          && negb (existsb (fun subtask => Array_includes (tags subtask) (tag filters))
                           (subtasks task))
  then false
  else
    match status filters with
    | StatusAll => true
    | StatusCompleted =>
        if negb (completed task) && negb (existsb completed (subtasks task))
        then false else true
    | StatusPending =>
        if completed task || isOverdue now task || hasOverdueSubtasks now task
        then false else true
    | StatusOverdue =>
        if negb (isOverdue now task) && negb (hasOverdueSubtasks now task)
        then false else true
    end.

(** The comparator of [sort] (lines 167-180). A [Date] object is truthy
    also when it is the Invalid Date. *)
Definition compareTasks (by_ : SortBy) (a b : Task) : JSNum :=
  match by_ with
  | SortTitle => Num (localeCompare (title a) (title b))
  | SortReminder =>
      match reminder a, reminder b with
      | None, None => Num 0
      | None, Some _ => Num 1
      | Some _, None => Num (-1)
      | Some da, Some db => JSNum_sub (getTime da) (getTime db)
      end
  | SortCreated => JSNum_sub (parseInt (id a)) (parseInt (id b))
  end.

(** [tasks.filter(...).sort(...)]. *)
Definition filteredTasks (now : Z) (filters : FilterState) (tasks : list Task)
    : list Task :=
  Array_sort (compareTasks (sortBy filters)) (filter (keepTask now filters) tasks).

End View.

(** The filters of the initial state and of [clearFilters]. *)
Definition defaultFilters : FilterState := mkFilterState "" "all" StatusAll SortCreated.

(** ** Sample data: the scenario of the milk errand *)

Definition milkData : TaskData := mkTaskData "Buy milk" "bg-card" ["errand"] None None.
Definition twoPercentData : TaskData := mkTaskData "2% milk" "bg-card" [] None None.

(** "Buy milk" created at clock reading 1000, then "2% milk" added under it
    at clock reading 2000. *)
Definition milkTree : list Task :=
  addTask 2000 twoPercentData (Some "1000") (addTask 1000 milkData None []).

(** Marking a task as done, as the checkbox of a task does. *)
Definition markDone : TaskUpdates :=
  mkTaskUpdates None None (Some true) None None None None None.

(** The deletion as it reads when every task with another id is required
    to stay: one task fewer bears the id [x], and the number of tasks that
    bear any other id is the same as before. *)
Definition deleteKeepsAllOthers (x : string) (t : list Task) : Prop :=
  (countId x (deleteTask x t) + 1 = countId x t)%nat /\
  forall y, y <> x -> countId y (deleteTask x t) = countId y t.

(** ** Histories: the states the application can reach

    The tree starts empty ([useState<Task[]>([])]) and changes only through
    the three operations. An [OpAdd] carries the clock reading that
    [Date.now()] returned in that call. *)
Inductive Op : Type :=
| OpAdd (now : Z) (taskData : TaskData) (parent : option string)
| OpUpdate (taskId : string) (updates : TaskUpdates)
| OpDelete (taskId : string).

Definition applyOp (tasks : list Task) (op : Op) : list Task :=
  match op with
  | OpAdd now taskData parent => addTask now taskData parent tasks
  | OpUpdate taskId updates => updateTask taskId updates tasks
  | OpDelete taskId => deleteTask taskId tasks
  end.

Definition runOps (ops : list Op) : list Task := fold_left applyOp ops [].

(** The clock readings of the additions of a history, in order. *)
Definition clockReadings (ops : list Op) : list Z :=
  flat_map (fun op => match op with OpAdd now _ _ => [now] | _ => [] end) ops.

(** An update that does not name the member [subtasks] / the member [id];
    the updates of the components name [completed], [color], [title],
    [tags] and [reminder] only. *)
Definition keepsNesting (op : Op) : Prop :=
  match op with OpUpdate _ u => u_subtasks u = None | _ => True end.

Definition keepsIds (op : Op) : Prop :=
  match op with OpUpdate _ u => u_id u = None | _ => True end.

(** The invariants of the tree as the specification lists them. *)
Definition uniqueIds (ts : list Task) : Prop := NoDup (allIds ts).

(** Two additions within one clock tick. *)
Definition sameTickOps : list Op := [OpAdd 1000 milkData None; OpAdd 1000 twoPercentData None].

(** ** Sample data: reminders around a clock reading *)

Definition oneHour : Z := 3600000.

(** The filters with only the status criterion set to "overdue". *)
Definition overdueFilters : FilterState := mkFilterState "" "all" StatusOverdue SortCreated.

(** A task with a reminder, at the top level. *)
Definition reminderTask (i : string) (r : Z) (done : bool) : Task :=
  mkTask i "Call the bank" done "bg-card" [] (Some (TimeValue r)) [] None.

(** A task without reminder that has one subtask with a reminder. *)
Definition parentOf (s : Task) : Task :=
  mkTask "1" "Paperwork" false "bg-card" [] None [s] None.

(** ** Order of the view by reminder *)

(** The reminder, when there is one, is a proper date. *)
Definition validReminder (t : Task) : Prop := reminder t <> Some InvalidDate.

(** [a] may stand before [b] in the order by reminder: both have a reminder
    and the one of [a] is not later, or [b] has none. *)
Definition reminderOrder (a b : Task) : Prop :=
  match reminder a, reminder b with
  | Some (TimeValue x), Some (TimeValue y) => x <= y
  | Some _, None => True
  | None, None => True
  | _, _ => False
  end.

(** The tasks that compare equal to a given reminder: those without
    reminder for [None], those with the same time value otherwise. *)
Definition sameReminder (r : option Date) (t : Task) : bool :=
  match r, reminder t with
  | None, None => true
  | Some (TimeValue x), Some (TimeValue y) => x =? y
  | Some InvalidDate, Some InvalidDate => true
  | _, _ => false
  end.

(** Three tasks with reminders at 500, none, and 100, and a fourth without. *)
Definition reminderSample : list Task :=
  [ reminderTask "1" 500 false;
    mkTask "2" "Water plants" false "bg-card" [] None [] None;
    reminderTask "3" 100 false;
    mkTask "4" "Read" false "bg-card" [] None [] None ].

Definition reminderFilters : FilterState := mkFilterState "" "all" StatusAll SortReminder.

(** ** Dates as text: [Date.prototype.toISOString] and [Date.parse]

    [JSON.stringify] writes a [Date] through [toJSON], that is
    [toISOString]: [YYYY-MM-DDTHH:mm:ss.sssZ] in UTC, the year with four
    digits from 0 to 9999 and with a sign and six digits otherwise. The
    calendar is the proleptic Gregorian one, computed era by era (an era is
    400 years, 146097 days, and starts on a first of March). *)

Definition msPerDay : Z := 86400000.

(** The largest time value of a [Date] (ECMAScript [TimeClip]). *)
Definition maxTime : Z := 8640000000000000.

Definition TimeClip (t : Z) : Date :=
  if (- maxTime <=? t) && (t <=? maxTime) then TimeValue t else InvalidDate.

(** Year of the era (0..399), month (1..12) and day (1..31) of a day of the
    era (0..146096). *)
Definition civilOfEraDay (doe : Z) : Z * Z * Z :=
  let yoe := (doe - doe / 1460 + doe / 36524 - doe / 146096) / 365 in
  let doy := doe - (365 * yoe + yoe / 4 - yoe / 100) in
  let mp := (5 * doy + 2) / 153 in
  let d := doy - (153 * mp + 2) / 5 + 1 in
  let m := if mp <? 10 then mp + 3 else mp - 9 in
  (yoe, m, d).

(** The day of the era of a year of the era, a month and a day. *)
Definition eraDayOfCivil (yoe m d : Z) : Z :=
  let mp := if 2 <? m then m - 3 else m + 9 in
  let doy := (153 * mp + 2) / 5 + d - 1 in
  yoe * 365 + yoe / 4 - yoe / 100 + doy.

(** Year, month and day of a day number (days since 1970-01-01). *)
Definition civilFromDays (z : Z) : Z * Z * Z :=
  let z' := z + 719468 in
  let era := z' / 146097 in
  let '(yoe, m, d) := civilOfEraDay (z' mod 146097) in
  (yoe + era * 400 + (if m <=? 2 then 1 else 0), m, d).

(** The day number of a date ([MakeDay]). *)
Definition daysFromCivil (y m d : Z) : Z :=
  let y' := if m <=? 2 then y - 1 else y in
  (y' / 400) * 146097 + eraDayOfCivil (y' mod 400) m d - 719468.

(** [n] with exactly [width] digits, most significant first. *)
Fixpoint padDigits (width : nat) (n : Z) : string :=
  match width with
  | O => ""
  | S w => String (digitChar (n / 10 ^ Z.of_nat w mod 10)) (padDigits w n)
  end.

Definition yearString (y : Z) : string :=
  if (0 <=? y) && (y <=? 9999) then padDigits 4 y
  else String (if y <? 0 then "-"%char else "+"%char) (padDigits 6 (Z.abs y)).

(** [toISOString] on a time value. *)
Definition toISOString (t : Z) : string :=
  let day := t / msPerDay in
  let ms := t mod msPerDay in
  let '(y, m, d) := civilFromDays day in
  (yearString y ++ "-" ++ padDigits 2 m ++ "-" ++ padDigits 2 d ++ "T"
   ++ padDigits 2 (ms / 3600000) ++ ":" ++ padDigits 2 (ms / 60000 mod 60) ++ ":"
   ++ padDigits 2 (ms / 1000 mod 60) ++ "." ++ padDigits 3 (ms mod 1000) ++ "Z")%string.

(** Reading: exactly [width] digits, then a given character. *)
Fixpoint readFixed (width : nat) (s : string) (acc : Z) : option (Z * string) :=
  match width with
  | O => Some (acc, s)
  | S w =>
      match s with
      | String c s' =>
          match digitValue 10 c with
          | Some d => readFixed w s' (10 * acc + d)
          | None => None
          end
      | EmptyString => None
      end
  end.

Definition expectChar (c : ascii) (s : string) : option string :=
  match s with
  | String c' s' => if Ascii.eqb c c' then Some s' else None
  | EmptyString => None
  end.

(** The fields of a text in the full UTC form. *)
Record IsoFields : Type := mkIsoFields {
  f_year : Z; f_month : Z; f_day : Z;
  f_hour : Z; f_minute : Z; f_second : Z; f_ms : Z
}.

Definition bind {A B : Type} (o : option A) (k : A -> option B) : option B :=
  match o with Some a => k a | None => None end.

Notation "x <- c1 ;; c2" := (bind c1 (fun x => c2))
  (at level 61, c1 at next level, right associativity).
Notation "' pat <- c1 ;; c2" := (bind c1 (fun x => match x with pat => c2 end))
  (at level 61, pat pattern, c1 at next level, right associativity).

Definition readYear (s : string) : option (Z * string) :=
  match s with
  | String "+" r => readFixed 6 r 0
  | String "-" r =>
      '(y, r') <- readFixed 6 r 0 ;;
      if y =? 0 then None else Some (- y, r')
  | _ => readFixed 4 s 0
  end.

Definition isoFields (s : string) : option IsoFields :=
  '(y, s) <- readYear s ;;
  s <- expectChar "-" s ;;
  '(mo, s) <- readFixed 2 s 0 ;;
  s <- expectChar "-" s ;;
  '(d, s) <- readFixed 2 s 0 ;;
  s <- expectChar "T" s ;;
  '(h, s) <- readFixed 2 s 0 ;;
  s <- expectChar ":" s ;;
  '(mi, s) <- readFixed 2 s 0 ;;
  s <- expectChar ":" s ;;
  '(se, s) <- readFixed 2 s 0 ;;
  s <- expectChar "." s ;;
  '(ms, s) <- readFixed 3 s 0 ;;
  s <- expectChar "Z" s ;;
  match s with
  | EmptyString => Some (mkIsoFields y mo d h mi se ms)
  | String _ _ => None
  end.

(** The element values the format allows (hour 24 only as 24:00:00.000). *)
Definition legalFields (f : IsoFields) : bool :=
  (1 <=? f_month f) && (f_month f <=? 12) && (1 <=? f_day f) && (f_day f <=? 31)
  && (f_hour f <=? 24) && (f_minute f <=? 59) && (f_second f <=? 59)
  && (negb (f_hour f =? 24) || ((f_minute f =? 0) && (f_second f =? 0) && (f_ms f =? 0))).

(** The time value of the fields ([MakeDate (MakeDay ...) (MakeTime ...)]). *)
Definition timeOfFields (f : IsoFields) : Z :=
  daysFromCivil (f_year f) (f_month f) (f_day f) * msPerDay
  + ((f_hour f * 60 + f_minute f) * 60 + f_second f) * 1000 + f_ms f.

(** ** JSON documents and JS values

    A [Json] is what [JSON.parse] returns and what [JSON.stringify] writes
    (numbers are modelled when they are integers; [interface Task] has no
    numeric member). A [JsVal] is a value of the running program: it may
    also be [undefined] or a [Date] object. An object is the list of its own
    properties in creation order. *)
#[warnings="-register-all"]
Inductive Json : Type :=
| JNull
| JBool (b : bool)
| JNum (n : Z)
| JStr (s : string)
| JArr (items : list Json)
| JObj (props : list (string * Json)).

#[warnings="-register-all"]
Inductive JsVal : Type :=
| VUndefined
| VNull
| VBool (b : bool)
| VNum (n : Z)
| VStr (s : string)
| VDate (d : Date)
| VArr (items : list JsVal)
| VObj (props : list (string * JsVal)).

(** Reading and writing an own property. *)
Fixpoint lookupProp {A : Type} (k : string) (props : list (string * A)) : option A :=
  match props with
  | [] => None
  | (k', v) :: rest => if String.eqb k' k then Some v else lookupProp k rest
  end.

Fixpoint setProp {A : Type} (k : string) (v : A) (props : list (string * A))
    : list (string * A) :=
  match props with
  | [] => [(k, v)]
  | (k', v') :: rest =>
      if String.eqb k' k then (k, v) :: rest else (k', v') :: setProp k v rest
  end.

(** [JSON.stringify] as a map on values: a property that is [undefined] is
    left out, an array element that is [undefined] becomes [null], a [Date]
    is written by [toJSON] ([toISOString], or [null] for the Invalid Date).
    [None] is the result [undefined]. *)
Fixpoint toJson (v : JsVal) : option Json :=
  match v with
  | VUndefined => None
  | VNull => Some JNull
  | VBool b => Some (JBool b)
  | VNum n => Some (JNum n)
  | VStr s => Some (JStr s)
  | VDate (TimeValue t) => Some (JStr (toISOString t))
  | VDate InvalidDate => Some JNull
  | VArr items =>
      Some (JArr (map (fun x => match toJson x with Some j => j | None => JNull end) items))
  | VObj props =>
      Some (JObj (flat_map (fun p => match toJson (snd p) with
                                     | Some j => [(fst p, j)]
                                     | None => []
                                     end) props))
  end.

(** The value [JSON.parse] builds for a document. *)
Fixpoint ofJson (j : Json) : JsVal :=
  match j with
  | JNull => VNull
  | JBool b => VBool b
  | JNum n => VNum n
  | JStr s => VStr s
  | JArr items => VArr (map ofJson items)
  | JObj props => VObj (map (fun p => (fst p, ofJson (snd p))) props)
  end.

(** [Array.prototype.join(",")], which is [toString] on arrays. *)
Fixpoint joinComma (l : list string) : string :=
  match l with
  | [] => ""
  | [s] => s
  | s :: rest => (s ++ "," ++ joinComma rest)%string
  end.

(** [ToString] of a parsed value. *)
Fixpoint Json_toString (j : Json) : string :=
  match j with
  | JNull => "null"
  | JBool true => "true"
  | JBool false => "false"
  | JNum n => Number_toString n
  | JStr s => s
  | JArr items =>
      joinComma (map (fun x => match x with JNull => "" | _ => Json_toString x end) items)
  | JObj _ => "[object Object]"
  end.

(** The own enumerable properties that a spread [{ ...x }] copies: those of
    an object, the indexed elements of an array, the indexed characters of
    a string, none for the other values. *)
Fixpoint indexed {A : Type} (i : nat) (l : list A) : list (string * A) :=
  match l with
  | [] => []
  | x :: rest => (Number_toString (Z.of_nat i), x) :: indexed (S i) rest
  end.

Definition ownProps (j : Json) : list (string * JsVal) :=
  match j with
  | JObj props => map (fun p => (fst p, ofJson (snd p))) props
  | JArr items => indexed 0 (map ofJson items)
  | JStr s => indexed 0 (map (fun c => VStr (String c "")) (list_ascii_of_string s))
  | _ => []
  end.

(** A parsed value used as a condition; [None] is [undefined]. *)
Definition truthy (o : option Json) : bool :=
  match o with
  | None => false
  | Some JNull => false
  | Some (JBool b) => b
  | Some (JNum n) => negb (n =? 0)
  | Some (JStr s) => truthyString s
  | Some (JArr _) => true
  | Some (JObj _) => true
  end.

(** Exceptions and completions. *)
Inductive Error : Type := SyntaxError | TypeError.

Inductive Completion (A : Type) : Type :=
| Normal (a : A)
| Throw (e : Error).
Arguments Normal {A} a.
Arguments Throw {A} e.

Definition andThen {A B : Type} (c : Completion A) (k : A -> Completion B)
    : Completion B :=
  match c with Normal a => k a | Throw e => Throw e end.

(** [Array.prototype.map] with a callback that may throw. *)
Fixpoint mapThrowing {A B : Type} (f : A -> Completion B) (l : list A)
    : Completion (list B) :=
  match l with
  | [] => Normal []
  | x :: rest =>
      andThen (f x) (fun y => andThen (mapThrowing f rest) (fun ys => Normal (y :: ys)))
  end.

(** [x.reminder] and [x.subtasks] on a parsed value [x]: a [TypeError] on
    [null], the own property of an object, [undefined] on the other values
    (neither a number, a boolean, a string nor an array has a property of
    one of these two names). *)
Definition getProp (k : string) (x : Json) : Completion (option Json) :=
  match x with
  | JNull => Throw TypeError
  | JObj props => Normal (lookupProp k props)
  | _ => Normal None
  end.

(** What [localStorage.getItem("todo-tasks")] returns, as the load effect
    sees it: nothing stored ([null]), the empty text, a text that
    [JSON.parse] rejects, or a text that it accepts together with the
    document it denotes. *)
Inductive SavedTasks : Type :=
| NotStored
| EmptyText
| Malformed
| Document (doc : Json).

Section Persistence.

(** [Date.parse] reads the full UTC form that [toISOString] prints; what
    it makes of any other text (the shorter forms of the format, which
    depend on the local time zone, and the formats an engine accepts on
    top) is a parameter. *)
Variable otherDateFormats : string -> Date.

Definition Date_parse (s : string) : Date :=
  match isoFields s with
  | Some f => if legalFields f then TimeClip (timeOfFields f) else InvalidDate
  | None => otherDateFormats s
  end.

(** [new Date(x)] on a parsed value: a string is parsed, a number or a
    boolean is a time value, an array or an object goes through its
    [toString]. *)
Definition newDate (x : Json) : Date :=
  match x with
  | JStr s => Date_parse s
  | JNum n => TimeClip n
  | JBool b => TimeClip (if b then 1 else 0)
  | JNull => TimeValue 0
  | JArr _ | JObj _ => Date_parse (Json_toString x)
  end.

(** [x.reminder ? new Date(x.reminder) : undefined]. *)
Definition reviveReminder (r : option Json) : JsVal :=
  match r with
  | Some x => if truthy r then VDate (newDate x) else VUndefined
  | None => VUndefined
  end.

(** The inner callback (lines 51-54):
    [{ ...subtask, reminder: ... }]. *)
Definition reviveSubtask (subtask : Json) : Completion JsVal :=
  andThen (getProp "reminder" subtask) (fun r =>
  Normal (VObj (setProp "reminder" (reviveReminder r) (ownProps subtask)))).

(** [task.subtasks?.map(...) || []]: [undefined] or [null] gives the
    empty array; on any value but an array, [map] is not a function. *)
Definition reviveSubtasks (s : option Json) : Completion JsVal :=
  match s with
  | None | Some JNull => Normal (VArr [])
  | Some (JArr items) =>
      andThen (mapThrowing reviveSubtask items) (fun l => Normal (VArr l))
  | Some _ => Throw TypeError
  end.

(** The outer callback (lines 47-55):
    [{ ...task, reminder: ..., subtasks: ... }]. *)
Definition reviveTask (task : Json) : Completion JsVal :=
  andThen (getProp "reminder" task) (fun r =>
  andThen (getProp "subtasks" task) (fun s =>
  andThen (reviveSubtasks s) (fun subs =>
  Normal (VObj (setProp "subtasks" subs
                  (setProp "reminder" (reviveReminder r) (ownProps task))))))).

(** The load effect (lines 42-58). [Normal None]: [setTasks] is not
    called and the tree stays the initial, empty one. [Normal (Some l)]:
    [setTasks(l)]. [Throw e]: the effect ends with an uncaught exception;
    nothing in the component catches it. *)
Definition loadTasks (saved : SavedTasks) : Completion (option (list JsVal)) :=
  match saved with
  | NotStored | EmptyText => Normal None
  | Malformed => Throw SyntaxError
  | Document (JArr items) =>
      andThen (mapThrowing reviveTask items) (fun l => Normal (Some l))
  | Document _ => Throw TypeError
  end.

End Persistence.

(** ** The tree as JS objects *)

Definition optional {A : Type} (f : A -> JsVal) (o : option A) : JsVal :=
  match o with Some a => f a | None => VUndefined end.

(** A task as the object that [addTask] builds: the members of [taskData]
    in the order the dialog lists them, then [id], [completed], [subtasks]
    and [parentId]. *)
Fixpoint Task_toJs (t : Task) : JsVal :=
  VObj [ ("title", VStr (title t));
         ("tags", VArr (map VStr (tags t)));
         ("reminder", optional VDate (reminder t));
         ("color", VStr (color t));
         ("id", VStr (id t));
         ("completed", VBool (completed t));
         ("subtasks", VArr (map Task_toJs (subtasks t)));
         ("parentId", optional VStr (parentId t)) ].

(** The save effect (lines 61-63): what
    [localStorage.setItem("todo-tasks", JSON.stringify(tasks))] stores.
    ([JSON.stringify] of [undefined] would store a text that is not JSON;
    an array never gives that.) *)
Definition saveTasks (tasks : list Task) : SavedTasks :=
  match toJson (VArr (map Task_toJs tasks)) with
  | Some doc => Document doc
  | None => Malformed
  end.

(** Reading a JS object member by member at the types of [interface Task]:
    [None] when a member does not have its declared type. *)
Definition asString (v : option JsVal) : option string :=
  match v with Some (VStr s) => Some s | _ => None end.

Definition asBool (v : option JsVal) : option bool :=
  match v with Some (VBool b) => Some b | _ => None end.

Fixpoint allSome {A : Type} (l : list (option A)) : option (list A) :=
  match l with
  | [] => Some []
  | o :: rest => a <- o ;; r <- allSome rest ;; Some (a :: r)
  end.

Definition asStrings (v : option JsVal) : option (list string) :=
  match v with
  | Some (VArr items) => allSome (map (fun x => asString (Some x)) items)
  | _ => None
  end.

Definition asOptionalString (v : option JsVal) : option (option string) :=
  match v with
  | None | Some VUndefined => Some None
  | Some (VStr s) => Some (Some s)
  | _ => None
  end.

Definition asOptionalDate (v : option JsVal) : option (option Date) :=
  match v with
  | None | Some VUndefined => Some None
  | Some (VDate d) => Some (Some d)
  | _ => None
  end.

Fixpoint Task_ofJs (v : JsVal) : option Task :=
  match v with
  | VObj props =>
      i <- asString (lookupProp "id" props) ;;
      ti <- asString (lookupProp "title" props) ;;
      c <- asBool (lookupProp "completed" props) ;;
      co <- asString (lookupProp "color" props) ;;
      ta <- asStrings (lookupProp "tags" props) ;;
      r <- asOptionalDate (lookupProp "reminder" props) ;;
      subs <- (fix member (ps : list (string * JsVal)) : option (list Task) :=
                 match ps with
                 | [] => None
                 | (k, x) :: rest =>
                     if String.eqb k "subtasks" then
                       match x with
                       | VArr items =>
                           (fix each (l : list JsVal) : option (list Task) :=
                              match l with
                              | [] => Some []
                              | y :: l' =>
                                  t <- Task_ofJs y ;; ts <- each l' ;; Some (t :: ts)
                              end) items
                       | _ => None
                       end
                     else member rest
                 end) props ;;
      pa <- asOptionalString (lookupProp "parentId" props) ;;
      Some (mkTask i ti c co ta r subs pa)
  | _ => None
  end.

(** The tree that the load effect leaves in the state, read at the types
    of [interface Task]; [None] when some object does not fit them. *)
Definition treeOf (l : list JsVal) : option (list Task) :=
  allSome (map Task_ofJs l).

(** A tree that can be stored: every reminder is a proper date within the
    range of time values. *)
Definition storableReminder (t : Task) : Prop :=
  match reminder t with
  | None => True
  | Some (TimeValue ms) => - maxTime <= ms <= maxTime
  | Some InvalidDate => False
  end.

Definition validTree (tasks : list Task) : Prop :=
  singleLevel tasks /\ Forall storableReminder (flatten tasks).

(** An engine without date formats of its own. *)
Definition noOtherFormats (s : string) : Date := InvalidDate.


(** ** Checking a property on a range of integers by evaluation *)

(** [p] holds on [z, z+1, ..., z+fuel-1]. *)
Fixpoint checkRange (fuel : nat) (z : Z) (p : Z -> bool) : bool :=
  match fuel with
  | O => true
  | S fuel' => p z && checkRange fuel' (z + 1) p
  end.

(** The calendar of one era: the fields of a day are in range and lead
    back to the day. *)
Definition eraDayCheck (doe : Z) : bool :=
  let '(yoe, m, d) := civilOfEraDay doe in
  (0 <=? yoe) && (yoe <? 400) && (1 <=? m) && (m <=? 12) && (1 <=? d) && (d <=? 31)
  && (eraDayOfCivil yoe m d =? doe).

(** The document of a task. *)
Definition jsonOf (t : Task) : Json :=
  match toJson (Task_toJs t) with Some j => j | None => JNull end.

(** ** Corrupt stored state *)

(** The load recovers: no exception, and the tree is the empty one
    afterwards ([setTasks] is not called, or is called with []). *)
Definition loadsEmptyTree (other : string -> Date) (saved : SavedTasks) : Prop :=
  loadTasks other saved = Normal None \/ loadTasks other saved = Normal (Some []).

(** The record of a task in which the text of the reminder was replaced. *)
Definition withReminderText (t : Task) (s : string) : Json :=
  match jsonOf t with
  | JObj props => JObj (setProp "reminder" (JStr s) props)
  | j => j
  end.

Definition withReminder (t : Task) (r : option Date) : Task :=
  mkTask (id t) (title t) (completed t) (color t) (tags t) r (subtasks t) (parentId t).

(** A stored document whose only task has a reminder that is no date. *)
Definition badReminderDocument : Json :=
  JArr [withReminderText (newTask 1000 milkData None) "next week"].

(** ** Order of creation *)

(** A [localeCompare] for the examples: comparison by code units. *)
Definition codeUnitCompare (a b : string) : Z :=
  match String.compare a b with
  | Lt => -1
  | Eq => 0
  | Gt => 1
  end.

(** The top-level ids were printed from clock readings that never
    decrease along the list and do not exceed [latest]. *)
Definition createdInOrder (latest : Z) (tasks : list Task) : Prop :=
  exists zs, map id tasks = map Number_toString zs /\
             StronglySorted Z.le zs /\ Forall (fun z => z <= latest) zs.

(** The view lists the tasks that pass the filter in the order of the
    tree, which is the order of insertion. *)
Definition viewInTreeOrder (lc : string -> string -> Z) (now : Z)
    (filters : FilterState) (tasks : list Task) : Prop :=
  filteredTasks lc now filters tasks = filter (keepTask now filters) tasks.

(** A history in which the clock was set back between two additions. *)
Definition clockSetBackOps : list Op :=
  [OpAdd 2000 milkData None; OpAdd 1000 twoPercentData None].

(** ** The view as a computation on arrays in the store

    [filter] returns a new array and [sort] sorts the array it is called
    on, in place. To state that the view leaves the tree alone, arrays are
    placed in a store, addressed by their position in it. *)
Definition Store : Type := list (list Task).

Definition readArray (st : Store) (a : nat) : list Task := nth a st [].

Definition allocArray (st : Store) (content : list Task) : nat * Store :=
  (List.length st, st ++ [content]).

Fixpoint writeArray (st : Store) (a : nat) (content : list Task) : Store :=
  match st, a with
  | [], _ => []
  | _ :: rest, O => content :: rest
  | x :: rest, S a' => x :: writeArray rest a' content
  end.

(** [arr.filter(p)]. *)
Definition Array_filter_in (p : Task -> bool) (arr : nat) (st : Store) : nat * Store :=
  allocArray st (filter p (readArray st arr)).

(** [arr.sort(cmp)]. *)
Definition Array_sort_in (cmp : Task -> Task -> JSNum) (arr : nat) (st : Store)
    : nat * Store :=
  (arr, writeArray st arr (Array_sort cmp (readArray st arr))).

(** [tasks.filter(...).sort(...)] with [tasks] the array of the state. *)
Definition evalFilteredTasks (lc : string -> string -> Z) (now : Z)
    (filters : FilterState) (tasks : nat) (st : Store) : nat * Store :=
  let '(kept, st1) := Array_filter_in (keepTask now filters) tasks st in
  Array_sort_in (compareTasks lc (sortBy filters)) kept st1.

(** The view does not depend on when it is evaluated. *)
Definition viewIgnoresClock (lc : string -> string -> Z) (filters : FilterState)
    (tasks : list Task) : Prop :=
  forall now1 now2, filteredTasks lc now1 filters tasks = filteredTasks lc now2 filters tasks.

(** ** Sample data: a tree with reminders and a history *)

(** A call to the bank with a reminder and a subtask that has one too,
    followed by a task without reminder. *)
Definition bankTree : list Task :=
  [ withSubtasks (reminderTask "5" 1730570400123 false)
      [mkTask "6" "Find the contract" true "bg-blue-50" ["bank"; "urgent"]
              (Some (TimeValue 60000)) [] (Some "5")];
    mkTask "7" "Water plants" false "bg-card" [] None [] None ].

(** The scenario of the specification, with a task marked done in between:
    add "Buy milk", add "2% milk" under it, mark "2% milk" done, add a
    second top-level task, delete "Buy milk". *)
Definition milkOps : list Op :=
  [ OpAdd 1000 milkData None;
    OpAdd 2000 twoPercentData (Some "1000");
    OpUpdate "2000" markDone;
    OpAdd 3000 (mkTaskData "Call the bank" "bg-red-50" ["bank"] (Some (TimeValue 90000)) None) None;
    OpDelete "1000" ].

(** ** Auxiliary notions of the proofs *)

(** What the callback of the deletion leaves of a task. *)
Definition keepList (o : option Task) : list Task :=
  match o with Some t => [t] | None => [] end.

(** Every id of the tree was printed from a clock reading seen so far, and
    no id occurs twice. *)
Definition idsFrom (seen : list Z) (tasks : list Task) : Prop :=
  (forall y, (countId y tasks <= 1)%nat) /\
  (forall y, In y (allIds tasks) -> exists n, In n seen /\ y = Number_toString n).

(** The id that an addition at clock reading [now] gives its task is not
    yet the id of a task of the tree. *)
Definition addTaskIdFresh (now : Z) (data : TaskData) (parent : option string)
    (t : list Task) : Prop :=
  ~ In (id (newTask now data parent)) (allIds t).

(* ================================================================= *)
(** * The remaining functions of the components *)

(** ** Tags of the tree: [getAllTags] (todo-app.tsx, lines 113-123) *)

(** [Set.prototype.add]; a [Set] of strings is the list of its elements in
    insertion order, which is the order [Array.from] lists them in. *)
Definition Set_add (s : list string) (x : string) : list string :=
  if Array_includes s x then s else s ++ [x].

(** [extractTags], one task of the [forEach]: the tags of the task are
    added, then those of its subtasks. *)
Fixpoint extractTagsTask (task : Task) (allTags : list string) : list string :=
  fold_left (fun acc subtask => extractTagsTask subtask acc) (subtasks task)
            (fold_left Set_add (tags task) allTags).

Definition extractTags (tasks : list Task) (allTags : list string) : list string :=
  fold_left (fun acc task => extractTagsTask task acc) tasks allTags.

Definition getAllTags (tasks : list Task) : list string := extractTags tasks [].

(** The tags of all tasks in document order, with repetitions. *)
Definition tagOccurrences (tasks : list Task) : list string :=
  flat_map tags (flatten tasks).

(** ** Filters: [clearFilters], [hasActiveFilters], the tag buttons
    (todo-app.tsx, lines 184-194 and 346-358) *)

Definition clearFilters (filters : FilterState) : FilterState := defaultFilters.

Definition Status_eqb (a b : Status) : bool :=
  match a, b with
  | StatusAll, StatusAll | StatusCompleted, StatusCompleted
  | StatusPending, StatusPending | StatusOverdue, StatusOverdue => true
  | _, _ => false
  end.

Definition SortBy_eqb (a b : SortBy) : bool :=
  match a, b with
  | SortCreated, SortCreated | SortTitle, SortTitle | SortReminder, SortReminder => true
  | _, _ => false
  end.

(** [filters.search || filters.tag !== "all" || filters.status !== "all"
     || filters.sortBy !== "created"], used as a condition. *)
Definition hasActiveFilters (filters : FilterState) : bool :=
  truthyString (search filters)
  || negb (String.eqb (tag filters) "all")
  || negb (Status_eqb (status filters) StatusAll)
  || negb (SortBy_eqb (sortBy filters) SortCreated).

(** [{ ...prev, tag: value }], [{ ...prev, search: value }] and
    [{ ...prev, status: value }]. *)
Definition withTag (filters : FilterState) (value : string) : FilterState :=
  mkFilterState (search filters) value (status filters) (sortBy filters).

Definition withSearch (filters : FilterState) (value : string) : FilterState :=
  mkFilterState value (tag filters) (status filters) (sortBy filters).

Definition withStatus (filters : FilterState) (value : Status) : FilterState :=
  mkFilterState (search filters) (tag filters) value (sortBy filters).

(** The button of a tag (line 358):
    [{ ...prev, tag: prev.tag === tag ? "all" : tag }]. *)
Definition toggleTag (t : string) (prev : FilterState) : FilterState :=
  withTag prev (if String.eqb (tag prev) t then "all" else t).

(** ** The first version of the view (src/unnamed/part_000, lines 271-280):
    one text [filter] that is matched against tags and titles. *)
Definition keepTaskV1 (filter_ : string) (task : Task) : bool :=
  if negb (truthyString filter_) then true
  else
    Array_includes (tags task) filter_
    || includes (toLowerCase (title task)) (toLowerCase filter_)
    || existsb (fun subtask =>
                  Array_includes (tags subtask) filter_
                  || includes (toLowerCase (title subtask)) (toLowerCase filter_))
               (subtasks task).

Definition filteredTasksV1 (filter_ : string) (tasks : list Task) : list Task :=
  filter (keepTaskV1 filter_) tasks.

(** ** [String.prototype.trim] *)

(** White space is removed at both ends (the ASCII part of what [trim]
    removes, the same characters that [parseInt] skips). *)
Fixpoint trimEnd (s : string) : string :=
  match s with
  | EmptyString => EmptyString
  | String c s' =>
      match trimEnd s' with
      | EmptyString => if isWhiteSpace c then EmptyString else String c EmptyString
      | r => String c r
      end
  end.

Definition trim (s : string) : string := trimEnd (skipWhiteSpace s).

(** ** The dialogs (add-task-dialog.tsx; src/unnamed/part_000, lines 1-161) *)

(** The state of a dialog: the five [useState] cells. *)
Record TaskForm : Type := mkTaskForm {
  form_title : string;
  form_tags : list string;
  form_newTag : string;
  form_reminder : string;
  form_color : string
}.

(** The initial state, and the state after a submission of the add dialog. *)
Definition emptyForm : TaskForm := mkTaskForm "" [] "" "" "bg-card".

(** [addTag] (add-task-dialog.tsx, lines 48-53; the edit dialog has the
    same function). *)
Definition addTag (f : TaskForm) : TaskForm :=
  if truthyString (trim (form_newTag f))
     && negb (Array_includes (form_tags f) (trim (form_newTag f)))
  then mkTaskForm (form_title f) (form_tags f ++ [trim (form_newTag f)]) ""
                  (form_reminder f) (form_color f)
  else f.

(** [removeTag] (lines 55-57). *)
Definition removeTag (tagToRemove : string) (f : TaskForm) : TaskForm :=
  mkTaskForm (form_title f)
             (filter (fun t => negb (String.eqb t tagToRemove)) (form_tags f))
             (form_newTag f) (form_reminder f) (form_color f).

(** [reminder ? new Date(reminder) : undefined] on the text of the
    [datetime-local] input. *)
Definition reminderOfText (other : string -> Date) (text : string) : option Date :=
  if truthyString text then Some (Date_parse other text) else None.

(** [handleSubmit] of the add dialog (add-task-dialog.tsx, lines 28-46):
    the argument of [onAddTask], if it is called, and the state of the form
    afterwards. *)
Definition AddTaskDialog_handleSubmit (other : string -> Date) (f : TaskForm)
    : option TaskData * TaskForm :=
  if negb (truthyString (trim (form_title f))) then (None, f)
  else
    (Some (mkTaskData (trim (form_title f)) (form_color f) (form_tags f)
                      (reminderOfText other (form_reminder f)) None),
     emptyForm).

(** [handleSubmit] of the edit dialog (part_000, lines 43-55): the
    arguments of [onUpdate], if it is called. *)
Definition EditTaskDialog_handleSubmit (other : string -> Date) (task : Task)
    (f : TaskForm) : option (string * TaskUpdates) :=
  if negb (truthyString (trim (form_title f))) then None
  else
    Some (id task,
          mkTaskUpdates None (Some (trim (form_title f))) None (Some (form_color f))
                        (Some (form_tags f))
                        (Some (reminderOfText other (form_reminder f))) None None).

(** [String.prototype.slice(0, n)]. *)
Definition sliceFrom0 (n : nat) (s : string) : string := String.substring 0 n s.

Section EditReminder.

(** [Date.prototype.getTimezoneOffset], in minutes, of a time value; it
    depends on the time zone of the runtime. *)
Variable getTimezoneOffset : Z -> Z.

(** The text that the effect of the edit dialog puts in the
    [datetime-local] input (part_000, lines 33-36):
    [new Date(date.getTime() - date.getTimezoneOffset() * 60000)
       .toISOString().slice(0, 16)].
    [None]: [toISOString] throws a [RangeError], on the Invalid Date. *)
Definition reminderInputText (reminder_ : Date) : option string :=
  match reminder_ with
  | InvalidDate => None
  | TimeValue t =>
      match TimeClip (t - getTimezoneOffset t * 60000) with
      | TimeValue local => Some (sliceFrom0 16 (toISOString local))
      | InvalidDate => None
      end
  end.

(** The effect of the edit dialog when it opens (part_000, lines 28-41):
    title, tags, color and the text of the reminder are set from the task;
    the text of the tag being typed is left as it was. [None]: the effect
    throws. *)
Definition EditTaskDialog_open (task : Task) (prev : TaskForm) : option TaskForm :=
  match reminder task with
  | Some d =>
      match reminderInputText d with
      | Some text =>
          Some (mkTaskForm (title task) (tags task) (form_newTag prev) text (color task))
      | None => None
      end
  | None => Some (mkTaskForm (title task) (tags task) (form_newTag prev) "" (color task))
  end.

End EditReminder.

(** ** The item of a task (task-item.tsx) *)

(** An entry of [taskColors] (lines 22-29). *)
Record TaskColor : Type := mkTaskColor {
  color_name : string;
  color_value : string;
  color_border : string
}.

Definition taskColors : list TaskColor :=
  [ mkTaskColor "Default" "bg-card" "border-border";
    mkTaskColor "Blue" "bg-blue-50" "border-blue-200";
    mkTaskColor "Green" "bg-green-50" "border-green-200";
    mkTaskColor "Yellow" "bg-yellow-50" "border-yellow-200";
    mkTaskColor "Red" "bg-red-50" "border-red-200";
    mkTaskColor "Purple" "bg-purple-50" "border-purple-200" ].

(** The values of [taskColors] in the two dialogs (add-task-dialog.tsx,
    lines 59-66; part_000, lines 68-75). *)
Definition dialogColors : list string :=
  ["bg-card"; "bg-blue-50"; "bg-green-50"; "bg-yellow-50"; "bg-red-50"; "bg-purple-50"].

(** [taskColors.find((c) => c.value === task.color) || taskColors[0]]
    (line 46). *)
Definition currentColor (task : Task) : TaskColor :=
  match find (fun c => String.eqb (color_value c) (color task)) taskColors with
  | Some c => c
  | None => nth 0 taskColors (mkTaskColor "" "" "")
  end.

(** [handleToggleComplete] (lines 36-38) and [handleColorChange]
    (lines 40-42): the arguments of [onUpdate]. *)
Definition handleToggleComplete (task : Task) : string * TaskUpdates :=
  (id task,
   mkTaskUpdates None None (Some (negb (completed task))) None None None None None).

Definition handleColorChange (task : Task) (c : string) : string * TaskUpdates :=
  (id task, mkTaskUpdates None None None (Some c) None None None None).

(** ** What a user can do

    The events of the components and the operation on the tree that each
    one triggers, if any. The [task] of an event is the task of the item
    that is clicked. *)
Inductive UiEvent : Type :=
| SubmitNewTask (now : Z) (form : TaskForm)
| SubmitNewSubtask (now : Z) (task : Task) (form : TaskForm)
| SubmitEdit (task : Task) (form : TaskForm)
| ToggleComplete (task : Task)
| PickColor (task : Task) (c : string)
| ClickDelete (task : Task).

Definition opOfEvent (other : string -> Date) (e : UiEvent) : option Op :=
  match e with
  | SubmitNewTask now form =>
      match fst (AddTaskDialog_handleSubmit other form) with
      | Some data => Some (OpAdd now data None)
      | None => None
      end
  | SubmitNewSubtask now task form =>
      match fst (AddTaskDialog_handleSubmit other form) with
      | Some data => Some (OpAdd now data (Some (id task)))
      | None => None
      end
  | SubmitEdit task form =>
      match EditTaskDialog_handleSubmit other task form with
      | Some (taskId, updates) => Some (OpUpdate taskId updates)
      | None => None
      end
  | ToggleComplete task =>
      Some (OpUpdate (fst (handleToggleComplete task)) (snd (handleToggleComplete task)))
  | PickColor task c =>
      Some (OpUpdate (fst (handleColorChange task c)) (snd (handleColorChange task c)))
  | ClickDelete task => Some (OpDelete (id task))
  end.

(** The operations of a sequence of events. *)
Definition opsOfEvents (other : string -> Date) (events : list UiEvent) : list Op :=
  flat_map (fun e => match opOfEvent other e with Some op => [op] | None => [] end) events.

(** The tree after a sequence of events, from the empty tree. *)
Definition runEvents (other : string -> Date) (events : list UiEvent) : list Task :=
  runOps (opsOfEvents other events).

(** ** Reminders that survive a save *)

(** The reminder is within the range of time values, as the reminder of
    every [Date] object is, or it is the Invalid Date. *)
Definition clippedReminder (t : Task) : Prop :=
  match reminder t with
  | Some (TimeValue ms) => - maxTime <= ms <= maxTime
  | _ => True
  end.

(** The task without the reminders that are Invalid Dates. *)
Fixpoint dropInvalidReminders (t : Task) : Task :=
  mkTask (id t) (title t) (completed t) (color t) (tags t)
         (match reminder t with Some InvalidDate => None | r => r end)
         (map dropInvalidReminders (subtasks t)) (parentId t).

(** An operation whose reminder, if it has one, is a proper date. *)
Definition storableDate (r : option Date) : Prop :=
  match r with
  | None => True
  | Some (TimeValue ms) => - maxTime <= ms <= maxTime
  | Some InvalidDate => False
  end.

Definition storableOp (op : Op) : Prop :=
  match op with
  | OpAdd _ data _ => storableDate (d_reminder data)
  | OpUpdate _ u => match u_reminder u with Some r => storableDate r | None => True end
  | OpDelete _ => True
  end.

(** The elements of a list in the order of their first occurrence, each
    one once. *)
Fixpoint firstOccurrences (l : list string) : list string :=
  match l with
  | [] => []
  | x :: rest => x :: filter (fun y => negb (String.eqb y x)) (firstOccurrences rest)
  end.

(** The filters with only the tag criterion set. *)
Definition tagFilters (t : string) (by_ : SortBy) : FilterState :=
  mkFilterState "" t StatusAll by_.

(** The filters with only the search criterion set. *)
Definition searchFilters (text : string) (by_ : SortBy) : FilterState :=
  mkFilterState text "all" StatusAll by_.

(** A text that is not empty and has no white space at its ends. *)
Definition trimmedNonEmpty (s : string) : Prop := s <> "" /\ trim s = s.

(** The first character, if there is one, is not white space. *)
Definition startsClean (s : string) : Prop :=
  match s with
  | String c _ => isWhiteSpace c = false
  | EmptyString => True
  end.

(** An operation under which a property of tasks that does not depend on
    their subtasks is kept: the new task of an addition has it, and an
    update does not name [subtasks] and gives it to the task it changes. *)
Definition opKeeps (P : Task -> Prop) (op : Op) : Prop :=
  match op with
  | OpAdd now data parent => P (newTask now data parent)
  | OpUpdate _ p => u_subtasks p = None /\ forall t, P t -> P (merge t p)
  | OpDelete _ => True
  end.

(** An update that names neither [id], [parentId] nor [subtasks]. *)
Definition keepsParents (op : Op) : Prop :=
  match op with
  | OpUpdate _ u => u_id u = None /\ u_parentId u = None /\ u_subtasks u = None
  | _ => True
  end.

(** The [parentId] of every subtask is the id of the task that holds it. *)
Definition subtasksNameParent (ts : list Task) : Prop :=
  Forall (fun t => Forall (fun s => parentId s = Some (id t)) (subtasks t)) ts.

(** The title of a task is not blank and carries no white space around it. *)
Definition properTitle (t : Task) : Prop := trimmedNonEmpty (title t).

(** ** Documents that the load effect accepts *)

Definition isNull (j : Json) : bool :=
  match j with JNull => true | _ => false end.

(** The [subtasks] member of a stored task is absent, [null], or an array
    without [null] elements. *)
Definition loadableSubtasks (s : option Json) : bool :=
  match s with
  | None | Some JNull => true
  | Some (JArr items) => forallb (fun x => negb (isNull x)) items
  | Some _ => false
  end.

(** An element of the stored array that is not [null] and, when it is an
    object, has a [subtasks] member as above. *)
Definition loadableTask (j : Json) : bool :=
  match j with
  | JNull => false
  | JObj props => loadableSubtasks (lookupProp "subtasks" props)
  | _ => true
  end.

Definition loadableDocument (d : Json) : bool :=
  match d with
  | JArr items => forallb loadableTask items
  | _ => false
  end.

(** ** Colors of the palette *)

(** The color of a task is one of the palette. *)
Definition inPalette (t : Task) : Prop := In (color t) dialogColors.

(** An event whose color, if it has one, is one that the buttons of the
    dialogs and of the color picker offer. *)
Definition paletteEvent (e : UiEvent) : Prop :=
  match e with
  | SubmitNewTask _ form | SubmitNewSubtask _ _ form | SubmitEdit _ form =>
      In (form_color form) dialogColors
  | PickColor _ c => In c dialogColors
  | ToggleComplete _ | ClickDelete _ => True
  end.

(* ================================================================= *)
(** * Proofs *)

(** Induction over the nested tree: the predicate holds for a task as soon
    as it holds for all of its direct subtasks. *)
Lemma Task_tree_ind (P : Task -> Prop) :
  (forall i ti c co ta r subs p,
      Forall P subs -> P (mkTask i ti c co ta r subs p)) ->
  forall t, P t.
Proof.
  intros step.
  fix IH 1.
  intros [i ti c co ta r subs p].
  apply step.
  induction subs as [|s subs' IHsubs]; constructor.
  - apply IH.
  - exact IHsubs.
Qed.


Lemma withSubtasks_same (t : Task) : withSubtasks t (subtasks t) = t.
Proof. destruct t; reflexivity. Qed.

Lemma plug_not_nil (c : Ctx) (t : Task) : plug c t <> [].
Proof. destruct c; simpl; intros H; symmetry in H; eapply app_cons_not_nil; exact H. Qed.

Lemma flatten_app (l1 l2 : list Task) : flatten (l1 ++ l2) = flatten l1 ++ flatten l2.
Proof. unfold flatten. apply flat_map_app. Qed.

Lemma flatten_cons (t : Task) (l : list Task) :
  flatten (t :: l) = t :: flatten (subtasks t) ++ flatten l.
Proof. unfold flatten. simpl. destruct t; reflexivity. Qed.

Lemma allIds_app (l1 l2 : list Task) : allIds (l1 ++ l2) = allIds l1 ++ allIds l2.
Proof. unfold allIds. rewrite flatten_app. apply map_app. Qed.

Lemma allIds_cons (t : Task) (l : list Task) :
  allIds (t :: l) = id t :: allIds (subtasks t) ++ allIds l.
Proof. unfold allIds. rewrite flatten_cons. simpl. now rewrite map_app. Qed.

Lemma allIds_single (t : Task) :
  allIds [t] = id t :: allIds (subtasks t).
Proof. rewrite allIds_cons. unfold allIds at 2. simpl. now rewrite app_nil_r. Qed.

Lemma updateTaskNode_unfold (x : string) (p : TaskUpdates) (t : Task) :
  updateTaskNode x p t =
  if String.eqb (id t) x then merge t p
  else match subtasks t with
       | [] => t
       | _ :: _ => withSubtasks t (updateTaskRecursive x p (subtasks t))
       end.
Proof. destruct t; reflexivity. Qed.

(** ** [updateTask] *)

Lemma updateTaskNode_absent (x : string) (p : TaskUpdates) :
  forall t, ~ In x (allIds [t]) -> updateTaskNode x p t = t.
Proof.
  induction t as [i ti c co ta r subs pa IH] using Task_tree_ind.
  intros Hnot. rewrite allIds_single in Hnot. cbn [id subtasks] in Hnot.
  rewrite updateTaskNode_unfold. cbn [id subtasks].
  destruct (String.eqb_spec i x) as [->|Hne].
  - exfalso. apply Hnot. now left.
  - destruct subs as [|s subs']; [reflexivity|].
    unfold withSubtasks. cbn [id title completed color tags reminder parentId].
    f_equal.
    assert (Hsub : ~ In x (allIds (s :: subs'))) by (intros H; apply Hnot; now right).
    clear Hnot. revert Hsub IH. generalize (s :: subs') as l. clear.
    induction l as [|a l IHl]; intros Hsub IH; [reflexivity|].
    inversion IH as [|? ? Ha Hl]; subst.
    rewrite allIds_cons in Hsub.
    unfold updateTaskRecursive in *. simpl. f_equal.
    + apply Ha. rewrite allIds_single. intros [H|H]; apply Hsub; [now left|].
      right. apply in_or_app. now left.
    + apply IHl; [|exact Hl]. intros H. apply Hsub. right. apply in_or_app. now right.
Qed.

Lemma updateTaskRecursive_absent (x : string) (p : TaskUpdates) (ts : list Task) :
  ~ In x (allIds ts) -> updateTaskRecursive x p ts = ts.
Proof.
  induction ts as [|a l IHl]; intros Hnot; [reflexivity|].
  rewrite allIds_cons in Hnot. unfold updateTaskRecursive in *. simpl. f_equal.
  - apply updateTaskNode_absent. rewrite allIds_single.
    intros [H|H]; apply Hnot; [now left|]. right. apply in_or_app. now left.
  - apply IHl. intros H. apply Hnot. right. apply in_or_app. now right.
Qed.

Lemma allIds_plug (c : Ctx) (t : Task) : In (id t) (allIds (plug c t)).
Proof.
  induction c as [b a|b parent inner IH a]; simpl.
  - rewrite allIds_app, allIds_cons. apply in_or_app. right. now left.
  - rewrite allIds_app, allIds_cons. apply in_or_app. right. right.
    apply in_or_app. left. exact IH.
Qed.

Lemma NoDup_app_l {A : Type} (l1 l2 : list A) : NoDup (l1 ++ l2) -> NoDup l1.
Proof.
  induction l1 as [|a l1 IH]; intros H; [constructor|].
  inversion H as [|? ? Hin Hnd]; subst. constructor.
  - intros Ha. apply Hin. apply in_or_app. now left.
  - now apply IH.
Qed.

Lemma NoDup_app_disjoint {A : Type} (l1 l2 : list A) (x : A) :
  NoDup (l1 ++ l2) -> In x l1 -> In x l2 -> False.
Proof.
  induction l1 as [|a l1 IH]; intros H H1 H2; [contradiction|].
  inversion H as [|? ? Hin Hnd]; subst.
  destruct H1 as [->|H1].
  - apply Hin. apply in_or_app. now right.
  - now apply IH.
Qed.

Lemma countId_app (x : string) (l1 l2 : list Task) :
  countId x (l1 ++ l2) = (countId x l1 + countId x l2)%nat.
Proof. unfold countId. rewrite allIds_app. apply count_occ_app. Qed.

Lemma countId_cons (x : string) (t : Task) (l : list Task) :
  countId x (t :: l) =
  ((if String.eqb (id t) x then 1 else 0) + countId x (subtasks t) + countId x l)%nat.
Proof.
  unfold countId. rewrite allIds_cons. cbn [count_occ].
  rewrite count_occ_app.
  destruct (string_dec (id t) x) as [e|n]; destruct (String.eqb_spec (id t) x); try contradiction; lia.
Qed.

Lemma countId_zero (x : string) (l : list Task) :
  countId x l = 0%nat <-> ~ In x (allIds l).
Proof. unfold countId. symmetry. apply count_occ_not_In. Qed.

Lemma countId_plug (c : Ctx) (t : Task) : (1 <= countId (id t) (plug c t))%nat.
Proof.
  assert (H := allIds_plug c t).
  apply (count_occ_In string_dec) in H. unfold countId. lia.
Qed.

Lemma updateTask_plug (x : string) (p : TaskUpdates) (task : Task) :
  id task = x ->
  forall c, countId x (plug c task) = 1%nat ->
  updateTask x p (plug c task) = plug c (merge task p).
Proof.
  intros Hid. unfold updateTask.
  induction c as [b a|b parent inner IH a]; intros Hcnt; cbn [plug] in *.
  - unfold updateTaskRecursive. rewrite map_app. cbn [map].
    rewrite countId_app, countId_cons, Hid, String.eqb_refl in Hcnt.
    fold (updateTaskRecursive x p b). fold (updateTaskRecursive x p a).
    rewrite (updateTaskRecursive_absent x p b), (updateTaskRecursive_absent x p a)
      by (apply countId_zero; lia).
    rewrite updateTaskNode_unfold, Hid, String.eqb_refl. reflexivity.
  - unfold updateTaskRecursive. rewrite map_app. cbn [map].
    rewrite countId_app, countId_cons in Hcnt. cbn [id subtasks withSubtasks] in Hcnt.
    fold (updateTaskRecursive x p b). fold (updateTaskRecursive x p a).
    assert (Hx := countId_plug inner task). rewrite Hid in Hx.
    rewrite (updateTaskRecursive_absent x p b), (updateTaskRecursive_absent x p a)
      by (apply countId_zero; lia).
    rewrite updateTaskNode_unfold. cbn [id subtasks withSubtasks].
    destruct (String.eqb_spec (id parent) x) as [Heq|Hne]; [lia|].
    destruct (plug inner task) eqn:Hplug; [now apply plug_not_nil in Hplug|].
    rewrite <- Hplug in *. unfold withSubtasks at 1.
    cbn [id title completed color tags reminder parentId].
    unfold updateTaskRecursive in IH |- *. rewrite IH by lia. reflexivity.
Qed.

(** Every task of a forest sits in the hole of some context. *)
Lemma find_context (x : string) :
  forall ts, In x (allIds ts) -> exists c task, ts = plug c task /\ id task = x.
Proof.
  assert (Hnode : forall t, In x (allIds (subtasks t)) ->
                    exists c task, subtasks t = plug c task /\ id task = x).
  { induction t as [i ti co cl ta r subs pa IH] using Task_tree_ind.
    cbn [subtasks]. induction subs as [|s subs' IHs]; intros Hin; [contradiction|].
    inversion IH as [|? ? Hs Hsubs]; subst.
    rewrite allIds_cons in Hin. destruct Hin as [Hin|Hin].
    - exists (Here [] subs'), s. split; [reflexivity|exact Hin].
    - apply in_app_or in Hin. destruct Hin as [Hin|Hin].
      + destruct (Hs Hin) as (c & task & Hc & Hid).
        exists (Inside [] s c subs'), task. split; [|exact Hid].
        simpl. rewrite <- Hc. now rewrite withSubtasks_same.
      + destruct (IHs Hsubs Hin) as (c & task & Hc & Hid).
        destruct c as [b a|b parent inner a].
        * exists (Here (s :: b) a), task. split; [|exact Hid]. simpl in *. now rewrite Hc.
        * exists (Inside (s :: b) parent inner a), task. split; [|exact Hid].
          simpl in *. now rewrite Hc. }
  intros ts Hin.
  destruct (Hnode (mkTask "" "" false "" [] None ts None) Hin) as (c & task & Hc & Hid).
  exists c, task. split; [exact Hc|exact Hid].
Qed.

Lemma merge_mergedFrom (task : Task) (p : TaskUpdates) : mergedFrom task p (merge task p).
Proof. unfold mergedFrom, merge, pick. cbn. repeat split. Qed.


(** ** [deleteTask] *)

Lemma deleteTaskNode_unfold (x : string) (t : Task) :
  deleteTaskNode x t =
  if String.eqb (id t) x then None
  else match subtasks t with
       | [] => Some t
       | _ :: _ => Some (withSubtasks t (deleteTaskRecursive x (subtasks t)))
       end.
Proof. destruct t; reflexivity. Qed.

Lemma deleteTaskRecursive_cons (x : string) (t : Task) (l : list Task) :
  deleteTaskRecursive x (t :: l) =
  keepList (deleteTaskNode x t) ++ deleteTaskRecursive x l.
Proof. reflexivity. Qed.

Lemma deleteTaskRecursive_app (x : string) (l1 l2 : list Task) :
  deleteTaskRecursive x (l1 ++ l2) = deleteTaskRecursive x l1 ++ deleteTaskRecursive x l2.
Proof. unfold deleteTaskRecursive. apply flat_map_app. Qed.

Lemma deleteTaskNode_absent (x : string) :
  forall t, ~ In x (allIds [t]) -> deleteTaskNode x t = Some t.
Proof.
  induction t as [i ti c co ta r subs pa IH] using Task_tree_ind.
  intros Hnot. rewrite allIds_single in Hnot. cbn [id subtasks] in Hnot.
  rewrite deleteTaskNode_unfold. cbn [id subtasks].
  destruct (String.eqb_spec i x) as [->|Hne].
  - exfalso. apply Hnot. now left.
  - destruct subs as [|s subs']; [reflexivity|].
    unfold withSubtasks. cbn [id title completed color tags reminder parentId].
    do 2 f_equal.
    assert (Hsub : ~ In x (allIds (s :: subs'))) by (intros H; apply Hnot; now right).
    clear Hnot. revert Hsub IH. generalize (s :: subs') as l. clear.
    induction l as [|a l IHl]; intros Hsub IH; [reflexivity|].
    inversion IH as [|? ? Ha Hl]; subst.
    rewrite allIds_cons in Hsub.
    rewrite deleteTaskRecursive_cons, Ha, IHl; [reflexivity| |exact Hl|].
    + intros H. apply Hsub. right. apply in_or_app. now right.
    + rewrite allIds_single. intros [H|H]; apply Hsub; [now left|].
      right. apply in_or_app. now left.
Qed.

Lemma deleteTaskRecursive_absent (x : string) (ts : list Task) :
  ~ In x (allIds ts) -> deleteTaskRecursive x ts = ts.
Proof.
  induction ts as [|a l IHl]; intros Hnot; [reflexivity|].
  rewrite allIds_cons in Hnot.
  rewrite deleteTaskRecursive_cons, deleteTaskNode_absent, IHl; [reflexivity| |].
  - intros H. apply Hnot. right. apply in_or_app. now right.
  - rewrite allIds_single. intros [H|H]; apply Hnot; [now left|].
    right. apply in_or_app. now left.
Qed.

Lemma deleteTask_plug (x : string) (task : Task) :
  id task = x ->
  forall c, countId x (plug c task) = 1%nat ->
  deleteTask x (plug c task) = unplug c.
Proof.
  intros Hid. unfold deleteTask.
  induction c as [b a|b parent inner IH a]; intros Hcnt; cbn [plug unplug] in *.
  - rewrite countId_app, countId_cons, Hid, String.eqb_refl in Hcnt.
    rewrite deleteTaskRecursive_app, deleteTaskRecursive_cons.
    rewrite (deleteTaskRecursive_absent x b), (deleteTaskRecursive_absent x a)
      by (apply countId_zero; lia).
    rewrite deleteTaskNode_unfold, Hid, String.eqb_refl. reflexivity.
  - rewrite countId_app, countId_cons in Hcnt. cbn [id subtasks withSubtasks] in Hcnt.
    assert (Hx := countId_plug inner task). rewrite Hid in Hx.
    rewrite deleteTaskRecursive_app, deleteTaskRecursive_cons.
    rewrite (deleteTaskRecursive_absent x b), (deleteTaskRecursive_absent x a)
      by (apply countId_zero; lia).
    rewrite deleteTaskNode_unfold. cbn [id subtasks withSubtasks].
    destruct (String.eqb_spec (id parent) x) as [Heq|Hne]; [lia|].
    destruct (plug inner task) eqn:Hplug; [now apply plug_not_nil in Hplug|].
    rewrite <- Hplug in *. unfold withSubtasks at 1.
    cbn [id title completed color tags reminder parentId].
    rewrite IH by lia. reflexivity.
Qed.

(** What a context holds and what its hole holds make up the forest. *)
Lemma countId_plug_split (y : string) (task : Task) :
  forall c, countId y (plug c task) = (countId y (unplug c) + countId y [task])%nat.
Proof.
  induction c as [b a|b parent inner IH a]; cbn [plug unplug].
  - rewrite !countId_app, !countId_cons.
    assert (H0 : countId y [] = 0%nat) by reflexivity. lia.
  - rewrite !countId_app, !countId_cons. cbn [id subtasks withSubtasks].
    rewrite IH, !countId_cons.
    assert (H0 : countId y [] = 0%nat) by reflexivity. lia.
Qed.

(** The scenario of the specification: after "Buy milk" and its subtask
    "2% milk" were added, deleting "Buy milk" leaves the empty tree. *)
Example milk_scenario :
  map title milkTree = ["Buy milk"] /\
  map title (flat_map subtasks milkTree) = ["2% milk"] /\
  deleteTask "1000" milkTree = [].
Proof. repeat split. Qed.





(** ** [Number.prototype.toString] and [parseInt] *)

Lemma digit_cases (d : Z) :
  0 <= d < 10 ->
  d = 0 \/ d = 1 \/ d = 2 \/ d = 3 \/ d = 4 \/ d = 5 \/ d = 6 \/ d = 7 \/ d = 8 \/ d = 9.
Proof. lia. Qed.

Ltac each_digit d H :=
  apply digit_cases in H;
  destruct H as [H|[H|[H|[H|[H|[H|[H|[H|[H|H]]]]]]]]]; subst d.

Lemma digitValue_digitChar (d : Z) : 0 <= d < 10 -> digitValue 10 (digitChar d) = Some d.
Proof. intros H. each_digit d H; reflexivity. Qed.

Lemma readDigits_digitsFuel (fuel : nat) :
  forall n, 0 <= n < 2 ^ Z.of_nat (S fuel) ->
  exists k, forall acc st,
    readDigits 10 (digitsFuel (S fuel) n acc) st =
    readDigits 10 acc (Some (pick st 0 * k + n)).
Proof.
  induction fuel as [|fuel IH]; intros n Hn.
  - exists 10. intros acc st. cbn [digitsFuel].
    assert (Hlt : n < 10) by (change (2 ^ Z.of_nat 1) with 2 in Hn; lia).
    apply Z.ltb_lt in Hlt. rewrite Hlt. cbn [readDigits].
    rewrite Z.mod_small by (apply Z.ltb_lt in Hlt; lia).
    rewrite digitValue_digitChar by (apply Z.ltb_lt in Hlt; lia).
    f_equal. f_equal. lia.
  - destruct (Z.ltb_spec n 10) as [Hlt|Hge].
    + exists 10. intros acc st.
      change (digitsFuel (S (S fuel)) n acc)
        with (let acc' := String (digitChar (n mod 10)) acc in
              if n <? 10 then acc' else digitsFuel (S fuel) (n / 10) acc').
      cbv zeta. apply Z.ltb_lt in Hlt. rewrite Hlt. cbn [readDigits].
      apply Z.ltb_lt in Hlt.
      rewrite Z.mod_small by lia. rewrite digitValue_digitChar by lia.
      f_equal. f_equal. lia.
    + assert (Hdiv : 0 <= n / 10 < 2 ^ Z.of_nat (S fuel)).
      { split; [apply Z.div_pos; lia|].
        apply Z.div_lt_upper_bound; [lia|].
        replace (Z.of_nat (S (S fuel))) with (Z.of_nat (S fuel) + 1) in Hn by lia.
        rewrite Z.pow_add_r in Hn by lia. change (2 ^ 1) with 2 in Hn.
        assert (0 < 2 ^ Z.of_nat (S fuel)) by (apply Z.pow_pos_nonneg; lia). lia. }
      destruct (IH (n / 10) Hdiv) as [k Hk].
      exists (10 * k). intros acc st.
      change (digitsFuel (S (S fuel)) n acc)
        with (let acc' := String (digitChar (n mod 10)) acc in
              if n <? 10 then acc' else digitsFuel (S fuel) (n / 10) acc').
      cbv zeta. apply Z.ltb_ge in Hge. rewrite Hge.
      rewrite Hk. cbn [readDigits].
      rewrite digitValue_digitChar by (apply Z.mod_pos_bound; lia).
      f_equal. f_equal. cbn [pick].
      assert (Hdm := Z.div_mod n 10). lia.
Qed.

Lemma log2_fuel (n : Z) : 0 <= n -> 0 <= n < 2 ^ Z.of_nat (S (Z.to_nat (Z.log2 n))).
Proof.
  intros Hn. split; [exact Hn|].
  rewrite Nat2Z.inj_succ, Z2Nat.id by apply Z.log2_nonneg.
  destruct (Z.eq_dec n 0) as [->|Hne]; [reflexivity|].
  apply Z.log2_spec. lia.
Qed.

(** The digits of a number always start with a digit, and what follows is
    the accumulator or starts with a digit as well. *)
Lemma digitsFuel_shape (fuel : nat) :
  forall n acc, 0 <= n ->
  exists d rest,
    0 <= d < 10 /\ digitsFuel (S fuel) n acc = String (digitChar d) rest /\
    (rest = acc \/ exists d' rest', 0 <= d' < 10 /\ rest = String (digitChar d') rest').
Proof.
  induction fuel as [|fuel IH]; intros n acc Hn.
  - cbn [digitsFuel]. exists (n mod 10), acc.
    split; [apply Z.mod_pos_bound; lia|]. split; [|now left].
    now destruct (n <? 10).
  - change (digitsFuel (S (S fuel)) n acc)
      with (let acc' := String (digitChar (n mod 10)) acc in
            if n <? 10 then acc' else digitsFuel (S fuel) (n / 10) acc').
    cbv zeta. destruct (n <? 10).
    + exists (n mod 10), acc.
      split; [apply Z.mod_pos_bound; lia|]. split; [reflexivity|now left].
    + destruct (IH (n / 10) (String (digitChar (n mod 10)) acc)) as (d & rest & Hd & Heq & Hrest).
      { apply Z.div_pos; lia. }
      exists d, rest. split; [exact Hd|]. split; [exact Heq|]. right.
      destruct Hrest as [->|Hrest]; [|exact Hrest].
      exists (n mod 10), acc. split; [apply Z.mod_pos_bound; lia|reflexivity].
Qed.

(** On a string that starts with a digit, and goes on with a digit if it
    goes on, [parseInt] reads plain decimal digits. *)
Lemma parseInt_digits (d : Z) (rest : string) :
  0 <= d < 10 ->
  (rest = "" \/ exists d' rest', 0 <= d' < 10 /\ rest = String (digitChar d') rest') ->
  parseInt (String (digitChar d) rest) =
  match readDigits 10 (String (digitChar d) rest) None with
  | Some v => Num (1 * v)
  | None => NaN
  end.
Proof.
  intros Hd Hrest.
  each_digit d Hd; try reflexivity.
  destruct Hrest as [->|(d' & rest' & Hd' & ->)]; [reflexivity|].
  each_digit d' Hd'; reflexivity.
Qed.

Lemma parseInt_minus_digits (d : Z) (rest : string) :
  0 <= d < 10 ->
  (rest = "" \/ exists d' rest', 0 <= d' < 10 /\ rest = String (digitChar d') rest') ->
  parseInt (String "-" (String (digitChar d) rest)) =
  match readDigits 10 (String (digitChar d) rest) None with
  | Some v => Num (-1 * v)
  | None => NaN
  end.
Proof.
  intros Hd Hrest.
  each_digit d Hd; try reflexivity.
  destruct Hrest as [->|(d' & rest' & Hd' & ->)]; [reflexivity|].
  each_digit d' Hd'; reflexivity.
Qed.

(** [parseInt] reads back what [toString] prints. *)
Lemma parseInt_toString (n : Z) : parseInt (Number_toString n) = Num n.
Proof.
  unfold Number_toString. destruct (Z.ltb_spec n 0) as [Hneg|Hpos].
  - set (fuel := Z.to_nat (Z.log2 (- n))).
    destruct (digitsFuel_shape fuel (- n) "") as (d & rest & Hd & Heq & Hrest); [lia|].
    destruct (readDigits_digitsFuel fuel (- n)) as [k Hk].
    { apply log2_fuel. lia. }
    specialize (Hk "" None). rewrite Heq in Hk |- *.
    rewrite parseInt_minus_digits, Hk by assumption.
    cbn [readDigits pick]. f_equal. lia.
  - set (fuel := Z.to_nat (Z.log2 n)).
    destruct (digitsFuel_shape fuel n "") as (d & rest & Hd & Heq & Hrest); [lia|].
    destruct (readDigits_digitsFuel fuel n) as [k Hk].
    { apply log2_fuel. lia. }
    specialize (Hk "" None). rewrite Heq in Hk |- *.
    rewrite parseInt_digits, Hk by assumption.
    cbn [readDigits pick]. f_equal. lia.
Qed.

Lemma Number_toString_inj (n m : Z) : Number_toString n = Number_toString m -> n = m.
Proof.
  intros H. apply (f_equal parseInt) in H. rewrite !parseInt_toString in H. congruence.
Qed.

Lemma Number_toString_not_empty (n : Z) : Number_toString n <> "".
Proof.
  intros H. apply (f_equal parseInt) in H. rewrite parseInt_toString in H. discriminate H.
Qed.

(** ** [addTask] *)

Lemma addTask_map_absent (p : string) (nt : Task) (l : list Task) :
  ~ In p (map id l) ->
  map (fun task => if String.eqb (id task) p
                   then withSubtasks task (subtasks task ++ [nt]) else task) l = l.
Proof.
  induction l as [|a l IH]; intros Hnot; [reflexivity|].
  cbn [map] in *. destruct (String.eqb_spec (id a) p) as [Heq|Hne].
  - exfalso. apply Hnot. now left.
  - f_equal. apply IH. intros H. apply Hnot. now right.
Qed.

Lemma truthyString_nonempty (p : string) : p <> "" -> truthyString p = true.
Proof.
  intros Hp. unfold truthyString. destruct (String.eqb_spec p ""); [contradiction|reflexivity].
Qed.

(** A second addition within the clock tick of the first gets the id of
    the first. *)
Lemma addTask_same_tick_counterexample :
  ~ addTaskIdFresh 1000 twoPercentData None (addTask 1000 milkData None []).
Proof. intros H. apply H. vm_compute. now left. Qed.

(** C4 (amended). [addTask] without a parent appends the new task (its id
    is the clock reading in decimal digits, it is not completed, has no
    subtasks and no parentId) at the end of the top-level sequence and keeps
    the tasks before it as they were; with a parent id (a non-empty string)
    that one top-level task bears, it appends the new task, whose parentId
    is that id, at the end of the subtasks of that task and keeps everything
    else; with a parent id (a non-empty string) that no top-level task
    bears, the tree is unchanged. The id is fresh when every id of the tree
    was printed from an earlier clock reading. *)
Theorem addTask_appends (now : Z) (data : TaskData) (t : list Task) :
  (addTask now data None t = t ++ [newTask now data None] /\
   id (newTask now data None) = Number_toString now /\
   completed (newTask now data None) = false /\
   subtasks (newTask now data None) = [] /\
   parentId (newTask now data None) = None) /\
  (forall p before parent after,
      p <> "" -> t = before ++ parent :: after -> id parent = p ->
      ~ In p (map id before) -> ~ In p (map id after) ->
      addTask now data (Some p) t =
        before ++ withSubtasks parent (subtasks parent ++ [newTask now data (Some p)]) :: after /\
      parentId (newTask now data (Some p)) = Some p /\
      completed (newTask now data (Some p)) = false /\
      subtasks (newTask now data (Some p)) = []) /\
  (forall p, p <> "" -> ~ In p (map id t) -> addTask now data (Some p) t = t) /\
  ((forall task, In task (flatten t) -> exists n, id task = Number_toString n /\ n < now) ->
   ~ In (Number_toString now) (allIds t)).
Proof.
  split; [|split; [|split]].
  - repeat split.
  - intros p before parent after Hp Ht Hid Hb Ha. split; [|repeat split].
    unfold addTask. rewrite (truthyString_nonempty p Hp). subst t.
    rewrite map_app. cbn [map]. rewrite Hid, String.eqb_refl.
    now rewrite !addTask_map_absent by assumption.
  - intros p Hp Hnot. unfold addTask. rewrite (truthyString_nonempty p Hp).
    now apply addTask_map_absent.
  - intros Hold Hin. unfold allIds in Hin. apply in_map_iff in Hin.
    destruct Hin as (task & Hid & Htask).
    destruct (Hold task Htask) as (n & Hn & Hlt).
    rewrite Hn in Hid. apply Number_toString_inj in Hid. lia.
Qed.

Lemma addTask_appends_witness :
  addTask 2000 twoPercentData (Some "1000") (addTask 1000 milkData None []) =
    [withSubtasks (newTask 1000 milkData None) [newTask 2000 twoPercentData (Some "1000")]] /\
  addTask 2000 twoPercentData (Some "7") (addTask 1000 milkData None []) =
    addTask 1000 milkData None [] /\
  ~ In (Number_toString 2000) (allIds (addTask 1000 milkData None [])).
Proof.
  pose proof (addTask_appends 2000 twoPercentData (addTask 1000 milkData None []))
    as (_ & Hsub & Hdrop & Hfresh).
  split; [|split].
  - destruct (Hsub "1000" [] (newTask 1000 milkData None) []) as [H _].
    + discriminate.
    + reflexivity.
    + reflexivity.
    + intros [].
    + intros [].
    + exact H.
  - apply Hdrop; [discriminate|]. vm_compute. intros [H|[]]. discriminate H.
  - apply Hfresh. intros task Hin. vm_compute in Hin.
    destruct Hin as [<-|[]]. exists 1000. split; [reflexivity|lia].
Defined.

(** ** Invariants of the reachable trees *)

Lemma uniqueIds_count (ts : list Task) :
  uniqueIds ts <-> forall y, (countId y ts <= 1)%nat.
Proof. unfold uniqueIds, countId. apply (NoDup_count_occ string_dec). Qed.

Lemma countId_nil (y : string) : countId y [] = 0%nat.
Proof. reflexivity. Qed.

Lemma countId_pos (y : string) (ts : list Task) :
  In y (allIds ts) <-> (1 <= countId y ts)%nat.
Proof. unfold countId. rewrite (count_occ_In string_dec). lia. Qed.

Lemma countId_top (y : string) (l : list Task) :
  In y (map id l) -> (1 <= countId y l)%nat.
Proof.
  induction l as [|a l IH]; intros Hin; [contradiction|].
  rewrite countId_cons. destruct Hin as [<-|Hin].
  - rewrite String.eqb_refl. lia.
  - specialize (IH Hin). lia.
Qed.

(** Counting ids after an addition under the parent [p]. *)
Lemma countId_addTask_map (p : string) (nt : Task) (y : string) :
  subtasks nt = [] ->
  forall l, (countId p l <= 1)%nat ->
  (countId y (map (fun task => if String.eqb (id task) p
                               then withSubtasks task (subtasks task ++ [nt])
                               else task) l)
   <= countId y l + (if String.eqb (id nt) y then 1 else 0))%nat /\
  (countId y l <=
   countId y (map (fun task => if String.eqb (id task) p
                               then withSubtasks task (subtasks task ++ [nt])
                               else task) l))%nat.
Proof.
  intros Hnt. induction l as [|a l IH]; intros Hp.
  - cbn [map]. rewrite countId_nil. lia.
  - cbn [map]. rewrite countId_cons in Hp.
    destruct (String.eqb_spec (id a) p) as [Heq|Hne].
    + rewrite addTask_map_absent.
      * rewrite !countId_cons. cbn [id subtasks withSubtasks].
        rewrite countId_app, countId_cons, Hnt, !countId_nil. lia.
      * intros Hin. apply countId_top in Hin. lia.
    + rewrite !countId_cons. assert (Hl : (countId p l <= 1)%nat) by lia.
      specialize (IH Hl). lia.
Qed.

Lemma countId_addTask (now : Z) (data : TaskData) (parent : option string)
    (t : list Task) (y : string) :
  (forall z, countId z t <= 1)%nat ->
  (countId y (addTask now data parent t)
   <= countId y t + (if String.eqb (Number_toString now) y then 1 else 0))%nat /\
  (countId y t <= countId y (addTask now data parent t))%nat.
Proof.
  intros Hu.
  assert (Happ : forall par,
    (countId y (t ++ [newTask now data par])
     <= countId y t + (if String.eqb (Number_toString now) y then 1 else 0))%nat /\
    (countId y t <= countId y (t ++ [newTask now data par]))%nat).
  { intros par. rewrite countId_app, countId_cons. cbn [id subtasks newTask].
    rewrite !countId_nil. lia. }
  unfold addTask. destruct parent as [p|]; [|apply Happ].
  destruct (truthyString p); [|apply Happ].
  apply (countId_addTask_map p (newTask now data (Some p)) y); [reflexivity|apply Hu].
Qed.

Lemma allIds_updateTask (x : string) (p : TaskUpdates) :
  u_id p = None -> u_subtasks p = None ->
  forall ts, allIds (updateTaskRecursive x p ts) = allIds ts.
Proof.
  intros Hi Hs.
  assert (Hnode : forall t, allIds [updateTaskNode x p t] = allIds [t]).
  { induction t as [i ti c co ta r subs pa IH] using Task_tree_ind.
    rewrite updateTaskNode_unfold. cbn [id subtasks].
    destruct (String.eqb i x).
    - rewrite !allIds_single. unfold merge. rewrite Hi, Hs. reflexivity.
    - destruct subs as [|s subs']; [reflexivity|].
      rewrite !allIds_single. cbn [id subtasks withSubtasks]. f_equal.
      revert IH. generalize (s :: subs') as l. clear.
      induction l as [|a l IHl]; intros IH; [reflexivity|].
      inversion IH as [|? ? Ha Hl]; subst.
      unfold updateTaskRecursive in *. cbn [map].
      rewrite allIds_cons, (allIds_cons a), IHl by exact Hl.
      rewrite !allIds_single in Ha. injection Ha as Hid Hsub.
      now rewrite Hid, Hsub. }
  induction ts as [|a l IHl]; [reflexivity|].
  unfold updateTaskRecursive in *. cbn [map].
  rewrite allIds_cons, (allIds_cons a), IHl.
  specialize (Hnode a). rewrite !allIds_single in Hnode. injection Hnode as Hid Hsub.
  now rewrite Hid, Hsub.
Qed.

Lemma countId_deleteTask (x y : string) :
  forall ts, (countId y (deleteTaskRecursive x ts) <= countId y ts)%nat.
Proof.
  assert (Hnode : forall t, (countId y (keepList (deleteTaskNode x t)) <= countId y [t])%nat).
  { induction t as [i ti c co ta r subs pa IH] using Task_tree_ind.
    rewrite deleteTaskNode_unfold. cbn [id subtasks].
    destruct (String.eqb i x); [cbn [keepList]; rewrite countId_nil; lia|].
    destruct subs as [|s subs']; [cbn [keepList]; lia|].
    cbn [keepList]. rewrite !countId_cons. cbn [id subtasks withSubtasks].
    rewrite !countId_nil.
    assert (Hsub : (countId y (deleteTaskRecursive x (s :: subs')) <= countId y (s :: subs'))%nat).
    { revert IH. generalize (s :: subs') as l. clear.
      induction l as [|a l IHl]; intros IH; [cbn; lia|].
      inversion IH as [|? ? Ha Hl]; subst.
      rewrite deleteTaskRecursive_cons, countId_app, countId_cons.
      specialize (IHl Hl). rewrite countId_cons, countId_nil in Ha. lia. }
    lia. }
  induction ts as [|a l IHl]; [cbn; lia|].
  rewrite deleteTaskRecursive_cons, countId_app, countId_cons.
  specialize (Hnode a). rewrite countId_cons, countId_nil in Hnode. lia.
Qed.

(** *** Nesting *)

Lemma singleLevel_addTask (now : Z) (data : TaskData) (parent : option string)
    (t : list Task) :
  singleLevel t -> singleLevel (addTask now data parent t).
Proof.
  intros Ht.
  assert (Happ : forall par, singleLevel (t ++ [newTask now data par])).
  { intros par. unfold singleLevel. apply Forall_app. split; [exact Ht|].
    constructor; [|constructor]. constructor. }
  unfold addTask. destruct parent as [p|]; [|apply Happ].
  destruct (truthyString p); [|apply Happ].
  clear Happ. unfold singleLevel in *.
  induction Ht as [|a l Ha Hl IH]; cbn [map]; constructor.
  - destruct (String.eqb (id a) p); [|exact Ha]. cbn [subtasks withSubtasks].
    apply Forall_app. split; [exact Ha|]. constructor; [reflexivity|constructor].
  - exact IH.
Qed.

Lemma leaf_updateTaskNode (x : string) (p : TaskUpdates) (s : Task) :
  u_subtasks p = None -> subtasks s = [] -> subtasks (updateTaskNode x p s) = [].
Proof.
  intros Hs Hleaf. rewrite updateTaskNode_unfold.
  destruct (String.eqb (id s) x).
  - unfold merge. cbn [subtasks]. now rewrite Hs.
  - now rewrite Hleaf.
Qed.

Lemma singleLevel_updateTask (x : string) (p : TaskUpdates) (t : list Task) :
  u_subtasks p = None -> singleLevel t -> singleLevel (updateTask x p t).
Proof.
  intros Hs Ht. unfold updateTask, updateTaskRecursive, singleLevel in *.
  induction Ht as [|a l Ha Hl IH]; cbn [map]; constructor; [|exact IH].
  rewrite updateTaskNode_unfold. destruct (String.eqb (id a) x).
  - unfold merge. cbn [subtasks]. now rewrite Hs.
  - destruct (subtasks a) as [|s subs'] eqn:Hsub; [now rewrite Hsub|].
    cbn [subtasks withSubtasks]. unfold updateTaskRecursive.
    apply Forall_map. eapply Forall_impl; [|exact Ha].
    intros s0 Hs0. now apply leaf_updateTaskNode.
Qed.

Lemma leaves_deleteTask (x : string) (l : list Task) :
  Forall (fun s => subtasks s = []) l ->
  Forall (fun s => subtasks s = []) (deleteTaskRecursive x l).
Proof.
  intros Hl. induction Hl as [|s l Hs Hl IH]; [constructor|].
  rewrite deleteTaskRecursive_cons. apply Forall_app. split; [|exact IH].
  rewrite deleteTaskNode_unfold, Hs. destruct (String.eqb (id s) x); cbn [keepList].
  - constructor.
  - constructor; [exact Hs|constructor].
Qed.

Lemma singleLevel_deleteTask (x : string) (t : list Task) :
  singleLevel t -> singleLevel (deleteTask x t).
Proof.
  intros Ht. unfold deleteTask, singleLevel in *.
  induction Ht as [|a l Ha Hl IH]; [constructor|].
  rewrite deleteTaskRecursive_cons. apply Forall_app. split; [|exact IH].
  rewrite deleteTaskNode_unfold. destruct (String.eqb (id a) x); cbn [keepList]; [constructor|].
  destruct (subtasks a) as [|s subs'] eqn:Hsub.
  - constructor; [now rewrite Hsub|constructor].
  - constructor; [|constructor]. cbn [subtasks withSubtasks].
    now apply leaves_deleteTask.
Qed.

Lemma singleLevel_fold (ops : list Op) :
  Forall keepsNesting ops ->
  forall tasks, singleLevel tasks -> singleLevel (fold_left applyOp ops tasks).
Proof.
  intros Hops. induction Hops as [|op ops Hop Hops IH]; intros tasks Ht; [exact Ht|].
  cbn [fold_left]. apply IH. destruct op as [now data parent|x p|x]; cbn [applyOp].
  - now apply singleLevel_addTask.
  - now apply singleLevel_updateTask.
  - now apply singleLevel_deleteTask.
Qed.

Lemma idsFrom_step (seen : list Z) (tasks : list Task) (op : Op) :
  keepsNesting op -> keepsIds op ->
  NoDup (seen ++ clockReadings [op]) ->
  idsFrom seen tasks ->
  idsFrom (seen ++ clockReadings [op]) (applyOp tasks op).
Proof.
  intros Hn Hi Hnd [Hcnt Hseen].
  destruct op as [now data parent|x p|x]; cbn [applyOp clockReadings flat_map app] in *.
  - assert (Hfresh : countId (Number_toString now) tasks = 0%nat).
    { apply countId_zero. intros Hin. destruct (Hseen _ Hin) as (n & Hn' & Heq).
      apply Number_toString_inj in Heq. subst n.
      eapply NoDup_app_disjoint; [exact Hnd|exact Hn'|now left]. }
    split.
    + intros y. destruct (countId_addTask now data parent tasks y Hcnt) as [Hle _].
      destruct (String.eqb_spec (Number_toString now) y) as [Heq|Hne].
      * rewrite <- Heq in *. lia.
      * specialize (Hcnt y). lia.
    + intros y Hin. apply countId_pos in Hin.
      destruct (countId_addTask now data parent tasks y Hcnt) as [Hle _].
      destruct (String.eqb_spec (Number_toString now) y) as [Heq|Hne].
      * exists now. split; [|now symmetry]. apply in_or_app. right. now left.
      * assert (Hy : In y (allIds tasks)) by (apply countId_pos; lia).
        destruct (Hseen y Hy) as (n & Hn' & Heq). exists n. split; [|exact Heq].
        apply in_or_app. now left.
  - rewrite app_nil_r. unfold idsFrom, countId, updateTask.
    rewrite allIds_updateTask by assumption. split; assumption.
  - rewrite app_nil_r. split.
    + intros y. specialize (Hcnt y). assert (H := countId_deleteTask x y tasks).
      unfold deleteTask. lia.
    + intros y Hin. apply Hseen. apply countId_pos. apply countId_pos in Hin.
      assert (H := countId_deleteTask x y tasks). unfold deleteTask in Hin. lia.
Qed.

Lemma clockReadings_cons (op : Op) (ops : list Op) :
  clockReadings (op :: ops) = clockReadings [op] ++ clockReadings ops.
Proof. unfold clockReadings. cbn [flat_map]. now rewrite app_nil_r. Qed.

Lemma idsFrom_fold (ops : list Op) :
  Forall keepsNesting ops -> Forall keepsIds ops ->
  forall seen tasks,
    NoDup (seen ++ clockReadings ops) -> idsFrom seen tasks ->
    idsFrom (seen ++ clockReadings ops) (fold_left applyOp ops tasks).
Proof.
  intros Hn. induction Hn as [|op ops Hop Hops IH]; intros Hi seen tasks Hnd Hinv.
  - cbn. now rewrite app_nil_r.
  - inversion Hi as [|? ? Hiop Hiops]; subst.
    cbn [fold_left]. rewrite clockReadings_cons, app_assoc in Hnd |- *.
    apply IH; [exact Hiops|exact Hnd|].
    apply idsFrom_step; try assumption. now apply NoDup_app_l in Hnd.
Qed.



(** ** The view: sorting permutes, filtering selects *)

Lemma insertSorted_perm {A : Type} (cmp : A -> A -> JSNum) (x : A) (l : list A) :
  Permutation (insertSorted cmp x l) (x :: l).
Proof.
  induction l as [|y l IH]; cbn [insertSorted]; [reflexivity|].
  destruct (sortsAfter (cmp x y)); [|reflexivity].
  rewrite IH. apply perm_swap.
Qed.

Lemma Array_sort_perm {A : Type} (cmp : A -> A -> JSNum) (l : list A) :
  Permutation (Array_sort cmp l) l.
Proof.
  induction l as [|x l IH]; [reflexivity|].
  unfold Array_sort in *. cbn [fold_right].
  rewrite insertSorted_perm. now constructor.
Qed.

Lemma filteredTasks_In (lc : string -> string -> Z) (now : Z) (filters : FilterState)
    (tasks : list Task) (task : Task) :
  In task (filteredTasks lc now filters tasks) <->
  In task tasks /\ keepTask now filters task = true.
Proof.
  unfold filteredTasks. rewrite <- filter_In. split; intros H.
  - eapply Permutation_in; [apply Array_sort_perm|exact H].
  - eapply Permutation_in; [symmetry; apply Array_sort_perm|exact H].
Qed.

(** ** Overdue tasks and the status filter *)

Lemma isOverdue_iff (now : Z) (task : Task) :
  isOverdue now task = true <->
  exists ms, reminder task = Some (TimeValue ms) /\ ms < now /\ completed task = false.
Proof.
  unfold isOverdue. split.
  - destruct (reminder task) as [[ms|]|]; cbn [Date_before]; try discriminate.
    intros H. apply andb_true_iff in H. destruct H as [Hlt Hc].
    exists ms. split; [reflexivity|]. split; [now apply Z.ltb_lt|].
    now destruct (completed task).
  - intros (ms & -> & Hlt & ->). cbn [Date_before negb].
    apply andb_true_iff. split; [now apply Z.ltb_lt|reflexivity].
Qed.

Lemma keepTask_overdue (now : Z) (filters : FilterState) (task : Task) :
  search filters = "" -> tag filters = "all" -> status filters = StatusOverdue ->
  keepTask now filters task = isOverdue now task || hasOverdueSubtasks now task.
Proof.
  intros Hs Ht Hst. unfold keepTask. rewrite Hs, Ht, Hst.
  cbn [truthyString String.eqb negb andb].
  destruct (isOverdue now task), (hasOverdueSubtasks now task); reflexivity.
Qed.

(** C6. A task is overdue at [now] iff its reminder is set, lies before
    [now] and the task is not completed. With only the status criterion
    set, to "overdue", a top-level task is in the view iff it is in the
    tree and it is overdue itself or one of its subtasks is. So a task that
    is not completed and whose reminder lies one hour before [now] is in the
    view; the same task marked completed (it has no subtasks) is not; and a
    task that is not overdue itself but has an overdue subtask is. *)
Theorem overdue_status_filter (lc : string -> string -> Z) (now : Z)
    (filters : FilterState) (tasks : list Task) (task : Task) :
  search filters = "" -> tag filters = "all" -> status filters = StatusOverdue ->
  (isOverdue now task = true <->
   exists ms, reminder task = Some (TimeValue ms) /\ ms < now /\ completed task = false) /\
  (In task (filteredTasks lc now filters tasks) <->
   In task tasks /\
   (isOverdue now task = true \/
    exists subtask, In subtask (subtasks task) /\ isOverdue now subtask = true)) /\
  (In task tasks -> reminder task = Some (TimeValue (now - oneHour)) ->
   completed task = false -> In task (filteredTasks lc now filters tasks)) /\
  (reminder task = Some (TimeValue (now - oneHour)) -> completed task = true ->
   subtasks task = [] -> ~ In task (filteredTasks lc now filters tasks)) /\
  (In task tasks -> isOverdue now task = false ->
   (exists subtask, In subtask (subtasks task) /\ isOverdue now subtask = true) ->
   In task (filteredTasks lc now filters tasks)).
Proof.
  intros Hs Ht Hst.
  assert (Hview : In task (filteredTasks lc now filters tasks) <->
                  In task tasks /\
                  (isOverdue now task = true \/
                   exists subtask, In subtask (subtasks task) /\ isOverdue now subtask = true)).
  { rewrite filteredTasks_In, keepTask_overdue by assumption.
    rewrite orb_true_iff. unfold hasOverdueSubtasks. rewrite existsb_exists. reflexivity. }
  split; [apply isOverdue_iff|]. split; [exact Hview|]. split; [|split].
  - intros Hin Hr Hc. apply Hview. split; [exact Hin|]. left.
    apply isOverdue_iff. exists (now - oneHour). unfold oneHour. repeat split; try assumption. lia.
  - intros Hr Hc Hsub Hin. apply Hview in Hin. destruct Hin as [_ [Ho|(s & Hs' & _)]].
    + apply isOverdue_iff in Ho. destruct Ho as (ms & _ & _ & Hc'). congruence.
    + rewrite Hsub in Hs'. contradiction.
  - intros Hin _ Hsub. apply Hview. split; [exact Hin|]. now right.
Qed.

(** ** Sorting: order and stability *)

Section SortTheory.

Context {A : Type}.
Variable cmp : A -> A -> JSNum.

(** [x] is not moved behind [y]. *)
Let before (x y : A) : Prop := sortsAfter (cmp x y) = false.

Lemma insertSorted_In (x y : A) (l : list A) :
  In y (insertSorted cmp x l) <-> y = x \/ In y l.
Proof.
  split; intros H.
  - apply (Permutation_in _ (insertSorted_perm cmp x l)) in H.
    destruct H as [H|H]; [left; now symmetry|now right].
  - apply (Permutation_in _ (Permutation_sym (insertSorted_perm cmp x l))).
    destruct H as [H|H]; [left; now symmetry|now right].
Qed.

(** Elements selected by [p] never overtake each other, so the
    selection reads the same before and after an insertion. *)
Lemma insertSorted_filter (p : A -> bool) (x : A) (l : list A) :
  (forall y, In y l -> p x = true -> p y = true -> before x y) ->
  filter p (insertSorted cmp x l) = filter p (x :: l).
Proof.
  induction l as [|y l IH]; intros Hno; [reflexivity|].
  cbn [insertSorted]. destruct (sortsAfter (cmp x y)) eqn:Hxy; [|reflexivity].
  cbn [filter]. rewrite IH by (intros z Hz; apply Hno; now right).
  cbn [filter]. destruct (p x) eqn:Hpx, (p y) eqn:Hpy; try reflexivity.
  assert (H : before x y) by (apply Hno; [now left|reflexivity|exact Hpy]).
  unfold before in H. congruence.
Qed.

Lemma Array_sort_stable (p : A -> bool) (l : list A) :
  (forall x y, In x l -> In y l -> p x = true -> p y = true -> before x y) ->
  filter p (Array_sort cmp l) = filter p l.
Proof.
  induction l as [|x l IH]; intros Hno; [reflexivity|].
  unfold Array_sort in *. cbn [fold_right].
  rewrite insertSorted_filter.
  - cbn [filter]. rewrite IH; [reflexivity|].
    intros a b Ha Hb. apply Hno; now right.
  - intros y Hy. apply Hno; [now left|right].
    eapply Permutation_in; [apply Array_sort_perm|exact Hy].
Qed.

(** On a domain where the comparator is consistent, insertion keeps a
    sorted list sorted. *)
Variable dom : A -> Prop.
Hypothesis before_total : forall x y, dom x -> dom y -> ~ before x y -> before y x.
Hypothesis before_trans :
  forall x y z, dom x -> dom y -> dom z -> before x y -> before y z -> before x z.

Lemma insertSorted_sorted (x : A) (l : list A) :
  dom x -> Forall dom l ->
  StronglySorted before l -> StronglySorted before (insertSorted cmp x l).
Proof.
  intros Hx Hdom Hsorted. induction Hsorted as [|y l Hl IH Hy].
  - cbn. constructor; constructor.
  - inversion Hdom as [|? ? Hdy Hdl]; subst. cbn [insertSorted].
    destruct (sortsAfter (cmp x y)) eqn:Hxy.
    + constructor; [now apply IH|].
      apply Forall_forall. intros z Hz. apply insertSorted_In in Hz.
      destruct Hz as [->|Hz].
      * apply before_total; [exact Hx|exact Hdy|]. unfold before. congruence.
      * rewrite Forall_forall in Hy. now apply Hy.
    + constructor; [now constructor|]. constructor; [exact Hxy|].
      apply Forall_forall. intros z Hz. rewrite Forall_forall in Hy, Hdl.
      apply (before_trans x y z); auto.
Qed.

Lemma Array_sort_sorted (l : list A) :
  Forall dom l -> StronglySorted before (Array_sort cmp l).
Proof.
  intros Hdom. induction Hdom as [|x l Hx Hl IH]; [constructor|].
  unfold Array_sort in *. cbn [fold_right].
  apply insertSorted_sorted; [exact Hx| |exact IH].
  apply Forall_forall. intros y Hy. rewrite Forall_forall in Hl. apply Hl.
  eapply Permutation_in; [apply Array_sort_perm|exact Hy].
Qed.

End SortTheory.

(** ** Sorting by reminder *)

Lemma StronglySorted_weaken {A : Type} (R R' : A -> A -> Prop) (l : list A) :
  (forall x y, In x l -> In y l -> R x y -> R' x y) ->
  StronglySorted R l -> StronglySorted R' l.
Proof.
  intros Himp Hs. induction Hs as [|x l Hl IH Hx]; [constructor|].
  constructor.
  - apply IH. intros a b Ha Hb. apply Himp; now right.
  - apply Forall_forall. intros y Hy. rewrite Forall_forall in Hx.
    apply Himp; [now left|now right|now apply Hx].
Qed.

Lemma reminder_before_iff (lc : string -> string -> Z) (a b : Task) :
  validReminder a -> validReminder b ->
  (sortsAfter (compareTasks lc SortReminder a b) = false <-> reminderOrder a b).
Proof.
  unfold validReminder, reminderOrder, compareTasks. intros Ha Hb.
  destruct (reminder a) as [[x|]|], (reminder b) as [[y|]|];
    try congruence; cbn [getTime JSNum_sub sortsAfter].
  - rewrite Z.ltb_ge. lia.
  - split; [intros _; exact I|reflexivity].
  - split; [discriminate|intros []].
  - split; [intros _; exact I|reflexivity].
Qed.

Lemma sameReminder_before (lc : string -> string -> Z) (r : option Date) (a b : Task) :
  sameReminder r a = true -> sameReminder r b = true ->
  sortsAfter (compareTasks lc SortReminder a b) = false.
Proof.
  unfold sameReminder, compareTasks.
  destruct r as [[v|]|], (reminder a) as [[x|]|], (reminder b) as [[y|]|];
    try discriminate; cbn [getTime JSNum_sub sortsAfter]; try reflexivity.
  intros Hx Hy. apply Z.eqb_eq in Hx, Hy. subst. apply Z.ltb_ge. lia.
Qed.

Lemma StronglySorted_later {A : Type} (R : A -> A -> Prop) (l1 l2 l3 : list A) (a b : A) :
  StronglySorted R (l1 ++ a :: l2 ++ b :: l3) -> R a b.
Proof.
  induction l1 as [|x l1 IH]; cbn [app]; intros Hs.
  - inversion Hs as [|? ? _ Ha]; subst. rewrite Forall_forall in Ha.
    apply Ha. apply in_or_app. right. now left.
  - inversion Hs; subst. now apply IH.
Qed.


(** ** The calendar *)

Lemma checkRange_spec (p : Z -> bool) (fuel : nat) :
  forall z, checkRange fuel z p = true ->
  forall k, z <= k < z + Z.of_nat fuel -> p k = true.
Proof.
  induction fuel as [|fuel IH]; intros z Hc k Hk; [lia|].
  cbn [checkRange] in Hc. apply andb_true_iff in Hc. destruct Hc as [Hz Hrest].
  destruct (Z.eq_dec k z) as [->|Hne]; [exact Hz|].
  apply (IH (z + 1) Hrest). lia.
Qed.

Lemma eraDays_checked : checkRange (Z.to_nat 146097) 0 eraDayCheck = true.
Proof. vm_compute. reflexivity. Qed.

Lemma eraDay_roundtrip (doe : Z) :
  0 <= doe < 146097 ->
  exists yoe m d,
    civilOfEraDay doe = (yoe, m, d) /\
    0 <= yoe < 400 /\ 1 <= m <= 12 /\ 1 <= d <= 31 /\
    eraDayOfCivil yoe m d = doe.
Proof.
  intros Hdoe.
  assert (Hc : eraDayCheck doe = true).
  { apply (checkRange_spec eraDayCheck (Z.to_nat 146097) 0 eraDays_checked). lia. }
  unfold eraDayCheck in Hc. destruct (civilOfEraDay doe) as [[yoe m] d].
  exists yoe, m, d. split; [reflexivity|].
  repeat (apply andb_true_iff in Hc; destruct Hc as [Hc ?]).
  repeat match goal with
         | H : (_ <=? _) = true |- _ => apply Z.leb_le in H
         | H : (_ <? _) = true |- _ => apply Z.ltb_lt in H
         | H : (_ =? _) = true |- _ => apply Z.eqb_eq in H
         end.
  lia.
Qed.

Lemma civil_roundtrip (z : Z) :
  exists y m d,
    civilFromDays z = (y, m, d) /\
    1 <= m <= 12 /\ 1 <= d <= 31 /\
    (z + 719468) / 146097 * 400 <= y <= (z + 719468) / 146097 * 400 + 400 /\
    daysFromCivil y m d = z.
Proof.
  unfold civilFromDays.
  assert (Hmod : 0 <= (z + 719468) mod 146097 < 146097) by (apply Z.mod_pos_bound; lia).
  destruct (eraDay_roundtrip _ Hmod) as (yoe & m & d & Hciv & Hyoe & Hm & Hd & Hback).
  rewrite Hciv. set (era := (z + 719468) / 146097) in *.
  exists (yoe + era * 400 + (if m <=? 2 then 1 else 0)), m, d.
  split; [reflexivity|]. split; [exact Hm|]. split; [exact Hd|]. split.
  - destruct (m <=? 2); lia.
  - unfold daysFromCivil.
    assert (Hy : (if m <=? 2 then yoe + era * 400 + (if m <=? 2 then 1 else 0) - 1
                  else yoe + era * 400 + (if m <=? 2 then 1 else 0)) = yoe + era * 400).
    { destruct (m <=? 2); lia. }
    rewrite Hy.
    rewrite Z.div_add, Z.mod_add by lia.
    rewrite Z.div_small, Z.mod_small by lia.
    rewrite Hback. unfold era.
    assert (Hdm := Z.div_mod (z + 719468) 146097). lia.
Qed.

(** ** Dates as text: reading back what [toISOString] prints *)

Lemma readFixed_padDigits (w : nat) :
  forall n acc rest, 0 <= n ->
  readFixed w (padDigits w n ++ rest)%string acc =
  Some (acc * 10 ^ Z.of_nat w + n mod 10 ^ Z.of_nat w, rest).
Proof.
  induction w as [|w IH]; intros n acc rest Hn.
  - cbn. rewrite Z.mod_1_r. f_equal. f_equal. lia.
  - cbn [padDigits readFixed append].
    assert (Hpow : 0 < 10 ^ Z.of_nat w) by (apply Z.pow_pos_nonneg; lia).
    rewrite digitValue_digitChar by (apply Z.mod_pos_bound; lia).
    rewrite IH by exact Hn. f_equal. f_equal.
    rewrite Nat2Z.inj_succ, Z.pow_succ_r by lia.
    rewrite (Z.mul_comm 10 (10 ^ Z.of_nat w)).
    rewrite (Z.rem_mul_r n (10 ^ Z.of_nat w) 10) by lia.
    lia.
Qed.

Lemma readFixed_padDigits_small (w : nat) (n : Z) (rest : string) :
  0 <= n < 10 ^ Z.of_nat w ->
  readFixed w (padDigits w n ++ rest)%string 0 = Some (n, rest).
Proof.
  intros Hn. rewrite readFixed_padDigits by lia.
  rewrite Z.mod_small by exact Hn. reflexivity.
Qed.

Lemma expectChar_same (c : ascii) (rest : string) :
  expectChar c (String c rest) = Some rest.
Proof. cbn. now rewrite Ascii.eqb_refl. Qed.

Lemma readYear_yearString (y : Z) (rest : string) :
  -1000000 < y < 1000000 ->
  readYear (yearString y ++ rest)%string = Some (y, rest).
Proof.
  intros Hy. unfold yearString.
  destruct ((0 <=? y) && (y <=? 9999)) eqn:Hsmall.
  - apply andb_true_iff in Hsmall. destruct Hsmall as [H0 H9].
    apply Z.leb_le in H0, H9.
    assert (Hr := readFixed_padDigits_small 4 y rest).
    change (10 ^ Z.of_nat 4) with 10000 in Hr. specialize (Hr ltac:(lia)).
    revert Hr. cbn [padDigits append].
    assert (Hd : 0 <= y / 10 ^ Z.of_nat 3 mod 10 < 10) by (apply Z.mod_pos_bound; lia).
    revert Hd. generalize (y / 10 ^ Z.of_nat 3 mod 10) as d. intros d Hd.
    each_digit d Hd; intros Hr; exact Hr.
  - assert (Hr := readFixed_padDigits_small 6 (Z.abs y) rest).
    change (10 ^ Z.of_nat 6) with 1000000 in Hr. specialize (Hr ltac:(lia)).
    destruct (Z.ltb_spec y 0) as [Hneg|Hpos].
    + change (String "-" (padDigits 6 (Z.abs y)) ++ rest)%string
        with (String "-" (padDigits 6 (Z.abs y) ++ rest)%string).
      unfold readYear. rewrite Hr. cbn [bind].
      destruct (Z.eqb_spec (Z.abs y) 0) as [H0|_]; [lia|].
      f_equal. f_equal. lia.
    + change (String "+" (padDigits 6 (Z.abs y)) ++ rest)%string
        with (String "+" (padDigits 6 (Z.abs y) ++ rest)%string).
      unfold readYear. rewrite Hr. f_equal. f_equal. lia.
Qed.

Lemma time_of_day_parts (ms : Z) :
  0 <= ms < msPerDay ->
  0 <= ms / 3600000 < 24 /\ 0 <= ms / 60000 mod 60 < 60 /\
  0 <= ms / 1000 mod 60 < 60 /\ 0 <= ms mod 1000 < 1000 /\
  ((ms / 3600000 * 60 + ms / 60000 mod 60) * 60 + ms / 1000 mod 60) * 1000
    + ms mod 1000 = ms.
Proof. unfold msPerDay. intros H. Z.to_euclidean_division_equations. lia. Qed.

Lemma year_of_day_bound (t : Z) :
  - maxTime <= t <= maxTime ->
  -272400 <= (t / msPerDay + 719468) / 146097 * 400 /\
  (t / msPerDay + 719468) / 146097 * 400 + 400 <= 276400.
Proof. unfold maxTime, msPerDay. intros H. Z.to_euclidean_division_equations. lia. Qed.

Ltac read_field :=
  first
    [ rewrite expectChar_same
    | rewrite readFixed_padDigits_small
        by (first [ change (10 ^ Z.of_nat 2) with 100
                  | change (10 ^ Z.of_nat 3) with 1000 ]; lia) ];
  cbn [bind].

(** The text of a time value reads back as fields that are legal and
    denote the same time value. *)
Lemma isoFields_toISOString (t : Z) :
  - maxTime <= t <= maxTime ->
  exists f, isoFields (toISOString t) = Some f /\
            legalFields f = true /\ timeOfFields f = t.
Proof.
  intros Ht. unfold toISOString.
  destruct (civil_roundtrip (t / msPerDay)) as (y & m & d & Hciv & Hm & Hd & Hy & Hback).
  rewrite Hciv.
  assert (Hyb := year_of_day_bound t Ht).
  assert (Hms : 0 <= t mod msPerDay < msPerDay) by (apply Z.mod_pos_bound; reflexivity).
  destruct (time_of_day_parts _ Hms) as (Hh & Hmi & Hse & Hmsec & Hsum).
  set (ms := t mod msPerDay) in *.
  exists (mkIsoFields y m d (ms / 3600000) (ms / 60000 mod 60) (ms / 1000 mod 60) (ms mod 1000)).
  split; [|split].
  - unfold isoFields. rewrite readYear_yearString by lia. cbn [bind append].
    do 13 read_field. reflexivity.
  - unfold legalFields. cbn [f_month f_day f_hour f_minute f_second f_ms].
    repeat (apply andb_true_iff; split); try (apply Z.leb_le; lia).
    destruct (Z.eqb_spec (ms / 3600000) 24) as [H24|_]; [lia|reflexivity].
  - unfold timeOfFields. cbn [f_year f_month f_day f_hour f_minute f_second f_ms].
    rewrite Hback.
    assert (Hdm := Z.div_mod t msPerDay ltac:(discriminate)). fold ms in Hdm. lia.
Qed.

Lemma Date_parse_toISOString (other : string -> Date) (t : Z) :
  - maxTime <= t <= maxTime ->
  Date_parse other (toISOString t) = TimeValue t.
Proof.
  intros Ht. unfold Date_parse.
  destruct (isoFields_toISOString t Ht) as (f & -> & -> & ->).
  unfold TimeClip.
  destruct (Z.leb_spec (- maxTime) t); [|lia].
  destruct (Z.leb_spec t maxTime); [reflexivity|lia].
Qed.

(** ** Saving and loading the tree *)

Lemma toJson_strings (l : list string) :
  map (fun x => match toJson x with Some j => j | None => JNull end) (map VStr l)
  = map JStr l.
Proof. induction l as [|s l IH]; [reflexivity|]. cbn [map toJson]. now rewrite IH. Qed.

Lemma ofJson_strings (l : list string) : map ofJson (map JStr l) = map VStr l.
Proof. induction l as [|s l IH]; [reflexivity|]. cbn [map ofJson]. now rewrite IH. Qed.

Lemma asStrings_strings (l : list string) :
  asStrings (Some (VArr (map VStr l))) = Some l.
Proof.
  unfold asStrings. induction l as [|s l IH]; [reflexivity|].
  cbn [map]. change (allSome (asString (Some (VStr s)) ::
                      map (fun x => asString (Some x)) (map VStr l)))
    with (r <- allSome (map (fun x => asString (Some x)) (map VStr l)) ;; Some (s :: r)).
  now rewrite IH.
Qed.

Lemma reviveReminder_text (other : string -> Date) (ms : Z) :
  - maxTime <= ms <= maxTime ->
  reviveReminder other (Some (JStr (toISOString ms))) = VDate (TimeValue ms).
Proof.
  intros Hms. unfold reviveReminder, truthy, newDate.
  rewrite Date_parse_toISOString by exact Hms.
  destruct (truthyString (toISOString ms)) eqn:Htruthy; [reflexivity|].
  unfold truthyString in Htruthy. apply negb_false_iff, String.eqb_eq in Htruthy.
  assert (H := Date_parse_toISOString noOtherFormats ms Hms).
  rewrite Htruthy in H. discriminate H.
Qed.

Lemma revive_leaf (other : string -> Date) (s : Task) :
  subtasks s = [] -> storableReminder s ->
  exists v, reviveSubtask other (jsonOf s) = Normal v /\ Task_ofJs v = Some s.
Proof.
  destruct s as [i ti c co ta r subs pa]. cbn [subtasks]. intros -> Hr.
  unfold storableReminder in Hr. cbn [reminder] in Hr.
  unfold jsonOf, reviveSubtask.
  destruct r as [[ms|]|]; [|contradiction|]; destruct pa as [pa|];
    cbn -[toISOString reviveReminder asStrings];
    rewrite ?toJson_strings, ?ofJson_strings, ?reviveReminder_text by exact Hr;
    eexists; (split; [reflexivity|]);
    cbn -[asStrings]; rewrite asStrings_strings; reflexivity.
Qed.

Lemma Task_ofJs_obj (props : list (string * JsVal)) :
  Task_ofJs (VObj props) =
  (i <- asString (lookupProp "id" props) ;;
   ti <- asString (lookupProp "title" props) ;;
   c <- asBool (lookupProp "completed" props) ;;
   co <- asString (lookupProp "color" props) ;;
   ta <- asStrings (lookupProp "tags" props) ;;
   r <- asOptionalDate (lookupProp "reminder" props) ;;
   subs <- match lookupProp "subtasks" props with
           | Some (VArr items) => treeOf items
           | _ => None
           end ;;
   pa <- asOptionalString (lookupProp "parentId" props) ;;
   Some (mkTask i ti c co ta r subs pa)).
Proof.
  cbn [Task_ofJs].
  match goal with
  | |- context [bind (?member props) _] =>
      assert (Hm : member props =
                   match lookupProp "subtasks" props with
                   | Some (VArr items) => treeOf items
                   | _ => None
                   end)
  end.
  { induction props as [|[k x] rest IH]; [reflexivity|].
    cbn [lookupProp]. destruct (String.eqb k "subtasks"); [|exact IH].
    destruct x; try reflexivity.
    unfold treeOf. induction items as [|y l IHl]; [reflexivity|].
    cbn [map allSome]. rewrite <- IHl. reflexivity. }
  rewrite Hm. reflexivity.
Qed.

Lemma jsonOf_subtasks (subs : list Task) :
  map (fun x => match toJson x with Some j => j | None => JNull end)
      (map Task_toJs subs) = map jsonOf subs.
Proof. rewrite map_map. reflexivity. Qed.

Lemma revive_leaves (other : string -> Date) (subs : list Task) :
  Forall (fun s => subtasks s = []) subs -> Forall storableReminder subs ->
  exists vs, mapThrowing (reviveSubtask other) (map jsonOf subs) = Normal vs /\
             treeOf vs = Some subs.
Proof.
  intros Hleaf. induction Hleaf as [|s subs Hs Hsubs IH]; intros Hst.
  - exists []. split; reflexivity.
  - inversion Hst as [|? ? Hrs Hrsubs]; subst.
    destruct (IH Hrsubs) as (vs & Hvs & Htree).
    destruct (revive_leaf other s Hs Hrs) as (v & Hv & Hread).
    exists (v :: vs). cbn [map mapThrowing]. rewrite Hv, Hvs. split; [reflexivity|].
    unfold treeOf in *. cbn [map allSome]. now rewrite Hread, Htree.
Qed.

Lemma revive_task (other : string -> Date) (t : Task) :
  Forall (fun s => subtasks s = []) (subtasks t) ->
  storableReminder t -> Forall storableReminder (subtasks t) ->
  exists v, reviveTask other (jsonOf t) = Normal v /\ Task_ofJs v = Some t.
Proof.
  destruct t as [i ti c co ta r subs pa]. cbn [subtasks]. intros Hleaf Hr Hsubs.
  unfold storableReminder in Hr. cbn [reminder] in Hr.
  destruct (revive_leaves other subs Hleaf Hsubs) as (vs & Hvs & Htree).
  unfold jsonOf, reviveTask.
  destruct r as [[ms|]|]; [|contradiction|]; destruct pa as [pa|];
    cbn -[toISOString reviveReminder asStrings mapThrowing reviveSubtask];
    rewrite ?jsonOf_subtasks, ?toJson_strings, ?ofJson_strings, ?Hvs,
      ?reviveReminder_text by exact Hr;
    cbn [andThen]; eexists; (split; [reflexivity|]);
    rewrite Task_ofJs_obj;
    cbn -[asStrings treeOf]; rewrite asStrings_strings, Htree; reflexivity.
Qed.

Lemma saveTasks_document (tasks : list Task) :
  saveTasks tasks = Document (JArr (map jsonOf tasks)).
Proof. unfold saveTasks. cbn [toJson]. now rewrite jsonOf_subtasks. Qed.

Lemma flatten_incl (l : list Task) (s : Task) : In s l -> In s (flatten l).
Proof.
  induction l as [|a l IH]; intros Hin; [contradiction|].
  rewrite flatten_cons. destruct Hin as [->|Hin]; [now left|].
  right. apply in_or_app. right. now apply IH.
Qed.

Lemma revive_tree (other : string -> Date) (tasks : list Task) :
  validTree tasks ->
  exists l, mapThrowing (reviveTask other) (map jsonOf tasks) = Normal l /\
            treeOf l = Some tasks.
Proof.
  intros [Hlevel Hst]. induction Hlevel as [|t tasks Ht Htasks IH].
  - exists []. split; reflexivity.
  - rewrite flatten_cons in Hst. inversion Hst as [|? ? Hrt Hrest]; subst.
    apply Forall_app in Hrest. destruct Hrest as [Hrsubs Hrtasks].
    destruct (IH Hrtasks) as (l & Hl & Htree).
    destruct (revive_task other t Ht Hrt) as (v & Hv & Hread).
    { apply Forall_forall. intros s Hs. rewrite Forall_forall in Hrsubs.
      apply Hrsubs. now apply flatten_incl. }
    exists (v :: l). cbn [map mapThrowing]. rewrite Hv, Hl. split; [reflexivity|].
    unfold treeOf in *. cbn [map allSome]. now rewrite Hread, Htree.
Qed.

(** C1. For every valid tree (one level of subtasks, every reminder a
    proper date in the range of time values), loading what was saved calls
    [setTasks] with objects that read, member by member and subtask by
    subtask, as the tree that was saved: id, title, completed, color, tags,
    reminder, subtasks and parentId are the same. A reminder comes back
    with the same time value, to the millisecond, and a task without
    reminder comes back without one (its member reads [undefined], not an
    Invalid Date). *)
Theorem load_save_roundtrip (other : string -> Date) (tasks : list Task) :
  validTree tasks ->
  (exists l, loadTasks other (saveTasks tasks) = Normal (Some l) /\
             treeOf l = Some tasks) /\
  (forall ms, - maxTime <= ms <= maxTime ->
              reviveReminder other (toJson (VDate (TimeValue ms))) = VDate (TimeValue ms)) /\
  reviveReminder other (toJson (optional VDate None)) = VUndefined.
Proof.
  intros Hvalid. split; [|split].
  - destruct (revive_tree other tasks Hvalid) as (l & Hl & Htree).
    exists l. rewrite saveTasks_document. cbn [loadTasks]. rewrite Hl. split; [reflexivity|exact Htree].
  - intros ms Hms. cbn [toJson]. now apply reviveReminder_text.
  - reflexivity.
Qed.

(** ** Loading corrupt state *)

Lemma mapThrowing_app {A B : Type} (f : A -> Completion B) (l1 l2 : list A)
    (r1 r2 : list B) :
  mapThrowing f l1 = Normal r1 -> mapThrowing f l2 = Normal r2 ->
  mapThrowing f (l1 ++ l2) = Normal (r1 ++ r2).
Proof.
  revert r1. induction l1 as [|x l1 IH]; intros r1 H1 H2.
  - cbn in H1. injection H1 as <-. exact H2.
  - cbn [app mapThrowing] in *. destruct (f x) as [y|e]; [|discriminate].
    cbn [andThen] in *. destruct (mapThrowing f l1) as [ys|e]; [|discriminate].
    cbn [andThen] in *. injection H1 as <-. now rewrite (IH ys eq_refl H2).
Qed.

Lemma allSome_app {A : Type} (l1 l2 : list (option A)) (r1 r2 : list A) :
  allSome l1 = Some r1 -> allSome l2 = Some r2 -> allSome (l1 ++ l2) = Some (r1 ++ r2).
Proof.
  revert r1. induction l1 as [|o l1 IH]; intros r1 H1 H2.
  - cbn in H1. injection H1 as <-. exact H2.
  - cbn [app allSome] in *. destruct o as [a|]; [|discriminate]. cbn [bind] in *.
    destruct (allSome l1) as [r|]; [|discriminate]. cbn [bind] in *.
    injection H1 as <-. now rewrite (IH r eq_refl H2).
Qed.

Lemma reviveReminder_bad_text (other : string -> Date) (s : string) :
  s <> "" -> Date_parse other s = InvalidDate ->
  reviveReminder other (Some (JStr s)) = VDate InvalidDate.
Proof.
  intros Hne Hbad. unfold reviveReminder, truthy, newDate.
  now rewrite (truthyString_nonempty s Hne), Hbad.
Qed.

Lemma revive_bad_reminder (other : string -> Date) (t : Task) (s : string) :
  s <> "" -> Date_parse other s = InvalidDate ->
  Forall (fun x => subtasks x = []) (subtasks t) ->
  Forall storableReminder (subtasks t) ->
  exists v, reviveTask other (withReminderText t s) = Normal v /\
            Task_ofJs v = Some (withReminder t (Some InvalidDate)).
Proof.
  intros Hne Hbad.
  destruct t as [i ti c co ta r subs pa]. cbn [subtasks]. intros Hleaf Hsubs.
  destruct (revive_leaves other subs Hleaf Hsubs) as (vs & Hvs & Htree).
  unfold withReminderText, withReminder, jsonOf, reviveTask.
  destruct r as [[ms|]|]; destruct pa as [pa|];
    cbn -[toISOString reviveReminder asStrings mapThrowing reviveSubtask];
    rewrite ?jsonOf_subtasks, ?toJson_strings, ?ofJson_strings, ?Hvs,
      ?reviveReminder_bad_text by assumption;
    cbn [andThen]; eexists; (split; [reflexivity|]);
    rewrite Task_ofJs_obj;
    cbn -[asStrings treeOf]; rewrite asStrings_strings, Htree; reflexivity.
Qed.

(** Neither a text that is not JSON nor a reminder that is no date makes
    the load fall back to the empty tree: the first throws, the second
    loads the task with an Invalid Date. *)
Lemma corrupt_state_counterexample :
  loadTasks noOtherFormats Malformed = Throw SyntaxError /\
  ~ loadsEmptyTree noOtherFormats Malformed /\
  ~ loadsEmptyTree noOtherFormats (Document badReminderDocument).
Proof.
  split; [reflexivity|]. split; intros [H|H]; vm_compute in H; discriminate H.
Qed.

Lemma mapThrowing_throws {A B : Type} (f : A -> Completion B) (l : list A) (e : Error) :
  (forall x e', f x = Throw e' -> e' = TypeError) ->
  mapThrowing f l = Throw e -> e = TypeError.
Proof.
  intros Hf. induction l as [|x l IH]; cbn [mapThrowing]; [discriminate|].
  destruct (f x) as [y|e'] eqn:Hx; cbn [andThen].
  - destruct (mapThrowing f l) as [ys|e'']; cbn [andThen]; [discriminate|].
    intros H. injection H as <-. now apply IH.
  - intros H. injection H as <-. now apply (Hf x).
Qed.

Lemma getProp_throws (k : string) (x : Json) (e : Error) :
  getProp k x = Throw e -> e = TypeError.
Proof. destruct x; cbn; try discriminate. now intros [= <-]. Qed.

Lemma reviveSubtask_throws (other : string -> Date) (x : Json) (e : Error) :
  reviveSubtask other x = Throw e -> e = TypeError.
Proof.
  unfold reviveSubtask. destruct (getProp "reminder" x) as [r|e'] eqn:Hr; cbn [andThen].
  - discriminate.
  - intros [= <-]. now apply getProp_throws in Hr.
Qed.

Lemma reviveTask_throws (other : string -> Date) (x : Json) (e : Error) :
  reviveTask other x = Throw e -> e = TypeError.
Proof.
  unfold reviveTask. destruct (getProp "reminder" x) as [r|e'] eqn:Hr; cbn [andThen].
  - destruct (getProp "subtasks" x) as [s|e'] eqn:Hs; cbn [andThen].
    + destruct (reviveSubtasks other s) as [subs|e'] eqn:Hsubs; cbn [andThen]; [discriminate|].
      intros [= <-]. unfold reviveSubtasks in Hsubs.
      destruct s as [[| | | |items|]|]; try discriminate; try now injection Hsubs as <-.
      destruct (mapThrowing (reviveSubtask other) items) as [l|e''] eqn:Hitems;
        cbn [andThen] in Hsubs; [discriminate|].
      injection Hsubs as <-.
      apply (mapThrowing_throws (reviveSubtask other) items e''); [|exact Hitems].
      intros y e3. apply reviveSubtask_throws.
    + intros [= <-]. now apply getProp_throws in Hs.
  - intros [= <-]. now apply getProp_throws in Hr.
Qed.

Lemma mapThrowing_null (other : string -> Date) (before after : list Json) :
  mapThrowing (reviveTask other) (before ++ JNull :: after) = Throw TypeError.
Proof.
  induction before as [|x before IH]; cbn [app mapThrowing]; [reflexivity|].
  destruct (reviveTask other x) as [y|e] eqn:Hx; cbn [andThen].
  - now rewrite IH.
  - f_equal. now apply reviveTask_throws in Hx.
Qed.

(** C7 (amended). The load effect has no recovery. When nothing is stored,
    or the empty text, the tree stays empty. When the stored text is not
    valid JSON, the effect ends with a [SyntaxError] that nothing catches;
    when it is valid JSON but no array, or an array with a [null] element,
    with a [TypeError]. When the stored document is that of valid tasks
    except that the reminder of one task is a non-empty text that is no
    date, the whole document is loaded, every task in its place, and that
    task carries an Invalid Date as its reminder. *)
Theorem load_corrupt_state (other : string -> Date) :
  loadTasks other NotStored = Normal None /\
  loadTasks other EmptyText = Normal None /\
  loadTasks other Malformed = Throw SyntaxError /\
  (forall doc, (forall items, doc <> JArr items) ->
               loadTasks other (Document doc) = Throw TypeError) /\
  (forall before after,
      loadTasks other (Document (JArr (before ++ JNull :: after))) = Throw TypeError) /\
  (forall before t after s,
      validTree before -> validTree after ->
      Forall (fun x => subtasks x = []) (subtasks t) ->
      Forall storableReminder (subtasks t) ->
      s <> "" -> Date_parse other s = InvalidDate ->
      exists l,
        loadTasks other
          (Document (JArr (map jsonOf before ++ withReminderText t s :: map jsonOf after)))
          = Normal (Some l) /\
        treeOf l = Some (before ++ withReminder t (Some InvalidDate) :: after)).
Proof.
  repeat (split; [reflexivity|]). split; [|split].
  - intros doc Hdoc. destruct doc; try reflexivity. now destruct (Hdoc items).
  - intros before after. cbn [loadTasks]. now rewrite mapThrowing_null.
  - intros before t after s Hb Ha Hleaf Hsubs Hne Hbad.
    destruct (revive_tree other before Hb) as (lb & Hlb & Htb).
    destruct (revive_tree other after Ha) as (la & Hla & Hta).
    destruct (revive_bad_reminder other t s Hne Hbad Hleaf Hsubs) as (v & Hv & Hread).
    exists (lb ++ v :: la). cbn [loadTasks].
    rewrite (mapThrowing_app (reviveTask other) (map jsonOf before)
               (withReminderText t s :: map jsonOf after) lb (v :: la) Hlb).
    + split; [reflexivity|]. unfold treeOf in *. rewrite map_app. cbn [map].
      apply allSome_app; [exact Htb|]. cbn [allSome]. now rewrite Hread, Hta.
    + cbn [mapThrowing]. now rewrite Hv, Hla.
Qed.

(** ** Sorting by creation *)

Lemma Array_sort_sorted_id {A : Type} (cmp : A -> A -> JSNum) (l : list A) :
  StronglySorted (fun x y => sortsAfter (cmp x y) = false) l -> Array_sort cmp l = l.
Proof.
  intros Hs. induction Hs as [|x l Hl IH Hx]; [reflexivity|].
  unfold Array_sort in *. cbn [fold_right]. rewrite IH.
  destruct l as [|y l']; [reflexivity|]. cbn [insertSorted].
  inversion Hx as [|? ? Hxy _]; subst. now rewrite Hxy.
Qed.

Lemma StronglySorted_filter {A : Type} (R : A -> A -> Prop) (p : A -> bool) (l : list A) :
  StronglySorted R l -> StronglySorted R (filter p l).
Proof.
  intros Hs. induction Hs as [|x l Hl IH Hx]; [constructor|].
  cbn [filter]. destruct (p x); [|exact IH]. constructor; [exact IH|].
  apply Forall_forall. intros y Hy. apply filter_In in Hy.
  rewrite Forall_forall in Hx. now apply Hx.
Qed.

Lemma map_id_addTask_sub (p : string) (nt : Task) (l : list Task) :
  map id (map (fun task => if String.eqb (id task) p
                           then withSubtasks task (subtasks task ++ [nt])
                           else task) l) = map id l.
Proof.
  rewrite map_map. apply map_ext. intros a. now destruct (String.eqb (id a) p).
Qed.

Lemma map_id_updateTask (x : string) (p : TaskUpdates) (l : list Task) :
  u_id p = None -> map id (updateTask x p l) = map id l.
Proof.
  intros Hi. unfold updateTask, updateTaskRecursive. rewrite map_map.
  apply map_ext. intros a. rewrite updateTaskNode_unfold.
  destruct (String.eqb (id a) x).
  - unfold merge. cbn [id]. now rewrite Hi.
  - now destruct (subtasks a).
Qed.

Lemma map_id_deleteTask (x : string) (l : list Task) :
  map id (deleteTask x l) = filter (fun y => negb (String.eqb y x)) (map id l).
Proof.
  unfold deleteTask. induction l as [|a l IH]; [reflexivity|].
  rewrite deleteTaskRecursive_cons, map_app, IH. cbn [map filter].
  rewrite deleteTaskNode_unfold. destruct (String.eqb (id a) x); [reflexivity|].
  now destruct (subtasks a).
Qed.

Lemma filter_map_commute {A B : Type} (f : A -> B) (p : B -> bool) (l : list A) :
  filter p (map f l) = map f (filter (fun a => p (f a)) l).
Proof.
  induction l as [|a l IH]; [reflexivity|].
  cbn [map filter]. destruct (p (f a)); cbn [map]; now rewrite IH.
Qed.

Lemma createdInOrder_step (latest : Z) (tasks : list Task) (op : Op) :
  keepsIds op ->
  Forall (fun z => latest <= z) (clockReadings [op]) ->
  createdInOrder latest tasks ->
  createdInOrder (match op with OpAdd now _ _ => now | _ => latest end) (applyOp tasks op).
Proof.
  intros Hi Hclock (zs & Hids & Hsorted & Hle).
  destruct op as [now data parent|x p|x]; cbn [applyOp clockReadings flat_map app] in *.
  - inversion Hclock as [|? ? Hnow _]; subst.
    assert (Happ : forall par, createdInOrder now (tasks ++ [newTask now data par])).
    { intros par. exists (zs ++ [now]). rewrite !map_app, Hids. split; [reflexivity|]. split.
      - clear Hids. induction Hsorted as [|z zs Hzs IH Hz]; cbn [app].
        + constructor; constructor.
        + inversion Hle as [|? ? Hzl Hzsl]; subst. constructor; [now apply IH|].
          apply Forall_app. split; [exact Hz|]. constructor; [lia|constructor].
      - apply Forall_app. split.
        + eapply Forall_impl; [|exact Hle]. cbn. intros; lia.
        + constructor; [lia|constructor]. }
    unfold addTask. destruct parent as [p|]; [|apply Happ].
    destruct (truthyString p); [|apply Happ].
    exists zs. rewrite map_id_addTask_sub. split; [exact Hids|]. split; [exact Hsorted|].
    eapply Forall_impl; [|exact Hle]. cbn. intros; lia.
  - exists zs. rewrite map_id_updateTask by exact Hi. auto.
  - exists (filter (fun z => negb (String.eqb (Number_toString z) x)) zs).
    rewrite map_id_deleteTask, Hids, filter_map_commute. split; [reflexivity|]. split.
    + now apply StronglySorted_filter.
    + apply Forall_forall. intros z Hz. apply filter_In in Hz.
      rewrite Forall_forall in Hle. now apply Hle.
Qed.

Lemma createdInOrder_fold (ops : list Op) :
  Forall keepsIds ops -> StronglySorted Z.le (clockReadings ops) ->
  forall latest tasks,
    Forall (fun z => latest <= z) (clockReadings ops) ->
    createdInOrder latest tasks ->
    exists latest', createdInOrder latest' (fold_left applyOp ops tasks).
Proof.
  intros Hi. induction Hi as [|op ops Hop Hops IH]; intros Hsorted latest tasks Hlow Hinv.
  - exists latest. exact Hinv.
  - rewrite clockReadings_cons in Hsorted, Hlow.
    apply Forall_app in Hlow. destruct Hlow as [Hlow1 Hlow2].
    assert (Hinv' := createdInOrder_step latest tasks op Hop Hlow1 Hinv).
    cbn [fold_left].
    apply IH with (latest := match op with OpAdd now _ _ => now | _ => latest end);
      [| |exact Hinv'].
    + destruct op; cbn [clockReadings flat_map app] in Hsorted;
        try exact Hsorted. now inversion Hsorted.
    + destruct op as [now data parent|x p|x]; cbn [clockReadings flat_map app] in *;
        try exact Hlow2.
      now inversion Hsorted.
Qed.

Lemma created_before (lc : string -> string -> Z) (a b : Task) (za zb : Z) :
  id a = Number_toString za -> id b = Number_toString zb -> za <= zb ->
  sortsAfter (compareTasks lc SortCreated a b) = false.
Proof.
  intros Ha Hb Hle. unfold compareTasks. rewrite Ha, Hb, !parseInt_toString.
  cbn [JSNum_sub sortsAfter]. apply Z.ltb_ge. lia.
Qed.

Lemma created_sorted (lc : string -> string -> Z) :
  forall tasks zs,
    map id tasks = map Number_toString zs -> StronglySorted Z.le zs ->
    StronglySorted (fun a b => sortsAfter (compareTasks lc SortCreated a b) = false) tasks.
Proof.
  induction tasks as [|a l IH]; intros zs Hids Hs; [constructor|].
  destruct zs as [|z zs']; [discriminate|]. cbn [map] in Hids.
  injection Hids as Ha Hl. inversion Hs as [|? ? Hs' Hz]; subst.
  constructor; [now apply (IH zs')|].
  apply Forall_forall. intros b Hb.
  assert (Hin : In (id b) (map Number_toString zs')) by (rewrite <- Hl; now apply in_map).
  apply in_map_iff in Hin. destruct Hin as (zb & Hzb & Hinz).
  rewrite Forall_forall in Hz.
  apply (created_before lc a b z zb); [exact Ha|now symmetry|now apply Hz].
Qed.

Lemma created_filter (p : Task -> bool) :
  forall tasks zs,
    map id tasks = map Number_toString zs -> StronglySorted Z.le zs ->
    exists zs', map id (filter p tasks) = map Number_toString zs' /\
                StronglySorted Z.le zs' /\ incl zs' zs.
Proof.
  induction tasks as [|a l IH]; intros zs Hids Hs.
  - exists []. split; [reflexivity|]. split; [constructor|]. intros z [].
  - destruct zs as [|z zs']; [discriminate|]. cbn [map] in Hids.
    injection Hids as Ha Hl. inversion Hs as [|? ? Hs' Hz]; subst.
    destruct (IH zs' Hl Hs') as (zs'' & Hids' & Hsorted' & Hincl).
    cbn [filter]. destruct (p a).
    + exists (z :: zs''). cbn [map]. rewrite Ha, Hids'. split; [reflexivity|]. split.
      * constructor; [exact Hsorted'|]. apply Forall_forall. intros y Hy.
        rewrite Forall_forall in Hz. apply Hz. now apply Hincl.
      * intros y [<-|Hy]; [now left|right; now apply Hincl].
    + exists zs''. split; [exact Hids'|]. split; [exact Hsorted'|].
      intros y Hy. right. now apply Hincl.
Qed.



(** ** The view and the store *)

Lemma readArray_alloc_old (st : Store) (content : list Task) (a : nat) :
  (a < List.length st)%nat -> readArray (st ++ [content]) a = readArray st a.
Proof. intros Ha. unfold readArray. now apply app_nth1. Qed.

Lemma readArray_alloc_new (st : Store) (content : list Task) :
  readArray (st ++ [content]) (List.length st) = content.
Proof. unfold readArray. rewrite app_nth2, Nat.sub_diag by lia. reflexivity. Qed.

Lemma readArray_write_same (st : Store) (a : nat) (content : list Task) :
  (a < List.length st)%nat -> readArray (writeArray st a content) a = content.
Proof.
  unfold readArray. revert a. induction st as [|x st IH]; intros a Ha; cbn in Ha; [lia|].
  destruct a as [|a]; [reflexivity|]. cbn. apply IH. lia.
Qed.

Lemma readArray_write_other (st : Store) (a b : nat) (content : list Task) :
  a <> b -> readArray (writeArray st a content) b = readArray st b.
Proof.
  unfold readArray. revert a b. induction st as [|x st IH]; intros a b Hne.
  - reflexivity.
  - destruct a as [|a], b as [|b]; cbn; try reflexivity; try congruence.
    apply IH. congruence.
Qed.

Lemma writeArray_length (st : Store) (a : nat) (content : list Task) :
  List.length (writeArray st a content) = List.length st.
Proof.
  revert a. induction st as [|x st IH]; intros a; [reflexivity|].
  destruct a; cbn; [reflexivity|]. now rewrite IH.
Qed.

Lemma evalFilteredTasks_spec (lc : string -> string -> Z) (now : Z)
    (filters : FilterState) (tasks : nat) (st : Store) :
  (tasks < List.length st)%nat ->
  let '(view, st') := evalFilteredTasks lc now filters tasks st in
  view = List.length st /\
  List.length st' = S (List.length st) /\
  readArray st' view = filteredTasks lc now filters (readArray st tasks) /\
  forall a, (a < List.length st)%nat -> readArray st' a = readArray st a.
Proof.
  intros Ht. unfold evalFilteredTasks, Array_filter_in, allocArray, Array_sort_in.
  split; [reflexivity|]. split; [|split].
  - rewrite writeArray_length, length_app. cbn. lia.
  - rewrite readArray_write_same by (rewrite length_app; cbn; lia).
    rewrite readArray_alloc_new. reflexivity.
  - intros a Ha. rewrite readArray_write_other by lia.
    now apply readArray_alloc_old.
Qed.

Lemma keepTask_clock (now now' : Z) (filters : FilterState) (task : Task) :
  status filters = StatusAll \/ status filters = StatusCompleted ->
  keepTask now filters task = keepTask now' filters task.
Proof. intros [H|H]; unfold keepTask; rewrite H; reflexivity. Qed.



(** ** The theorems at sample inputs *)

Lemma bankTree_valid : validTree bankTree.
Proof.
  split.
  - repeat constructor.
  - unfold bankTree, flatten, storableReminder, maxTime. cbn.
    repeat constructor; lia.
Qed.

Lemma load_save_roundtrip_witness :
  validTree bankTree /\
  exists l, loadTasks noOtherFormats (saveTasks bankTree) = Normal (Some l) /\
            treeOf l = Some bankTree.
Proof.
  split; [exact bankTree_valid|].
  exact (proj1 (load_save_roundtrip noOtherFormats bankTree bankTree_valid)).
Defined.


Lemma overdue_status_filter_witness :
  In (reminderTask "1" (10000000 - oneHour) false)
     (filteredTasks codeUnitCompare 10000000 overdueFilters
        [reminderTask "1" (10000000 - oneHour) false; parentOf (reminderTask "2" 5 false)]) /\
  ~ In (reminderTask "1" (10000000 - oneHour) true)
       (filteredTasks codeUnitCompare 10000000 overdueFilters
          [reminderTask "1" (10000000 - oneHour) true]) /\
  In (parentOf (reminderTask "2" 5 false))
     (filteredTasks codeUnitCompare 10000000 overdueFilters
        [reminderTask "1" (10000000 - oneHour) false; parentOf (reminderTask "2" 5 false)]).
Proof.
  split; [|split].
  - destruct (overdue_status_filter codeUnitCompare 10000000 overdueFilters
                [reminderTask "1" (10000000 - oneHour) false;
                 parentOf (reminderTask "2" 5 false)]
                (reminderTask "1" (10000000 - oneHour) false)
                eq_refl eq_refl eq_refl) as (_ & _ & Hin & _ & _).
    apply Hin; [now left|reflexivity|reflexivity].
  - destruct (overdue_status_filter codeUnitCompare 10000000 overdueFilters
                [reminderTask "1" (10000000 - oneHour) true]
                (reminderTask "1" (10000000 - oneHour) true)
                eq_refl eq_refl eq_refl) as (_ & _ & _ & Hout & _).
    apply Hout; reflexivity.
  - destruct (overdue_status_filter codeUnitCompare 10000000 overdueFilters
                [reminderTask "1" (10000000 - oneHour) false;
                 parentOf (reminderTask "2" 5 false)]
                (parentOf (reminderTask "2" 5 false))
                eq_refl eq_refl eq_refl) as (_ & _ & _ & _ & Hsub).
    apply Hsub; [right; now left|reflexivity|].
    exists (reminderTask "2" 5 false). split; [now left|reflexivity].
Defined.

Lemma load_corrupt_state_witness :
  Date_parse noOtherFormats "next week" = InvalidDate /\
  exists l,
    loadTasks noOtherFormats (Document badReminderDocument) = Normal (Some l) /\
    treeOf l = Some [withReminder (newTask 1000 milkData None) (Some InvalidDate)].
Proof.
  split; [reflexivity|].
  destruct (load_corrupt_state noOtherFormats) as (_ & _ & _ & _ & _ & H).
  apply (H [] (newTask 1000 milkData None) [] "next week").
  - split; constructor.
  - split; constructor.
  - constructor.
  - constructor.
  - discriminate.
  - reflexivity.
Defined.




(* ================================================================= *)
(** * The remaining functions: properties *)

(** ** [getAllTags] *)

Lemma Array_includes_In (l : list string) (x : string) :
  Array_includes l x = true <-> In x l.
Proof.
  unfold Array_includes. rewrite existsb_exists. split.
  - intros (y & Hy & Heq). apply String.eqb_eq in Heq. now subst.
  - intros Hin. exists x. split; [exact Hin|apply String.eqb_refl].
Qed.

Lemma Array_includes_app (l1 l2 : list string) (x : string) :
  Array_includes (l1 ++ l2) x = Array_includes l1 x || Array_includes l2 x.
Proof. unfold Array_includes. apply existsb_app. Qed.

Lemma Set_add_In (s : list string) (x y : string) :
  In y (Set_add s x) <-> In y s \/ y = x.
Proof.
  unfold Set_add. destruct (Array_includes s x) eqn:Hin.
  - apply Array_includes_In in Hin. split; [now left|]. intros [H | ->]; assumption.
  - rewrite in_app_iff. cbn. intuition.
Qed.

Lemma Set_add_NoDup (s : list string) (x : string) : NoDup s -> NoDup (Set_add s x).
Proof.
  intros Hs. unfold Set_add. destruct (Array_includes s x) eqn:Hin; [exact Hs|].
  assert (Hx : ~ In x s).
  { intros H. apply Array_includes_In in H. congruence. }
  clear Hin. induction Hs as [|a l Ha Hl IH]; cbn [app].
  - constructor; [intros []|constructor].
  - constructor.
    + rewrite in_app_iff. intros [H|[H|[]]]; [contradiction|].
      apply Hx. left. now symmetry.
    + apply IH. intros H. apply Hx. now right.
Qed.

Lemma fold_Set_add_In (l s : list string) (y : string) :
  In y (fold_left Set_add l s) <-> In y s \/ In y l.
Proof.
  revert s. induction l as [|x l IH]; intros s; cbn [fold_left].
  - cbn [In]. intuition.
  - rewrite IH, Set_add_In. cbn [In]. intuition.
Qed.

Lemma fold_Set_add_NoDup (l s : list string) : NoDup s -> NoDup (fold_left Set_add l s).
Proof.
  revert s. induction l as [|x l IH]; intros s Hs; cbn [fold_left]; [exact Hs|].
  apply IH. now apply Set_add_NoDup.
Qed.

Lemma filter_filter {A : Type} (p q : A -> bool) (l : list A) :
  filter p (filter q l) = filter (fun x => q x && p x) l.
Proof.
  induction l as [|a l IH]; [reflexivity|].
  cbn [filter]. destruct (q a); cbn [filter andb]; [destruct (p a)|]; now rewrite IH.
Qed.

Lemma fold_Set_add_first (l s : list string) :
  fold_left Set_add l s =
  s ++ filter (fun y => negb (Array_includes s y)) (firstOccurrences l).
Proof.
  revert s. induction l as [|x l IH]; intros s; cbn [fold_left firstOccurrences].
  - cbn. now rewrite app_nil_r.
  - rewrite IH. unfold Set_add. cbn [filter].
    destruct (Array_includes s x) eqn:Hin; cbn [negb].
    + f_equal. rewrite filter_filter. apply filter_ext. intros y.
      destruct (String.eqb_spec y x) as [->|Hne]; cbn [negb andb]; [now rewrite Hin|reflexivity].
    + rewrite <- app_assoc. cbn [app]. do 2 f_equal.
      rewrite filter_filter. apply filter_ext. intros y.
      rewrite Array_includes_app. unfold Array_includes at 2. cbn [existsb].
      rewrite orb_false_r, negb_orb, andb_comm. reflexivity.
Qed.

Lemma extractTagsTask_occurrences :
  forall t acc, extractTagsTask t acc = fold_left Set_add (flat_map tags (flattenTask t)) acc.
Proof.
  induction t as [i ti c co ta r subs pa IH] using Task_tree_ind. intros acc.
  cbn [extractTagsTask flattenTask flat_map subtasks tags].
  rewrite fold_left_app. generalize (fold_left Set_add ta acc) as acc0.
  induction IH as [|s subs' Hs Hsubs IHsubs]; intros acc0; [reflexivity|].
  cbn [fold_left flat_map]. rewrite flat_map_app, fold_left_app, <- Hs. apply IHsubs.
Qed.

Lemma extractTags_occurrences (ts : list Task) (acc : list string) :
  extractTags ts acc = fold_left Set_add (tagOccurrences ts) acc.
Proof.
  unfold extractTags, tagOccurrences, flatten. revert acc.
  induction ts as [|t ts IH]; intros acc; [reflexivity|].
  cbn [fold_left flat_map]. rewrite flat_map_app, fold_left_app.
  rewrite <- extractTagsTask_occurrences. apply IH.
Qed.

Lemma getAllTags_In (ts : list Task) (t : string) :
  In t (getAllTags ts) <-> exists task, In task (flatten ts) /\ In t (tags task).
Proof.
  unfold getAllTags. rewrite extractTags_occurrences, fold_Set_add_In.
  unfold tagOccurrences. rewrite in_flat_map. cbn [In]. intuition.
Qed.

(** X1. [getAllTags] lists every tag that some task of the tree carries,
    at any depth, and nothing else; it lists each tag once; and it lists the
    tags in the order of their first occurrence in the tree (a task before
    its subtasks, in document order). *)
Theorem getAllTags_lists_each_tag_once (ts : list Task) :
  NoDup (getAllTags ts) /\
  (forall t, In t (getAllTags ts) <->
             exists task, In task (flatten ts) /\ In t (tags task)) /\
  getAllTags ts = firstOccurrences (tagOccurrences ts).
Proof.
  split; [|split; [intros t; apply getAllTags_In|]];
    unfold getAllTags; rewrite extractTags_occurrences.
  - apply fold_Set_add_NoDup. constructor.
  - rewrite fold_Set_add_first. cbn [app]. unfold Array_includes. cbn [existsb negb].
    induction (firstOccurrences (tagOccurrences ts)) as [|x l IH]; [reflexivity|].
    cbn [filter]. now rewrite IH.
Qed.

(** ** The criteria of the view *)

Lemma flatten_leaves (l : list Task) :
  Forall (fun s => subtasks s = []) l -> flatten l = l.
Proof.
  intros Hl. induction Hl as [|s l Hs Hl IH]; [reflexivity|].
  rewrite flatten_cons, Hs, IH. reflexivity.
Qed.

Lemma flatten_singleLevel (ts : list Task) (task : Task) :
  singleLevel ts -> In task (flatten ts) ->
  exists top, In top ts /\ (task = top \/ In task (subtasks top)).
Proof.
  intros Hlevel. induction Hlevel as [|t ts Ht Hts IH]; intros Hin; [contradiction|].
  rewrite flatten_cons, (flatten_leaves _ Ht) in Hin.
  destruct Hin as [<-|Hin]; [exists t; split; [now left|now left]|].
  apply in_app_or in Hin. destruct Hin as [Hin|Hin].
  - exists t. split; [now left|now right].
  - destruct (IH Hin) as (top & Htop & Hor). exists top. split; [now right|exact Hor].
Qed.

Lemma filteredTasks_nil (lc : string -> string -> Z) (now : Z) (filters : FilterState)
    (ts : list Task) :
  (forall t, In t ts -> keepTask now filters t = false) ->
  filteredTasks lc now filters ts = [].
Proof.
  intros Hnone. destruct (filteredTasks lc now filters ts) as [|t l] eqn:Hview; [reflexivity|].
  assert (Hin : In t (filteredTasks lc now filters ts)) by (rewrite Hview; now left).
  apply filteredTasks_In in Hin. destruct Hin as [Hin Hkeep].
  rewrite (Hnone t Hin) in Hkeep. discriminate Hkeep.
Qed.

Lemma keepTask_tag (now : Z) (tg : string) (by_ : SortBy) (task : Task) :
  tg <> "all" ->
  keepTask now (tagFilters tg by_) task =
  Array_includes (tags task) tg
  || existsb (fun subtask => Array_includes (tags subtask) tg) (subtasks task).
Proof.
  intros Hne. unfold keepTask, tagFilters. cbn [search tag status].
  change (truthyString "") with false. cbn [negb andb].
  destruct (String.eqb_spec tg "all") as [Heq|_]; [contradiction|]. cbn [negb andb].
  destruct (Array_includes (tags task) tg); cbn [negb andb orb]; [reflexivity|].
  now destruct (existsb _ (subtasks task)).
Qed.

(** X2. With only the tag criterion set, to a tag other than "all", the
    view shows exactly the top-level tasks that carry the tag or have a
    direct subtask that carries it. So in a tree with one level of subtasks
    every tag that [getAllTags] offers selects at least one task, and a tag
    that [getAllTags] does not offer selects none. *)
Theorem tag_filter_selects (lc : string -> string -> Z) (now : Z) (by_ : SortBy)
    (ts : list Task) (tg : string) :
  tg <> "all" ->
  (forall top, In top (filteredTasks lc now (tagFilters tg by_) ts) <->
               In top ts /\
               (In tg (tags top) \/ exists s, In s (subtasks top) /\ In tg (tags s))) /\
  (singleLevel ts -> In tg (getAllTags ts) ->
   filteredTasks lc now (tagFilters tg by_) ts <> []) /\
  (~ In tg (getAllTags ts) -> filteredTasks lc now (tagFilters tg by_) ts = []).
Proof.
  intros Hne.
  assert (Hiff : forall top, In top (filteredTasks lc now (tagFilters tg by_) ts) <->
                 In top ts /\
                 (In tg (tags top) \/ exists s, In s (subtasks top) /\ In tg (tags s))).
  { intros top. rewrite filteredTasks_In, keepTask_tag by exact Hne.
    rewrite orb_true_iff, Array_includes_In, existsb_exists.
    split; intros [Hin [H|(s & Hs & Htag)]]; (split; [exact Hin|]); auto;
      right; exists s; (split; [exact Hs|]); now apply Array_includes_In. }
  split; [exact Hiff|]. split.
  - intros Hlevel Htag Hempty. apply getAllTags_In in Htag.
    destruct Htag as (task & Htask & Hcarries).
    destruct (flatten_singleLevel ts task Hlevel Htask) as (top & Htop & Hor).
    assert (Hin : In top (filteredTasks lc now (tagFilters tg by_) ts)).
    { apply Hiff. split; [exact Htop|]. destruct Hor as [<-|Hsub]; [now left|].
      right. exists task. split; assumption. }
    rewrite Hempty in Hin. contradiction.
  - intros Hnot. apply filteredTasks_nil. intros t Ht.
    destruct (keepTask now (tagFilters tg by_) t) eqn:Hkeep; [|reflexivity].
    exfalso. apply Hnot. apply getAllTags_In.
    assert (Hin : In t (filteredTasks lc now (tagFilters tg by_) ts))
      by (apply filteredTasks_In; split; assumption).
    apply Hiff in Hin. destruct Hin as [_ [Hown|(s & Hs & Htag)]].
    + exists t. split; [now apply flatten_incl|exact Hown].
    + exists s. split; [|exact Htag].
      apply in_split in Ht. destruct Ht as (l1 & l2 & ->).
      rewrite flatten_app, flatten_cons. apply in_or_app. right. right.
      apply in_or_app. left. now apply flatten_incl.
Qed.

Lemma tag_filter_selects_witness :
  "bank" <> "all" /\
  filteredTasks codeUnitCompare 0 (tagFilters "bank" SortCreated) bankTree <> [] /\
  filteredTasks codeUnitCompare 0 (tagFilters "garden" SortCreated) bankTree = [].
Proof.
  split; [discriminate|]. split.
  - destruct (tag_filter_selects codeUnitCompare 0 SortCreated bankTree "bank")
      as (_ & Hsome & _); [discriminate|].
    apply Hsome; [exact (proj1 bankTree_valid)|].
    vm_compute. now left.
  - destruct (tag_filter_selects codeUnitCompare 0 SortCreated bankTree "garden")
      as (_ & _ & Hnone); [discriminate|].
    apply Hnone. vm_compute. intros [H|[H|[]]]; discriminate H.
Defined.

Lemma keepTask_status_cases (now : Z) (f : FilterState) (t : Task) :
  keepTask now (withStatus f StatusAll) t =
    keepTask now (withStatus f StatusCompleted) t
    || keepTask now (withStatus f StatusPending) t
    || keepTask now (withStatus f StatusOverdue) t /\
  keepTask now (withStatus f StatusPending) t
    && keepTask now (withStatus f StatusOverdue) t = false /\
  (subtasks t = [] ->
   keepTask now (withStatus f StatusCompleted) t
     && keepTask now (withStatus f StatusPending) t = false /\
   keepTask now (withStatus f StatusCompleted) t
     && keepTask now (withStatus f StatusOverdue) t = false).
Proof.
  unfold keepTask, withStatus. cbn [search tag status].
  destruct (truthyString (search f) && _ && _); [repeat split|].
  destruct (negb (String.eqb (tag f) "all") && _ && _); [repeat split|].
  unfold hasOverdueSubtasks, isOverdue.
  split; [|split].
  - destruct (completed t), (existsb completed (subtasks t)),
      (existsb _ (subtasks t)), (reminder t) as [d|];
      try destruct (Date_before d now); reflexivity.
  - destruct (completed t), (existsb _ (subtasks t)), (reminder t) as [d|];
      try destruct (Date_before d now); reflexivity.
  - intros ->. cbn [existsb].
    destruct (completed t), (reminder t) as [d|];
      try destruct (Date_before d now); split; reflexivity.
Qed.

(** X3. The three status views cover the unfiltered view: a task that
    passes the search and tag criteria is shown under "completed", under
    "pending" or under "overdue"; no task is shown both under "pending" and
    under "overdue"; and a task without subtasks is shown under exactly one
    of the three. (A task with subtasks can be shown under "completed" and
    under one of the other two.) *)
Theorem status_views_cover (lc : string -> string -> Z) (now : Z) (f : FilterState)
    (ts : list Task) (t : Task) :
  (In t (filteredTasks lc now (withStatus f StatusAll) ts) <->
   In t (filteredTasks lc now (withStatus f StatusCompleted) ts)
   \/ In t (filteredTasks lc now (withStatus f StatusPending) ts)
   \/ In t (filteredTasks lc now (withStatus f StatusOverdue) ts)) /\
  ~ (In t (filteredTasks lc now (withStatus f StatusPending) ts)
     /\ In t (filteredTasks lc now (withStatus f StatusOverdue) ts)) /\
  (subtasks t = [] ->
   ~ (In t (filteredTasks lc now (withStatus f StatusCompleted) ts)
      /\ In t (filteredTasks lc now (withStatus f StatusPending) ts))
   /\ ~ (In t (filteredTasks lc now (withStatus f StatusCompleted) ts)
         /\ In t (filteredTasks lc now (withStatus f StatusOverdue) ts))).
Proof.
  destruct (keepTask_status_cases now f t) as (Hcover & Hpo & Hleaf).
  rewrite !filteredTasks_In. rewrite Hcover, !orb_true_iff. split; [|split].
  - tauto.
  - intros [[_ Hp] [_ Ho]]. rewrite Hp, Ho in Hpo. discriminate Hpo.
  - intros Hsub. destruct (Hleaf Hsub) as [Hcp Hco]. split.
    + intros [[_ Hc] [_ Hp]]. rewrite Hc, Hp in Hcp. discriminate Hcp.
    + intros [[_ Hc] [_ Ho]]. rewrite Hc, Ho in Hco. discriminate Hco.
Qed.

Lemma status_views_cover_witness :
  subtasks (reminderTask "1" 500 false) = [] /\
  In (reminderTask "1" 500 false)
     (filteredTasks codeUnitCompare 1000 (withStatus defaultFilters StatusOverdue)
        reminderSample) /\
  ~ In (reminderTask "1" 500 false)
       (filteredTasks codeUnitCompare 1000 (withStatus defaultFilters StatusCompleted)
          reminderSample).
Proof.
  split; [reflexivity|].
  assert (Hin : In (reminderTask "1" 500 false)
                   (filteredTasks codeUnitCompare 1000
                      (withStatus defaultFilters StatusOverdue) reminderSample))
    by (vm_compute; now left).
  split; [exact Hin|].
  destruct (status_views_cover codeUnitCompare 1000 defaultFilters reminderSample
              (reminderTask "1" 500 false)) as (_ & _ & Hleaf).
  destruct (Hleaf eq_refl) as [_ Hco]. intros Hc. apply Hco. split; assumption.
Defined.

Lemma toLowerCase_truthy (s : string) : truthyString (toLowerCase s) = truthyString s.
Proof. destruct s; reflexivity. Qed.

Lemma lowerChar_idem (c : ascii) : lowerChar (lowerChar c) = lowerChar c.
Proof.
  destruct c as [[] [] [] [] [] [] [] []]; reflexivity.
Qed.

Lemma toLowerCase_idem (s : string) : toLowerCase (toLowerCase s) = toLowerCase s.
Proof.
  induction s as [|c s IH]; [reflexivity|].
  cbn [toLowerCase]. now rewrite lowerChar_idem, IH.
Qed.

Lemma keepTask_search_lower (now : Z) (f : FilterState) (text : string) (t : Task) :
  keepTask now (withSearch f text) t = keepTask now (withSearch f (toLowerCase text)) t.
Proof.
  unfold keepTask, withSearch. cbn [search tag status].
  now rewrite toLowerCase_idem, toLowerCase_truthy.
Qed.



(** ** [clearFilters] and [hasActiveFilters] *)

(** X5. The filters count as active exactly when they differ from the
    cleared ones, and after [clearFilters] the view shows every top-level
    task of the tree, each one once. *)
Theorem clearFilters_shows_all (lc : string -> string -> Z) (now : Z)
    (f : FilterState) (ts : list Task) :
  (hasActiveFilters f = false <-> f = clearFilters f) /\
  hasActiveFilters (clearFilters f) = false /\
  Permutation (filteredTasks lc now (clearFilters f) ts) ts.
Proof.
  split; [|split].
  - unfold clearFilters, hasActiveFilters, truthyString. split.
    + destruct f as [s tg st sb]. cbn [search tag status sortBy].
      destruct (String.eqb_spec s "") as [->|_]; [|discriminate].
      destruct (String.eqb_spec tg "all") as [->|_]; [|discriminate].
      destruct st, sb; try discriminate. reflexivity.
    + intros ->. reflexivity.
  - reflexivity.
  - unfold filteredTasks. rewrite Array_sort_perm.
    assert (Hall : filter (keepTask now (clearFilters f)) ts = ts).
    { induction ts as [|t ts IH]; [reflexivity|].
      cbn [filter]. change (keepTask now (clearFilters f) t) with true. now rewrite IH. }
    now rewrite Hall.
Qed.

(** ** The first version of the view *)

(** X6. The first version of the view matched one text against tags and
    titles at once: with the empty text it shows every task in the order of
    the tree, and with any other text (apart from "all") it shows a task
    iff the later view shows it with that text as the tag criterion or with
    that text as the search criterion. *)
Theorem first_view_is_tag_or_search (lc : string -> string -> Z) (now : Z)
    (by_ : SortBy) (ts : list Task) (text : string) (t : Task) :
  filteredTasksV1 "" ts = ts /\
  (text <> "" -> text <> "all" ->
   (In t (filteredTasksV1 text ts) <->
    In t (filteredTasks lc now (tagFilters text by_) ts)
    \/ In t (filteredTasks lc now (searchFilters text by_) ts))).
Proof.
  split.
  - unfold filteredTasksV1. induction ts as [|a l IH]; [reflexivity|].
    cbn [filter]. change (keepTaskV1 "" a) with true. now rewrite IH.
  - intros Hne Hall. unfold filteredTasksV1. rewrite filter_In, !filteredTasks_In.
    rewrite keepTask_tag by exact Hall.
    unfold keepTask, searchFilters, keepTaskV1. cbn [search tag status].
    change (negb (String.eqb "all" "all")) with false. cbn [andb].
    rewrite (truthyString_nonempty text Hne). cbn [negb andb].
    assert (Hex : existsb (fun subtask =>
                    Array_includes (tags subtask) text
                    || includes (toLowerCase (title subtask)) (toLowerCase text))
                    (subtasks t)
                  = existsb (fun subtask => Array_includes (tags subtask) text) (subtasks t)
                    || existsb (fun subtask =>
                         includes (toLowerCase (title subtask)) (toLowerCase text))
                         (subtasks t)).
    { induction (subtasks t) as [|s l IH]; [reflexivity|].
      cbn [existsb]. rewrite IH.
      destruct (Array_includes (tags s) text), (includes _ _), (existsb _ l), (existsb _ l);
        reflexivity. }
    rewrite Hex. clear Hex.
    set (a := Array_includes (tags t) text).
    set (b := includes (toLowerCase (title t)) (toLowerCase text)).
    set (c := existsb (fun subtask => Array_includes (tags subtask) text) (subtasks t)).
    set (d := existsb (fun subtask =>
                includes (toLowerCase (title subtask)) (toLowerCase text)) (subtasks t)).
    destruct a, b, c, d; cbn [negb andb orb]; intuition congruence.
Qed.

Lemma first_view_is_tag_or_search_witness :
  "bank" <> "" /\ "bank" <> "all" /\
  In (nth 0 bankTree (reminderTask "" 0 false)) (filteredTasksV1 "bank" bankTree).
Proof.
  split; [discriminate|]. split; [discriminate|].
  destruct (first_view_is_tag_or_search codeUnitCompare 0 SortCreated bankTree "bank"
              (nth 0 bankTree (reminderTask "" 0 false))) as [_ Hiff].
  apply Hiff; [discriminate|discriminate|]. left. vm_compute. now left.
Defined.

(** ** [deleteTask] and [updateTask] applied repeatedly *)

Lemma deleteTaskNode_kept (x : string) (t : Task) :
  deleteTaskNode x t =
  if String.eqb (id t) x then None
  else Some (withSubtasks t (deleteTaskRecursive x (subtasks t))).
Proof.
  rewrite deleteTaskNode_unfold. destruct (String.eqb (id t) x); [reflexivity|].
  destruct (subtasks t) eqn:Hsub; [|reflexivity].
  cbn. now rewrite <- Hsub, withSubtasks_same.
Qed.

Lemma countId_deleted (x : string) :
  forall ts, countId x (deleteTaskRecursive x ts) = 0%nat.
Proof.
  assert (Hnode : forall t, countId x (keepList (deleteTaskNode x t)) = 0%nat).
  { induction t as [i ti c co ta r subs pa IH] using Task_tree_ind.
    rewrite deleteTaskNode_kept. cbn [id subtasks].
    destruct (String.eqb i x) eqn:Hix; [reflexivity|].
    cbn [keepList]. rewrite countId_cons, countId_nil. cbn [id subtasks withSubtasks].
    rewrite Hix.
    assert (Hsub : countId x (deleteTaskRecursive x subs) = 0%nat).
    { induction IH as [|s l Hs Hl IHl]; [reflexivity|].
      rewrite deleteTaskRecursive_cons, countId_app, Hs, IHl. reflexivity. }
    lia. }
  induction ts as [|a l IHl]; [reflexivity|].
  rewrite deleteTaskRecursive_cons, countId_app, Hnode, IHl. reflexivity.
Qed.

Lemma deleteTask_commute_lists (x y : string) (l : list Task) :
  Forall (fun t => deleteTaskRecursive y (keepList (deleteTaskNode x t))
                   = deleteTaskRecursive x (keepList (deleteTaskNode y t))) l ->
  deleteTaskRecursive y (deleteTaskRecursive x l)
  = deleteTaskRecursive x (deleteTaskRecursive y l).
Proof.
  intros Hl. induction Hl as [|t l Ht Hl IH]; [reflexivity|].
  rewrite !deleteTaskRecursive_cons, !deleteTaskRecursive_app, Ht, IH. reflexivity.
Qed.

Lemma deleteTaskNode_commute (x y : string) :
  forall t, deleteTaskRecursive y (keepList (deleteTaskNode x t))
            = deleteTaskRecursive x (keepList (deleteTaskNode y t)).
Proof.
  induction t as [i ti c co ta r subs pa IH] using Task_tree_ind.
  rewrite !deleteTaskNode_kept. cbn [id subtasks].
  destruct (String.eqb i x) eqn:Hix, (String.eqb i y) eqn:Hiy; cbn [keepList].
  - reflexivity.
  - rewrite deleteTaskRecursive_cons, deleteTaskNode_kept. cbn [id withSubtasks].
    now rewrite Hix.
  - rewrite deleteTaskRecursive_cons, deleteTaskNode_kept. cbn [id withSubtasks].
    now rewrite Hiy.
  - rewrite !deleteTaskRecursive_cons, !deleteTaskNode_kept.
    cbn [id subtasks withSubtasks]. rewrite Hix, Hiy. cbn [keepList app].
    unfold withSubtasks. cbn [id title completed color tags reminder parentId].
    rewrite (deleteTask_commute_lists x y subs IH). reflexivity.
Qed.

(** X7. [deleteTask] removes every task that bears the id, at any depth
    and however many there are (when two tasks share an id, both go),
    together with what is nested under them; deleting the same id again
    changes nothing; and two deletions give the same tree in either
    order. *)
Theorem deleteTask_removes_all_and_commutes (x y : string) (t : list Task) :
  ~ In x (allIds (deleteTask x t)) /\
  deleteTask x (deleteTask x t) = deleteTask x t /\
  deleteTask y (deleteTask x t) = deleteTask x (deleteTask y t).
Proof.
  assert (Hgone : ~ In x (allIds (deleteTask x t))).
  { apply countId_zero. apply countId_deleted. }
  split; [exact Hgone|]. split.
  - unfold deleteTask in *. now apply deleteTaskRecursive_absent.
  - unfold deleteTask. apply deleteTask_commute_lists.
    apply Forall_forall. intros a _. apply deleteTaskNode_commute.
Qed.

Lemma merge_idem (task : Task) (p : TaskUpdates) : merge (merge task p) p = merge task p.
Proof.
  unfold merge. cbn [id title completed color tags reminder subtasks parentId].
  destruct p as [ui ut uc uco uta ur us up]. cbn.
  destruct ui, ut, uc, uco, uta, ur, us, up; reflexivity.
Qed.

Lemma updateTaskNode_idem (x : string) (p : TaskUpdates) :
  u_id p = None ->
  forall t, updateTaskNode x p (updateTaskNode x p t) = updateTaskNode x p t.
Proof.
  intros Hi. induction t as [i ti c co ta r subs pa IH] using Task_tree_ind.
  rewrite (updateTaskNode_unfold x p (mkTask i ti c co ta r subs pa)). cbn [id subtasks].
  destruct (String.eqb i x) eqn:Hix.
  - rewrite updateTaskNode_unfold. unfold merge at 1. cbn [id]. rewrite Hi, Hix.
    apply merge_idem.
  - destruct subs as [|s subs'].
    + rewrite updateTaskNode_unfold. cbn [id subtasks]. now rewrite Hix.
    + rewrite updateTaskNode_unfold. cbn [id subtasks withSubtasks]. rewrite Hix.
      unfold updateTaskRecursive. cbn [map]. unfold withSubtasks.
      cbn [id title completed color tags reminder parentId]. f_equal.
      inversion IH as [|? ? Hs Hsubs]; subst. rewrite Hs. f_equal.
      rewrite map_map. apply map_ext_in. intros a Ha.
      rewrite Forall_forall in Hsubs. now apply Hsubs.
Qed.

(** X8. An update that does not name the member [id] has the same effect
    applied twice as applied once. *)
Theorem updateTask_twice (x : string) (p : TaskUpdates) (t : list Task) :
  u_id p = None ->
  updateTask x p (updateTask x p t) = updateTask x p t.
Proof.
  intros Hi. unfold updateTask, updateTaskRecursive. rewrite map_map.
  apply map_ext. intros a. now apply updateTaskNode_idem.
Qed.

Lemma updateTask_twice_witness :
  u_id markDone = None /\
  updateTask "2000" markDone (updateTask "2000" markDone milkTree)
  = updateTask "2000" markDone milkTree.
Proof.
  split; [reflexivity|]. exact (updateTask_twice "2000" markDone milkTree eq_refl).
Defined.

(** ** The checkbox of an item *)

Lemma countId_same_ids (y : string) (a b : Task) :
  id a = id b -> subtasks a = subtasks b -> countId y [a] = countId y [b].
Proof. intros Hi Hs. rewrite !countId_cons, Hi, Hs. reflexivity. Qed.

(** X9. Ticking the checkbox of a task, the only one with its id, flips
    its [completed] member and nothing else in the tree (the subtasks of the
    task are not completed with it), and ticking the checkbox of the task as
    it is shown afterwards restores the tree. *)
Theorem toggle_twice_restores (c : Ctx) (task : Task) :
  countId (id task) (plug c task) = 1%nat ->
  let toggled := merge task (snd (handleToggleComplete task)) in
  updateTask (fst (handleToggleComplete task)) (snd (handleToggleComplete task))
             (plug c task) = plug c toggled /\
  toggled = mkTask (id task) (title task) (negb (completed task)) (color task)
                   (tags task) (reminder task) (subtasks task) (parentId task) /\
  updateTask (fst (handleToggleComplete toggled)) (snd (handleToggleComplete toggled))
             (plug c toggled) = plug c task.
Proof.
  intros Hcnt toggled.
  assert (Hshape : toggled = mkTask (id task) (title task) (negb (completed task))
                               (color task) (tags task) (reminder task)
                               (subtasks task) (parentId task)) by reflexivity.
  split; [|split; [exact Hshape|]].
  - cbn [fst snd handleToggleComplete]. now apply updateTask_plug.
  - cbn [fst snd handleToggleComplete].
    rewrite (updateTask_plug (id toggled)) ; [|reflexivity|].
    + f_equal. rewrite Hshape. unfold merge. cbn. rewrite negb_involutive.
      now destruct task.
    + rewrite countId_plug_split.
      rewrite countId_plug_split in Hcnt.
      rewrite (countId_same_ids (id toggled) toggled task) by (rewrite Hshape; reflexivity).
      rewrite Hshape. cbn [id]. exact Hcnt.
Qed.

Lemma toggle_twice_restores_witness :
  let task := nth 0 milkTree (reminderTask "" 0 false) in
  let toggled := merge task (snd (handleToggleComplete task)) in
  countId (id task) (plug (Here [] []) task) = 1%nat /\
  updateTask (fst (handleToggleComplete toggled)) (snd (handleToggleComplete toggled))
             (updateTask (fst (handleToggleComplete task)) (snd (handleToggleComplete task))
                         milkTree)
  = milkTree.
Proof.
  intros task toggled. split; [reflexivity|].
  destruct (toggle_twice_restores (Here [] []) task eq_refl) as (H1 & _ & H2).
  change milkTree with (plug (Here [] []) task).
  rewrite H1. exact H2.
Defined.

(** ** [trim] and the tags of a dialog *)

Lemma skipWhiteSpace_clean (s : string) : startsClean (skipWhiteSpace s).
Proof.
  induction s as [|c s IH]; [exact I|].
  cbn [skipWhiteSpace]. destruct (isWhiteSpace c) eqn:Hc; [exact IH|exact Hc].
Qed.

Lemma skipWhiteSpace_id (s : string) : startsClean s -> skipWhiteSpace s = s.
Proof. destruct s as [|c s]; [reflexivity|]. cbn. now intros ->. Qed.

Lemma trimEnd_clean (s : string) : startsClean s -> startsClean (trimEnd s).
Proof.
  destruct s as [|c s]; [exact (fun H => H)|]. cbn [startsClean trimEnd]. intros Hc.
  rewrite Hc. now destruct (trimEnd s).
Qed.

Lemma trimEnd_idem (s : string) : trimEnd (trimEnd s) = trimEnd s.
Proof.
  induction s as [|c s IH]; [reflexivity|].
  cbn [trimEnd]. destruct (trimEnd s) as [|c' r] eqn:Hr.
  - destruct (isWhiteSpace c) eqn:Hc; [reflexivity|]. cbn [trimEnd]. now rewrite Hc.
  - cbn [trimEnd]. cbn [trimEnd] in IH. rewrite IH. reflexivity.
Qed.

Lemma trim_idem (s : string) : trim (trim s) = trim s.
Proof.
  unfold trim. rewrite skipWhiteSpace_id.
  - apply trimEnd_idem.
  - apply trimEnd_clean, skipWhiteSpace_clean.
Qed.

Lemma filter_absent (x : string) (l : list string) :
  ~ In x l -> filter (fun t => negb (String.eqb t x)) l = l.
Proof.
  induction l as [|a l IH]; intros Hnot; [reflexivity|].
  cbn [filter]. destruct (String.eqb_spec a x) as [->|Hne].
  - exfalso. apply Hnot. now left.
  - cbn [negb]. f_equal. apply IH. intros H. apply Hnot. now right.
Qed.



(** ** Properties of tasks that every operation keeps *)

Section KeepsProperty.

Variable P : Task -> Prop.
Hypothesis P_subtasks : forall t s, P t -> P (withSubtasks t s).

Lemma Forall_flatten_addTask (now : Z) (data : TaskData) (parent : option string)
    (ts : list Task) :
  P (newTask now data parent) ->
  Forall P (flatten ts) -> Forall P (flatten (addTask now data parent ts)).
Proof.
  intros Hnew Hts.
  assert (Happ : Forall P (flatten (ts ++ [newTask now data parent]))).
  { rewrite flatten_app. apply Forall_app. split; [exact Hts|].
    rewrite flatten_cons. cbn. constructor; [exact Hnew|constructor]. }
  unfold addTask. destruct parent as [p|]; [|exact Happ].
  destruct (truthyString p); [|exact Happ]. clear Happ.
  induction ts as [|a l IH]; [constructor|].
  cbn [map]. rewrite flatten_cons in Hts. inversion Hts as [|? ? Ha Hrest]; subst.
  apply Forall_app in Hrest. destruct Hrest as [Hsubs Hl].
  rewrite flatten_cons. destruct (String.eqb (id a) p).
  - constructor; [now apply P_subtasks|]. cbn [subtasks withSubtasks].
    apply Forall_app. split; [|now apply IH].
    rewrite flatten_app. apply Forall_app. split; [exact Hsubs|].
    rewrite flatten_cons. cbn. constructor; [exact Hnew|constructor].
  - constructor; [exact Ha|]. apply Forall_app. split; [exact Hsubs|now apply IH].
Qed.

Lemma Forall_flatten_nodes (f : Task -> list Task) (l : list Task) :
  Forall (fun t => Forall P (flatten [t]) -> Forall P (flatten (f t))) l ->
  Forall P (flatten l) -> Forall P (flatten (flat_map f l)).
Proof.
  intros Hf. induction Hf as [|a l Ha Hl IH]; intros Hts; [constructor|].
  rewrite flatten_cons in Hts. inversion Hts as [|? ? Hhead Hrest]; subst.
  apply Forall_app in Hrest. destruct Hrest as [Hsa Hsl].
  cbn [flat_map]. rewrite flatten_app. apply Forall_app. split; [|now apply IH].
  apply Ha. rewrite flatten_cons. cbn [flatten flat_map]. rewrite app_nil_r.
  constructor; assumption.
Qed.

Lemma map_as_flat_map (g : Task -> Task) (l : list Task) :
  map g l = flat_map (fun t => [g t]) l.
Proof. induction l as [|a l IH]; [reflexivity|]. cbn. now rewrite IH. Qed.

Lemma Forall_flatten_updateTask (x : string) (p : TaskUpdates) (ts : list Task) :
  u_subtasks p = None -> (forall t, P t -> P (merge t p)) ->
  Forall P (flatten ts) -> Forall P (flatten (updateTask x p ts)).
Proof.
  intros Hsub Hmerge.
  assert (Hnode : forall t, Forall P (flatten [t]) ->
                            Forall P (flatten [updateTaskNode x p t])).
  { induction t as [i ti c co ta r subs pa IH] using Task_tree_ind. intros Ht.
    rewrite flatten_cons in Ht. cbn [subtasks flatten flat_map] in Ht.
    rewrite app_nil_r in Ht. inversion Ht as [|? ? Hhead Hsubs]; subst.
    rewrite updateTaskNode_unfold. cbn [id subtasks].
    rewrite flatten_cons. cbn [flatten flat_map]. rewrite app_nil_r.
    destruct (String.eqb i x).
    - constructor; [now apply Hmerge|].
      unfold merge. cbn [subtasks]. rewrite Hsub. exact Hsubs.
    - destruct subs as [|s subs']; [constructor; [exact Hhead|constructor]|].
      constructor; [now apply (P_subtasks _ _ Hhead)|].
      cbn [subtasks withSubtasks]. unfold updateTaskRecursive.
      rewrite map_as_flat_map. now apply Forall_flatten_nodes. }
  intros Hts. unfold updateTask, updateTaskRecursive. rewrite map_as_flat_map.
  apply Forall_flatten_nodes; [|exact Hts].
  apply Forall_forall. intros t _. apply Hnode.
Qed.

Lemma Forall_flatten_deleteTask (x : string) (ts : list Task) :
  Forall P (flatten ts) -> Forall P (flatten (deleteTask x ts)).
Proof.
  assert (Hnode : forall t, Forall P (flatten [t]) ->
                            Forall P (flatten (keepList (deleteTaskNode x t)))).
  { induction t as [i ti c co ta r subs pa IH] using Task_tree_ind. intros Ht.
    rewrite flatten_cons in Ht. cbn [subtasks flatten flat_map] in Ht.
    rewrite app_nil_r in Ht. inversion Ht as [|? ? Hhead Hsubs]; subst.
    rewrite deleteTaskNode_unfold. cbn [id subtasks].
    destruct (String.eqb i x); [constructor|].
    destruct subs as [|s subs']; cbn [keepList].
    - rewrite flatten_cons. cbn. constructor; [exact Hhead|constructor].
    - rewrite flatten_cons. cbn [flatten flat_map]. rewrite app_nil_r.
      constructor; [now apply (P_subtasks _ _ Hhead)|].
      cbn [subtasks withSubtasks].
      change (deleteTaskRecursive x (s :: subs'))
        with (flat_map (fun t => keepList (deleteTaskNode x t)) (s :: subs')).
      now apply Forall_flatten_nodes. }
  intros Hts. unfold deleteTask.
  change (deleteTaskRecursive x ts)
    with (flat_map (fun t => keepList (deleteTaskNode x t)) ts).
  apply Forall_flatten_nodes; [|exact Hts].
  apply Forall_forall. intros t _. apply Hnode.
Qed.

Lemma Forall_flatten_fold (ops : list Op) :
  Forall (opKeeps P) ops ->
  forall ts, Forall P (flatten ts) -> Forall P (flatten (fold_left applyOp ops ts)).
Proof.
  intros Hops. induction Hops as [|op ops Hop Hops IH]; intros ts Hts; [exact Hts|].
  cbn [fold_left]. apply IH.
  destruct op as [now data parent|x p|x]; cbn [applyOp opKeeps] in *.
  - now apply Forall_flatten_addTask.
  - destruct Hop as [Hsub Hmerge]. now apply Forall_flatten_updateTask.
  - now apply Forall_flatten_deleteTask.
Qed.

End KeepsProperty.

(** ** What the events of the components do to the tree *)

Lemma parentId_updateTaskNode (x : string) (p : TaskUpdates) (t : Task) :
  u_parentId p = None -> parentId (updateTaskNode x p t) = parentId t.
Proof.
  intros Hp. rewrite updateTaskNode_unfold. destruct (String.eqb (id t) x).
  - unfold merge. cbn [parentId]. now rewrite Hp.
  - now destruct (subtasks t).
Qed.

Lemma id_updateTaskNode (x : string) (p : TaskUpdates) (t : Task) :
  u_id p = None -> id (updateTaskNode x p t) = id t.
Proof.
  intros Hp. rewrite updateTaskNode_unfold. destruct (String.eqb (id t) x).
  - unfold merge. cbn [id]. now rewrite Hp.
  - now destruct (subtasks t).
Qed.

Lemma subtasks_updateTaskNode (x : string) (p : TaskUpdates) (t : Task) :
  u_subtasks p = None ->
  subtasks (updateTaskNode x p t) = subtasks t \/
  subtasks (updateTaskNode x p t) = map (updateTaskNode x p) (subtasks t).
Proof.
  intros Hp. rewrite updateTaskNode_unfold. destruct (String.eqb (id t) x).
  - left. unfold merge. cbn [subtasks]. now rewrite Hp.
  - destruct (subtasks t) eqn:Hsub; [left; exact Hsub|right; reflexivity].
Qed.

Lemma subtasksNameParent_addTask (now : Z) (data : TaskData) (parent : option string)
    (ts : list Task) :
  subtasksNameParent ts -> subtasksNameParent (addTask now data parent ts).
Proof.
  intros Hts.
  assert (Happ : subtasksNameParent (ts ++ [newTask now data parent])).
  { apply Forall_app. split; [exact Hts|]. constructor; [constructor|constructor]. }
  unfold addTask. destruct parent as [p|]; [|exact Happ].
  destruct (truthyString p); [|exact Happ]. clear Happ.
  unfold subtasksNameParent in *.
  induction Hts as [|a l Ha Hl IH]; cbn [map]; constructor; [|exact IH].
  destruct (String.eqb_spec (id a) p) as [Heq|_]; [|exact Ha].
  cbn [subtasks id withSubtasks]. apply Forall_app. split; [exact Ha|].
  constructor; [|constructor]. cbn [newTask parentId]. now rewrite Heq.
Qed.

Lemma subtasksNameParent_updateTask (x : string) (p : TaskUpdates) (ts : list Task) :
  u_id p = None -> u_parentId p = None -> u_subtasks p = None ->
  subtasksNameParent ts -> subtasksNameParent (updateTask x p ts).
Proof.
  intros Hi Hp Hs Hts. unfold updateTask, updateTaskRecursive, subtasksNameParent in *.
  apply Forall_map. eapply Forall_impl; [|exact Hts].
  intros t Ht. cbn beta. rewrite (id_updateTaskNode x p t Hi).
  destruct (subtasks_updateTaskNode x p t Hs) as [-> | ->]; [exact Ht|].
  apply Forall_map. eapply Forall_impl; [|exact Ht].
  intros s Hsx. cbn beta. now rewrite (parentId_updateTaskNode x p s Hp).
Qed.

Lemma deleteTaskRecursive_In (x : string) (l : list Task) (s' : Task) :
  In s' (deleteTaskRecursive x l) ->
  exists s, In s l /\ s' = withSubtasks s (deleteTaskRecursive x (subtasks s)).
Proof.
  unfold deleteTaskRecursive at 1. rewrite in_flat_map. intros (s & Hin & Hs).
  exists s. split; [exact Hin|].
  rewrite deleteTaskNode_kept in Hs. destruct (String.eqb (id s) x); [contradiction|].
  destruct Hs as [<-|[]]. reflexivity.
Qed.

Lemma subtasksNameParent_deleteTask (x : string) (ts : list Task) :
  subtasksNameParent ts -> subtasksNameParent (deleteTask x ts).
Proof.
  unfold deleteTask, subtasksNameParent. rewrite !Forall_forall.
  intros Hts t' Hin. apply deleteTaskRecursive_In in Hin.
  destruct Hin as (t & Hin & ->). cbn [subtasks id withSubtasks].
  apply Forall_forall. intros s' Hs'. apply deleteTaskRecursive_In in Hs'.
  destruct Hs' as (s & Hs & ->). cbn [parentId withSubtasks].
  specialize (Hts t Hin). rewrite Forall_forall in Hts. now apply Hts.
Qed.

Lemma subtasksNameParent_fold (ops : list Op) :
  Forall keepsParents ops ->
  forall ts, subtasksNameParent ts -> subtasksNameParent (fold_left applyOp ops ts).
Proof.
  intros Hops. induction Hops as [|op ops Hop Hops IH]; intros ts Hts; [exact Hts|].
  cbn [fold_left]. apply IH.
  destruct op as [now data parent|x p|x]; cbn [applyOp keepsParents] in *.
  - now apply subtasksNameParent_addTask.
  - destruct Hop as (Hi & Hp & Hs). now apply subtasksNameParent_updateTask.
  - now apply subtasksNameParent_deleteTask.
Qed.

Lemma properTitle_trim (s : string) :
  truthyString (trim s) = true -> trimmedNonEmpty (trim s).
Proof.
  intros H. split; [|apply trim_idem].
  intros Heq. rewrite Heq in H. discriminate H.
Qed.

(** The operation of an event of the components: it names neither [id],
    [parentId] nor [subtasks], and the title it gives is trimmed and not
    empty. *)
Lemma opOfEvent_shape (other : string -> Date) (e : UiEvent) (op : Op) :
  opOfEvent other e = Some op ->
  keepsNesting op /\ keepsIds op /\ keepsParents op /\ opKeeps properTitle op.
Proof.
  destruct e as [now form|now task form|task form|task|task c|task];
    cbn [opOfEvent]; unfold AddTaskDialog_handleSubmit, EditTaskDialog_handleSubmit.
  - destruct (truthyString (trim (form_title form))) eqn:Ht; cbn [negb fst]; [|discriminate].
    intros [= <-]. split; [exact I|split; [exact I|split; [exact I|]]].
    now apply properTitle_trim.
  - destruct (truthyString (trim (form_title form))) eqn:Ht; cbn [negb fst]; [|discriminate].
    intros [= <-]. split; [exact I|split; [exact I|split; [exact I|]]].
    now apply properTitle_trim.
  - destruct (truthyString (trim (form_title form))) eqn:Ht; cbn [negb]; [|discriminate].
    intros [= <-]. split; [reflexivity|split; [reflexivity|split; [repeat split|]]].
    split; [reflexivity|]. intros t _. now apply properTitle_trim.
  - intros [= <-]. split; [reflexivity|split; [reflexivity|split; [repeat split|]]].
    split; [reflexivity|]. intros t Ht. exact Ht.
  - intros [= <-]. split; [reflexivity|split; [reflexivity|split; [repeat split|]]].
    split; [reflexivity|]. intros t Ht. exact Ht.
  - intros [= <-]. repeat split.
Qed.

Lemma opsOfEvents_shape (other : string -> Date) (events : list UiEvent) :
  Forall (fun op => keepsNesting op /\ keepsIds op /\ keepsParents op /\
                    opKeeps properTitle op) (opsOfEvents other events).
Proof.
  unfold opsOfEvents. apply Forall_flat_map. apply Forall_forall. intros e _.
  destruct (opOfEvent other e) as [op|] eqn:He; [|constructor].
  constructor; [|constructor]. now apply (opOfEvent_shape other e).
Qed.

Lemma runEvents_app (other : string -> Date) (events more : list UiEvent) :
  runEvents other (events ++ more)
  = fold_left applyOp (opsOfEvents other more) (runEvents other events).
Proof.
  unfold runEvents, runOps, opsOfEvents. now rewrite flat_map_app, fold_left_app.
Qed.



Lemma countId_twice (p : string) (top sub : Task) (ts : list Task) :
  In top ts -> In sub (subtasks top) -> id sub = p -> In p (map id ts) ->
  (2 <= countId p ts)%nat.
Proof.
  intros Htop Hsub Hid. induction ts as [|a l IH]; intros Hp; [contradiction|].
  rewrite countId_cons. cbn [map] in Hp.
  assert (Hinner : (1 <= countId p (subtasks top))%nat).
  { apply countId_top. rewrite <- Hid. now apply in_map. }
  destruct Htop as [->|Htop].
  - destruct Hp as [Hp|Hp].
    + rewrite Hp, String.eqb_refl. lia.
    + apply countId_top in Hp. lia.
  - assert (Hl : (1 <= countId p l)%nat).
    { apply countId_pos. unfold allIds. rewrite <- Hid. apply in_map.
      assert (Hflat : forall ts0, In top ts0 -> In sub (flatten ts0)).
      { induction ts0 as [|b l0 IH0]; intros Hin; [contradiction|].
        rewrite flatten_cons. destruct Hin as [->|Hin].
        - right. apply in_or_app. left. now apply flatten_incl.
        - right. apply in_or_app. right. now apply IH0. }
      now apply Hflat. }
    destruct Hp as [Hp|Hp].
    + rewrite Hp, String.eqb_refl. lia.
    + specialize (IH Htop Hp). lia.
Qed.

(** X12. When no two additions read the same clock value, whatever the
    user does keeps the ids of the tree distinct, every id is the decimal
    text of the clock reading of an addition, and submitting the add dialog
    that a subtask opens ("add subtask" on a subtask) leaves the tree as it
    is: the new task is not stored anywhere. *)
Theorem ui_history_ids (other : string -> Date) (events : list UiEvent) :
  NoDup (clockReadings (opsOfEvents other events)) ->
  uniqueIds (runEvents other events) /\
  (forall task, In task (flatten (runEvents other events)) ->
     exists n, In n (clockReadings (opsOfEvents other events)) /\
               id task = Number_toString n) /\
  (forall top sub now form,
     In top (runEvents other events) -> In sub (subtasks top) ->
     runEvents other (events ++ [SubmitNewSubtask now sub form])
     = runEvents other events).
Proof.
  intros Hnd. assert (Hshape := opsOfEvents_shape other events).
  assert (Hids : idsFrom ([] ++ clockReadings (opsOfEvents other events))
                         (runEvents other events)).
  { apply idsFrom_fold.
    - eapply Forall_impl; [|exact Hshape]. now intros op (H & _).
    - eapply Forall_impl; [|exact Hshape]. now intros op (_ & H & _).
    - exact Hnd.
    - split; [intros y; rewrite countId_nil; lia|intros y []]. }
  cbn [app] in Hids. destruct Hids as [Hcount Hfrom].
  split; [now apply uniqueIds_count|]. split.
  - intros task Hin. apply Hfrom. unfold allIds. now apply in_map.
  - intros top sub now form Htop Hsub. rewrite runEvents_app.
    unfold opsOfEvents. cbn [flat_map opOfEvent]. unfold AddTaskDialog_handleSubmit.
    destruct (truthyString (trim (form_title form))); cbn [negb fst app fold_left];
      [|reflexivity].
    cbn [applyOp]. unfold addTask.
    assert (Hne : id sub <> "").
    { destruct (Hfrom (id sub)) as (n & _ & Hn).
      - unfold allIds. apply in_map.
        assert (Hflat : forall ts0, In top ts0 -> In sub (flatten ts0)).
        { induction ts0 as [|b l0 IH0]; intros Hin; [contradiction|].
          rewrite flatten_cons. destruct Hin as [->|Hin].
          - right. apply in_or_app. left. now apply flatten_incl.
          - right. apply in_or_app. right. now apply IH0. }
        now apply Hflat.
      - rewrite Hn. apply Number_toString_not_empty. }
    rewrite (truthyString_nonempty _ Hne). apply addTask_map_absent.
    intros Hin. specialize (Hcount (id sub)).
    assert (H2 := countId_twice (id sub) top sub _ Htop Hsub eq_refl Hin). lia.
Qed.

Lemma ui_history_ids_witness :
  let events :=
    [SubmitNewTask 1000 (mkTaskForm "Buy milk" [] "" "" "bg-card");
     SubmitNewSubtask 2000 (reminderTask "1000" 0 false)
                      (mkTaskForm "2 percent" [] "" "" "bg-card")] in
  NoDup (clockReadings (opsOfEvents noOtherFormats events)) /\
  uniqueIds (runEvents noOtherFormats events) /\
  runEvents noOtherFormats
    (events ++ [SubmitNewSubtask 3000
                  (mkTask "2000" "2 percent" false "bg-card" [] None [] (Some "1000"))
                                 (mkTaskForm "Skimmed" [] "" "" "bg-card")])
  = runEvents noOtherFormats events.
Proof.
  intros events.
  assert (Hnd : NoDup (clockReadings (opsOfEvents noOtherFormats events))).
  { change (NoDup [1000; 2000]). constructor; [|constructor; [intros []|constructor]].
    intros [H|[]]. discriminate H. }
  split; [exact Hnd|].
  destruct (ui_history_ids noOtherFormats events Hnd) as (Huniq & _ & Hdrop).
  split; [exact Huniq|].
  apply (Hdrop (nth 0 (runEvents noOtherFormats events) (reminderTask "" 0 false))).
  - now left.
  - now left.
Defined.

(** ** Histories and the stored tree *)

Lemma storableOp_keeps (op : Op) :
  keepsNesting op -> storableOp op -> opKeeps storableReminder op.
Proof.
  destruct op as [now data parent|x p|x]; cbn [keepsNesting storableOp opKeeps].
  - intros _ H. exact H.
  - intros Hs Hr. split; [exact Hs|]. intros t Ht.
    unfold storableReminder, merge in *. cbn [reminder].
    destruct (u_reminder p) as [r|]; [exact Hr|exact Ht].
  - intros _ _. exact I.
Qed.

(** X13. After any history of additions, updates and deletions whose
    updates do not name [subtasks] and whose reminders are proper dates,
    what the save effect stores is loaded back as the same tree. *)
Theorem storable_history_reloads (other : string -> Date) (ops : list Op) :
  Forall keepsNesting ops -> Forall storableOp ops ->
  validTree (runOps ops) /\
  exists l, loadTasks other (saveTasks (runOps ops)) = Normal (Some l) /\
            treeOf l = Some (runOps ops).
Proof.
  intros Hn Hst.
  assert (Hvalid : validTree (runOps ops)).
  { split.
    - apply singleLevel_fold; [exact Hn|constructor].
    - apply Forall_flatten_fold; [intros t s Ht; exact Ht| |constructor].
      rewrite Forall_forall in *. intros op Hop.
      apply storableOp_keeps; [now apply Hn|now apply Hst]. }
  split; [exact Hvalid|].
  destruct (revive_tree other (runOps ops) Hvalid) as (l & Hl & Htree).
  exists l. rewrite saveTasks_document. cbn [loadTasks]. rewrite Hl.
  split; [reflexivity|exact Htree].
Qed.

Lemma storable_history_reloads_witness :
  exists l, loadTasks noOtherFormats (saveTasks (runOps milkOps)) = Normal (Some l) /\
            treeOf l = Some (runOps milkOps).
Proof.
  apply (storable_history_reloads noOtherFormats milkOps).
  - repeat constructor.
  - repeat constructor; unfold maxTime; lia.
Defined.

Lemma revive_leaf_drop (other : string -> Date) (s : Task) :
  subtasks s = [] -> clippedReminder s ->
  exists v, reviveSubtask other (jsonOf s) = Normal v /\
            Task_ofJs v = Some (dropInvalidReminders s).
Proof.
  destruct s as [i ti c co ta r subs pa]. cbn [subtasks]. intros -> Hr.
  unfold clippedReminder in Hr. cbn [reminder] in Hr.
  unfold jsonOf, reviveSubtask.
  destruct r as [[ms|]|]; destruct pa as [pa|];
    cbn -[toISOString reviveReminder asStrings];
    rewrite ?toJson_strings, ?ofJson_strings, ?reviveReminder_text by exact Hr;
    eexists; (split; [reflexivity|]);
    cbn -[asStrings]; rewrite asStrings_strings; reflexivity.
Qed.

Lemma revive_leaves_drop (other : string -> Date) (subs : list Task) :
  Forall (fun s => subtasks s = []) subs -> Forall clippedReminder subs ->
  exists vs, mapThrowing (reviveSubtask other) (map jsonOf subs) = Normal vs /\
             treeOf vs = Some (map dropInvalidReminders subs).
Proof.
  intros Hleaf. induction Hleaf as [|s subs Hs Hsubs IH]; intros Hst.
  - exists []. split; reflexivity.
  - inversion Hst as [|? ? Hrs Hrsubs]; subst.
    destruct (IH Hrsubs) as (vs & Hvs & Htree).
    destruct (revive_leaf_drop other s Hs Hrs) as (v & Hv & Hread).
    exists (v :: vs). cbn [map mapThrowing]. rewrite Hv, Hvs. split; [reflexivity|].
    unfold treeOf in *. cbn [map allSome]. now rewrite Hread, Htree.
Qed.

Lemma revive_task_drop (other : string -> Date) (t : Task) :
  Forall (fun s => subtasks s = []) (subtasks t) ->
  clippedReminder t -> Forall clippedReminder (subtasks t) ->
  exists v, reviveTask other (jsonOf t) = Normal v /\
            Task_ofJs v = Some (dropInvalidReminders t).
Proof.
  destruct t as [i ti c co ta r subs pa]. cbn [subtasks]. intros Hleaf Hr Hsubs.
  unfold clippedReminder in Hr. cbn [reminder] in Hr.
  destruct (revive_leaves_drop other subs Hleaf Hsubs) as (vs & Hvs & Htree).
  unfold jsonOf, reviveTask.
  destruct r as [[ms|]|]; destruct pa as [pa|];
    cbn -[toISOString reviveReminder asStrings mapThrowing reviveSubtask];
    rewrite ?jsonOf_subtasks, ?toJson_strings, ?ofJson_strings, ?Hvs,
      ?reviveReminder_text by exact Hr;
    cbn [andThen]; eexists; (split; [reflexivity|]);
    rewrite Task_ofJs_obj;
    cbn -[asStrings treeOf dropInvalidReminders]; rewrite asStrings_strings, Htree;
    reflexivity.
Qed.

Lemma dropInvalidReminders_storable (t : Task) :
  Forall storableReminder (flatten [t]) -> dropInvalidReminders t = t.
Proof.
  induction t as [i ti c co ta r subs pa IH] using Task_tree_ind. intros Ht.
  rewrite flatten_cons in Ht. cbn [subtasks flatten flat_map] in Ht.
  rewrite app_nil_r in Ht. inversion Ht as [|? ? Hhead Hsubs]; subst.
  cbn [dropInvalidReminders id title completed color tags reminder subtasks parentId].
  unfold storableReminder in Hhead. cbn [reminder] in Hhead.
  assert (Hmap : map dropInvalidReminders subs = subs).
  { change (flat_map flattenTask subs) with (flatten subs) in Hsubs.
    clear Hhead Ht. induction IH as [|a l Ha Hl IHl]; [reflexivity|].
    rewrite flatten_cons in Hsubs. inversion Hsubs as [|? ? Hhead' Hrest]; subst.
    apply Forall_app in Hrest. destruct Hrest as [Hsa Hsl].
    cbn [map]. rewrite IHl by exact Hsl. f_equal. apply Ha.
    rewrite flatten_cons. cbn [flatten flat_map]. rewrite app_nil_r.
    constructor; assumption. }
  rewrite Hmap. destruct r as [[ms|]|]; [reflexivity|contradiction|reflexivity].
Qed.

(** X14. A reminder that is the Invalid Date does not survive a save: for
    a tree nested one level deep, what the save effect stores is loaded back
    without exception as the same tree with these reminders absent and
    every other member as it was; the tree comes back unchanged exactly when
    it holds no such reminder. *)
Theorem invalid_reminders_are_dropped (other : string -> Date) (tasks : list Task) :
  singleLevel tasks -> Forall clippedReminder (flatten tasks) ->
  (exists l, loadTasks other (saveTasks tasks) = Normal (Some l) /\
             treeOf l = Some (map dropInvalidReminders tasks)) /\
  (map dropInvalidReminders tasks = tasks <->
   Forall (fun t => reminder t <> Some InvalidDate) (flatten tasks)).
Proof.
  intros Hlevel Hclip. split.
  - assert (Hrev : exists l, mapThrowing (reviveTask other) (map jsonOf tasks) = Normal l /\
                             treeOf l = Some (map dropInvalidReminders tasks)).
    { induction Hlevel as [|t tasks Ht Htasks IH].
      - exists []. split; reflexivity.
      - rewrite flatten_cons in Hclip. inversion Hclip as [|? ? Hrt Hrest]; subst.
        apply Forall_app in Hrest. destruct Hrest as [Hrsubs Hrtasks].
        destruct (IH Hrtasks) as (l & Hl & Htree).
        destruct (revive_task_drop other t Ht Hrt) as (v & Hv & Hread).
        { apply Forall_forall. intros s Hs. rewrite Forall_forall in Hrsubs.
          apply Hrsubs. now apply flatten_incl. }
        exists (v :: l). cbn [map mapThrowing]. rewrite Hv, Hl. split; [reflexivity|].
        unfold treeOf in *. cbn [map allSome]. now rewrite Hread, Htree. }
    destruct Hrev as (l & Hl & Htree).
    exists l. rewrite saveTasks_document. cbn [loadTasks]. rewrite Hl.
    split; [reflexivity|exact Htree].
  - split.
    + intros Hsame. apply Forall_forall. intros t Hin Hbad.
      assert (Hdrop : forall ts, In t (flatten ts) ->
                                 map dropInvalidReminders ts <> ts).
      { clear - Hbad. intros ts.
        assert (Hnode : forall u, In t (flatten [u]) -> dropInvalidReminders u <> u).
        { induction u as [i ti c co ta r subs pa IH] using Task_tree_ind.
          rewrite flatten_cons. cbn [subtasks flatten flat_map]. rewrite app_nil_r.
          change (flat_map flattenTask subs) with (flatten subs).
          intros [Heq|Hin] Hfix.
          - subst t. cbn [reminder] in Hbad. subst r.
            cbn [dropInvalidReminders reminder] in Hfix. discriminate Hfix.
          - cbn [dropInvalidReminders subtasks] in Hfix.
            assert (Hsubs : map dropInvalidReminders subs = subs) by congruence.
            clear Hfix. induction IH as [|a l Ha Hl IHl]; [contradiction|].
            cbn [map] in Hsubs. injection Hsubs as Ha' Hl'.
            rewrite flatten_cons in Hin. destruct Hin as [Hin|Hin].
            + apply Ha; [|exact Ha']. rewrite flatten_cons. now left.
            + apply in_app_or in Hin. destruct Hin as [Hin|Hin].
              * apply Ha; [|exact Ha']. rewrite flatten_cons. right.
                apply in_or_app. now left.
              * now apply IHl. }
        induction ts as [|a l IHl]; [contradiction|].
        rewrite flatten_cons. intros Hin Hfix. cbn [map] in Hfix.
        injection Hfix as Ha Hl.
        destruct Hin as [Hin|Hin].
        - apply (Hnode a); [|exact Ha]. rewrite flatten_cons. now left.
        - apply in_app_or in Hin. destruct Hin as [Hin|Hin].
          + apply (Hnode a); [|exact Ha]. rewrite flatten_cons. right.
            apply in_or_app. now left.
          + now apply IHl. }
      exact (Hdrop tasks Hin Hsame).
    + intros Hgood.
      assert (Hst : Forall storableReminder (flatten tasks)).
      { rewrite Forall_forall in *. intros t Hin.
        specialize (Hclip t Hin). specialize (Hgood t Hin).
        unfold clippedReminder in Hclip. unfold storableReminder.
        destruct (reminder t) as [[ms|]|]; [exact Hclip|now contradiction Hgood|exact I]. }
      clear - Hst. induction tasks as [|a l IH]; [reflexivity|].
      rewrite flatten_cons in Hst. inversion Hst as [|? ? Ha Hrest]; subst.
      apply Forall_app in Hrest. destruct Hrest as [Hsa Hl].
      cbn [map]. rewrite IH by exact Hl. f_equal.
      apply dropInvalidReminders_storable.
      rewrite flatten_cons. cbn [flatten flat_map]. rewrite app_nil_r.
      constructor; assumption.
Qed.

Lemma invalid_reminders_are_dropped_witness :
  exists l,
    loadTasks noOtherFormats
      (saveTasks [withReminder (newTask 1000 milkData None) (Some InvalidDate)])
    = Normal (Some l) /\
    treeOf l = Some [withReminder (newTask 1000 milkData None) None].
Proof.
  apply (invalid_reminders_are_dropped noOtherFormats
           [withReminder (newTask 1000 milkData None) (Some InvalidDate)]).
  - repeat constructor.
  - repeat constructor.
Defined.

(** ** The reminder in the edit dialog *)

Lemma same_minute_fields (a b : Z) :
  a / 60000 = b / 60000 ->
  a / msPerDay = b / msPerDay /\
  a mod msPerDay / 3600000 = b mod msPerDay / 3600000 /\
  a mod msPerDay / 60000 mod 60 = b mod msPerDay / 60000 mod 60.
Proof.
  unfold msPerDay. intros H.
  repeat split; Z.to_euclidean_division_equations; lia.
Qed.

Lemma minute_text (a b : Z) :
  a / 60000 = b / 60000 ->
  sliceFrom0 16 (toISOString a) = sliceFrom0 16 (toISOString b).
Proof.
  intros H. destruct (same_minute_fields a b H) as (Hday & Hh & Hm).
  unfold toISOString. rewrite Hday, Hh, Hm.
  destruct (civilFromDays (b / msPerDay)) as [[y m] d].
  unfold yearString. destruct ((0 <=? y) && (y <=? 9999));
    cbn [padDigits append sliceFrom0 substring]; reflexivity.
Qed.

(** X15. When the edit dialog opens on a task whose reminder is the
    Invalid Date, its effect throws ([toISOString] raises a RangeError).
    On a proper reminder, the text it puts in the reminder input is the
    local time cut to the minute: two reminders within the same local minute
    give the same text, and for a local year of four digits the text is
    YYYY-MM-DDTHH:mm, with the other fields of the form taken from the
    task. *)
Theorem edit_dialog_reminder_text (tz : Z -> Z) (task : Task) (prev : TaskForm) :
  (reminder task = Some InvalidDate -> EditTaskDialog_open tz task prev = None) /\
  (forall t, reminder task = Some (TimeValue t) ->
     - maxTime <= t - tz t * 60000 <= maxTime ->
     exists text,
       EditTaskDialog_open tz task prev
         = Some (mkTaskForm (title task) (tags task) (form_newTag prev) text (color task)) /\
       (forall t', - maxTime <= t' - tz t' * 60000 <= maxTime ->
                   (t' - tz t' * 60000) / 60000 = (t - tz t * 60000) / 60000 ->
                   reminderInputText tz (TimeValue t') = Some text) /\
       (forall y m d,
           civilFromDays ((t - tz t * 60000) / msPerDay) = (y, m, d) ->
           0 <= y <= 9999 ->
           text = (padDigits 4 y ++ "-" ++ padDigits 2 m ++ "-" ++ padDigits 2 d ++ "T"
                   ++ padDigits 2 ((t - tz t * 60000) mod msPerDay / 3600000) ++ ":"
                   ++ padDigits 2 ((t - tz t * 60000) mod msPerDay / 60000 mod 60))%string)).
Proof.
  assert (Hclip : forall a, - maxTime <= a <= maxTime -> TimeClip a = TimeValue a).
  { intros a Ha. unfold TimeClip.
    destruct (Z.leb_spec (- maxTime) a); [|lia].
    destruct (Z.leb_spec a maxTime); [reflexivity|lia]. }
  split.
  - intros Hr. unfold EditTaskDialog_open. rewrite Hr. reflexivity.
  - intros t Hr Hrange.
    exists (sliceFrom0 16 (toISOString (t - tz t * 60000))). split; [|split].
    + unfold EditTaskDialog_open, reminderInputText. rewrite Hr, (Hclip _ Hrange).
      reflexivity.
    + intros t' Hrange' Hsame. unfold reminderInputText. rewrite (Hclip _ Hrange').
      f_equal. now apply minute_text.
    + intros y m d Hcivil Hy. unfold toISOString. rewrite Hcivil.
      unfold yearString.
      destruct (Z.leb_spec 0 y); [|lia]. destruct (Z.leb_spec y 9999); [|lia].
      cbn [andb padDigits append sliceFrom0 substring]. reflexivity.
Qed.

Lemma edit_dialog_reminder_text_witness :
  EditTaskDialog_open (fun _ => -60) (reminderTask "1" 90000 false) emptyForm
  = Some (mkTaskForm "Call the bank" [] "" "1970-01-01T01:01" "bg-card") /\
  reminderInputText (fun _ => -60) (TimeValue 119999) = Some "1970-01-01T01:01".
Proof.
  destruct (edit_dialog_reminder_text (fun _ => -60) (reminderTask "1" 90000 false) emptyForm)
    as (_ & Hopen).
  destruct (Hopen 90000 eq_refl) as (text & Hform & Hminute & Htext).
  - unfold maxTime. lia.
  - assert (Ht : text = "1970-01-01T01:01").
    { apply (Htext 1970 1 1); [reflexivity|lia]. }
    subst text. split; [exact Hform|].
    apply Hminute; [unfold maxTime; lia|reflexivity].
Defined.

(** ** Sorting by title *)

(** X16. With sortBy = title and a [localeCompare] that is a consistent
    comparator (antisymmetric, and transitive in "not after"), the view is
    a rearrangement of the tasks that pass the filter in which no task
    stands before a task whose title sorts before its own; tasks whose
    titles compare equal stand in the order they have in the tree. *)
Theorem sort_by_title (lc : string -> string -> Z) (now : Z)
    (filters : FilterState) (tasks : list Task) :
  sortBy filters = SortTitle ->
  (forall x y, lc x y < 0 <-> 0 < lc y x) ->
  (forall x y z, lc x y <= 0 -> lc y z <= 0 -> lc x z <= 0) ->
  Permutation (filteredTasks lc now filters tasks) (filter (keepTask now filters) tasks) /\
  StronglySorted (fun a b => lc (title a) (title b) <= 0)
                 (filteredTasks lc now filters tasks) /\
  (forall l1 a l2 b l3,
      filteredTasks lc now filters tasks = l1 ++ a :: l2 ++ b :: l3 ->
      lc (title a) (title b) <= 0) /\
  (forall s, filter (fun t => lc (title t) s =? 0) (filteredTasks lc now filters tasks) =
             filter (fun t => lc (title t) s =? 0) (filter (keepTask now filters) tasks)).
Proof.
  intros Hby Hanti Htrans.
  assert (Hbefore : forall a b, sortsAfter (compareTasks lc SortTitle a b) = false <->
                                lc (title a) (title b) <= 0).
  { intros a b. cbn [compareTasks sortsAfter]. rewrite Z.ltb_ge. reflexivity. }
  assert (Hsorted : StronglySorted (fun a b => lc (title a) (title b) <= 0)
                                   (filteredTasks lc now filters tasks)).
  { unfold filteredTasks. rewrite Hby.
    apply StronglySorted_weaken
      with (R := fun x y => sortsAfter (compareTasks lc SortTitle x y) = false).
    - intros x y _ _. apply Hbefore.
    - apply Array_sort_sorted with (dom := fun _ => True).
      + intros x y _ _ Hn. rewrite Hbefore in *.
        assert (H := Hanti (title y) (title x)). lia.
      + intros x y z _ _ _. rewrite !Hbefore. apply Htrans.
      + apply Forall_forall. intros t _. exact I. }
  split; [unfold filteredTasks; apply Array_sort_perm|].
  split; [exact Hsorted|]. split.
  - intros l1 a l2 b l3 Hview. rewrite Hview in Hsorted.
    now apply StronglySorted_later in Hsorted.
  - intros s. unfold filteredTasks. rewrite Hby.
    apply Array_sort_stable. intros x y _ _ Hx Hy.
    apply Z.eqb_eq in Hx, Hy. apply Hbefore.
    apply (Htrans _ s); [lia|].
    assert (H1 := Hanti (title y) s). assert (H2 := Hanti s (title y)). lia.
Qed.

Lemma sort_by_title_witness :
  map title
    (filteredTasks (fun x y => Z.of_nat (String.length x) - Z.of_nat (String.length y)) 0
                   (mkFilterState "" "all" StatusAll SortTitle) bankTree)
  = ["Water plants"; "Call the bank"] /\
  StronglySorted
    (fun a b => Z.of_nat (String.length (title a)) - Z.of_nat (String.length (title b)) <= 0)
    (filteredTasks (fun x y => Z.of_nat (String.length x) - Z.of_nat (String.length y)) 0
                   (mkFilterState "" "all" StatusAll SortTitle) bankTree).
Proof.
  split; [reflexivity|].
  apply (sort_by_title (fun x y => Z.of_nat (String.length x) - Z.of_nat (String.length y)) 0
                       (mkFilterState "" "all" StatusAll SortTitle) bankTree).
  - reflexivity.
  - intros x y. lia.
  - intros x y z. lia.
Defined.

(** ** When the load effect throws *)

Lemma mapThrowing_cases {A B : Type} (f : A -> Completion B) (ok : A -> bool)
    (l : list A) :
  (forall x, In x l ->
     if ok x then exists v, f x = Normal v else f x = Throw TypeError) ->
  if forallb ok l
  then exists vs, mapThrowing f l = Normal vs /\ List.length vs = List.length l
  else mapThrowing f l = Throw TypeError.
Proof.
  induction l as [|x l IH]; intros Hf.
  - exists []. split; reflexivity.
  - cbn [forallb mapThrowing].
    assert (Hx := Hf x (or_introl eq_refl)).
    assert (Hl : forall y, In y l ->
                   if ok y then exists v, f y = Normal v else f y = Throw TypeError).
    { intros y Hy. apply Hf. now right. }
    specialize (IH Hl). destruct (ok x); cbn [andb].
    + destruct Hx as (v & ->). cbn [andThen]. destruct (forallb ok l).
      * destruct IH as (vs & -> & Hlen). exists (v :: vs). cbn. split; [reflexivity|].
        now rewrite Hlen.
      * now rewrite IH.
    + now rewrite Hx.
Qed.

Lemma reviveSubtask_cases (other : string -> Date) (x : Json) :
  if negb (isNull x) then exists v, reviveSubtask other x = Normal v
  else reviveSubtask other x = Throw TypeError.
Proof. destruct x; cbn; eauto. Qed.

Lemma reviveSubtasks_cases (other : string -> Date) (s : option Json) :
  if loadableSubtasks s then exists v, reviveSubtasks other s = Normal v
  else reviveSubtasks other s = Throw TypeError.
Proof.
  destruct s as [[| | | |items|]|]; cbn [loadableSubtasks reviveSubtasks]; eauto.
  assert (H := mapThrowing_cases (reviveSubtask other) (fun x => negb (isNull x)) items
                 (fun x _ => reviveSubtask_cases other x)).
  destruct (forallb (fun x => negb (isNull x)) items).
  - destruct H as (vs & -> & _). cbn [andThen]. eauto.
  - now rewrite H.
Qed.

Lemma reviveTask_cases (other : string -> Date) (x : Json) :
  if loadableTask x then exists v, reviveTask other x = Normal v
  else reviveTask other x = Throw TypeError.
Proof.
  destruct x as [| | | | |props]; cbn [loadableTask]; try (cbn; eauto; fail).
  unfold reviveTask. cbn [getProp andThen].
  assert (H := reviveSubtasks_cases other (lookupProp "subtasks" props)).
  destruct (loadableSubtasks (lookupProp "subtasks" props)).
  - destruct H as (v & ->). cbn [andThen]. eauto.
  - now rewrite H.
Qed.



(** ** Adding and deleting *)

Lemma deleteTaskRecursive_new (now : Z) (data : TaskData) (parent : option string) :
  deleteTaskRecursive (Number_toString now) [newTask now data parent] = [].
Proof.
  rewrite deleteTaskRecursive_cons, deleteTaskNode_unfold. cbn [newTask id].
  now rewrite String.eqb_refl.
Qed.

(** X18. Deleting a task right after it was added, by an id that no task
    of the tree had before, gives back the tree as it was, wherever the
    task was put (at the top level, under its parent, or nowhere because
    no top-level task bears the parent id). *)
Theorem add_then_delete_restores (now : Z) (data : TaskData) (parent : option string)
    (ts : list Task) :
  ~ In (Number_toString now) (allIds ts) ->
  deleteTask (id (newTask now data parent)) (addTask now data parent ts) = ts.
Proof.
  intros Hfresh. cbn [newTask id]. unfold deleteTask.
  assert (Happ : deleteTaskRecursive (Number_toString now)
                   (ts ++ [newTask now data parent]) = ts).
  { rewrite deleteTaskRecursive_app, deleteTaskRecursive_new, app_nil_r.
    now apply deleteTaskRecursive_absent. }
  unfold addTask. destruct parent as [p|]; [|exact Happ].
  destruct (truthyString p); [|exact Happ]. clear Happ.
  induction ts as [|a l IH]; [reflexivity|].
  rewrite allIds_cons in Hfresh. cbn [map].
  assert (Ha : id a <> Number_toString now) by (intros H; apply Hfresh; now left).
  assert (Hsubs : ~ In (Number_toString now) (allIds (subtasks a))).
  { intros H. apply Hfresh. right. apply in_or_app. now left. }
  assert (Hl : ~ In (Number_toString now) (allIds l)).
  { intros H. apply Hfresh. right. apply in_or_app. now right. }
  rewrite deleteTaskRecursive_cons, (IH Hl), deleteTaskNode_kept.
  destruct (String.eqb (id a) p).
  - cbn [id subtasks withSubtasks].
    destruct (String.eqb_spec (id a) (Number_toString now)) as [Heq|_]; [contradiction|].
    rewrite deleteTaskRecursive_app, deleteTaskRecursive_new, app_nil_r.
    rewrite (deleteTaskRecursive_absent _ _ Hsubs). cbn [keepList app].
    f_equal. now destruct a.
  - destruct (String.eqb_spec (id a) (Number_toString now)) as [Heq|_]; [contradiction|].
    rewrite (deleteTaskRecursive_absent _ _ Hsubs), withSubtasks_same. reflexivity.
Qed.

Lemma add_then_delete_restores_witness :
  deleteTask "3000" (addTask 3000 twoPercentData (Some "1000") milkTree) = milkTree.
Proof.
  apply (add_then_delete_restores 3000 twoPercentData (Some "1000") milkTree).
  vm_compute. intros [H|[H|[]]]; discriminate H.
Defined.

(** ** The color of an item *)

Lemma currentColor_cases (task : Task) :
  (In (color task) dialogColors /\ color_value (currentColor task) = color task
   \/ ~ In (color task) dialogColors
      /\ currentColor task = mkTaskColor "Default" "bg-card" "border-border")
  /\ In (currentColor task) taskColors.
Proof.
  unfold currentColor, taskColors, dialogColors. cbn [find color_value nth In].
  repeat match goal with
         | |- context [String.eqb ?a (color task)] =>
             destruct (String.eqb_spec a (color task)) as [<-|?]
         end;
    (split; [first [left; split; [tauto|reflexivity] | right; split; [|reflexivity]]
            |tauto]).
  intros H. repeat destruct H as [H|H]; try contradiction; auto.
Qed.

Lemma paletteEvent_keeps (other : string -> Date) (e : UiEvent) (op : Op) :
  opOfEvent other e = Some op -> paletteEvent e -> opKeeps inPalette op.
Proof.
  destruct e as [now form|now task form|task form|task|task c|task];
    cbn [opOfEvent paletteEvent];
    unfold AddTaskDialog_handleSubmit, EditTaskDialog_handleSubmit.
  - destruct (truthyString (trim (form_title form))); cbn [negb fst]; [|discriminate].
    intros [= <-] H. exact H.
  - destruct (truthyString (trim (form_title form))); cbn [negb fst]; [|discriminate].
    intros [= <-] H. exact H.
  - destruct (truthyString (trim (form_title form))); cbn [negb]; [|discriminate].
    intros [= <-] H. split; [reflexivity|]. intros t _. exact H.
  - intros [= <-] _. split; [reflexivity|]. intros t Ht. exact Ht.
  - intros [= <-] H. split; [reflexivity|]. intros t _. exact H.
  - intros [= <-] _. exact I.
Qed.

(** X19. The item of a task is drawn with an entry of the palette: the
    entry of the color of the task, or the Default entry when the color is
    not one of the palette. When every color that the events carry is one
    the buttons offer, whatever the user does keeps every color of the tree
    within the palette, so every item is drawn with the color of its
    task. *)
Theorem items_show_their_color (other : string -> Date) (events : list UiEvent) :
  (forall task,
      In (currentColor task) taskColors /\
      (~ In (color task) dialogColors ->
       currentColor task = mkTaskColor "Default" "bg-card" "border-border")) /\
  (Forall paletteEvent events ->
   Forall (fun t => color_value (currentColor t) = color t)
          (flatten (runEvents other events))).
Proof.
  split.
  - intros task. destruct (currentColor_cases task) as [[[Hin _]|[_ Hdef]] Hpal].
    + split; [exact Hpal|]. intros Hnot. contradiction.
    + split; [exact Hpal|]. intros _. exact Hdef.
  - intros Hev.
    assert (Hpal : Forall inPalette (flatten (runEvents other events))).
    { apply Forall_flatten_fold; [intros t s Ht; exact Ht| |constructor].
      unfold opsOfEvents. apply Forall_flat_map.
      eapply Forall_impl; [|exact Hev]. intros e He. cbn beta.
      destruct (opOfEvent other e) as [op|] eqn:Hop; [|constructor].
      constructor; [|constructor]. now apply (paletteEvent_keeps other e). }
    eapply Forall_impl; [|exact Hpal]. intros t Ht. cbn beta.
    destruct (currentColor_cases t) as [[[_ Heq]|[Hnot _]] _]; [exact Heq|].
    contradiction.
Qed.

Lemma items_show_their_color_witness :
  Forall (fun t => color_value (currentColor t) = color t)
         (flatten (runEvents noOtherFormats
                     [SubmitNewTask 1000 (mkTaskForm "Buy milk" [] "" "" "bg-card");
                      PickColor (reminderTask "1000" 0 false) "bg-red-50"])) /\
  currentColor (mkTask "1" "Old" false "bg-pink-50" [] None [] None)
  = mkTaskColor "Default" "bg-card" "border-border".
Proof.
  destruct (items_show_their_color noOtherFormats
              [SubmitNewTask 1000 (mkTaskForm "Buy milk" [] "" "" "bg-card");
               PickColor (reminderTask "1000" 0 false) "bg-red-50"]) as (Hany & Hall).
  split.
  - apply Hall. constructor; [now left|]. constructor; [|constructor].
    cbn. tauto.
  - apply (Hany (mkTask "1" "Old" false "bg-pink-50" [] None [] None)).
    cbn. intros H. repeat destruct H as [H|H]; try discriminate H; exact H.
Defined.

(** ** The buttons of the tags *)

(** X20. The button of a tag changes only the tag criterion: it selects
    its tag, or goes back to "all" when its tag is the selected one, so that
    pressing it twice restores the filters exactly when they had "all" or
    that tag selected. A tag that reads "all" cannot be selected: its button
    always leaves the criterion at "all", where the view is not narrowed by
    tag. *)
Theorem tag_button_toggles (t : string) (f : FilterState) :
  (search (toggleTag t f) = search f /\ status (toggleTag t f) = status f
   /\ sortBy (toggleTag t f) = sortBy f) /\
  (tag f <> t -> tag (toggleTag t f) = t) /\
  (tag f = t -> tag (toggleTag t f) = "all") /\
  (toggleTag t (toggleTag t f) = f <-> tag f = t \/ tag f = "all") /\
  toggleTag "all" f = withTag f "all".
Proof.
  destruct f as [s tg st sb]. unfold toggleTag, withTag.
  cbn [search tag status sortBy].
  split; [repeat split|]. split; [|split; [|split]].
  - intros Hne. destruct (String.eqb_spec tg t); [contradiction|reflexivity].
  - intros ->. now rewrite String.eqb_refl.
  - destruct (String.eqb_spec tg t) as [->|Hne].
    + destruct (String.eqb_spec "all" t) as [<-|Hall]; split; auto.
    + rewrite String.eqb_refl. split.
      * intros [= <-]. now right.
      * intros [H|H]; [contradiction|]. now subst.
  - destruct (String.eqb_spec tg "all") as [->|_]; reflexivity.
Qed.

Lemma tag_button_toggles_witness :
  tag (toggleTag "bank" defaultFilters) = "bank" /\
  toggleTag "bank" (toggleTag "bank" defaultFilters) = defaultFilters.
Proof.
  destruct (tag_button_toggles "bank" defaultFilters) as (_ & Hsel & _ & Htwice & _).
  split.
  - apply Hsel. discriminate.
  - apply Htwice. now right.
Defined.

(** ** Opening the edit dialog and saving *)


